(** * The session resource-lifecycle core of myst-cli, embedded in Rocq

    The development follows [Session] (the class of the session module):
    - [Fetch]: [Session.fetch], proxy routing and the stall timer;
    - [Acquire]: [Session.createJupyterSessionManager], the four
      acquisition strategies under one try/catch;
    - [Heap]: sessions and promises as heap objects, with
      [jupyterSessionManager], [loadPlugins], [clone], [dispose] and the
      event loop that settles promises and runs their reactions;
    - [Warnings]: [Session.getAllWarnings] and the canonical form
      [JSON.stringify(Object.entries(warning).sort())].

    JavaScript strings are modelled by [string]; every character stands
    for one UTF-16 code unit below 256. *)

From stdpp Require Import base option list strings gmap pretty.
From Stdlib Require Import ZArith Lia Ascii String.

Set Warnings "-register-all".
Open Scope string_scope.
Open Scope list_scope.
Open Scope nat_scope.

(** ** Values shared by the modules *)

(** What JavaScript can [throw]: an [Error] with its message. *)
Inductive Exn := JsError (message : string).

(** The logger sink ([debug], [info], [error]) and [console.log], as a
    trace of entries in the order they are emitted. *)
Inductive LogEntry :=
| LDebug (msg : string)
| LInfo (msg : string)
| LError (msg : string) (err : Exn)
| LConsole (msg : string).

(** JSON-like JavaScript values, as they occur as fields of warnings and
    of request options. Numbers are the integers. *)
Inductive JsVal :=
| JUndefined
| JNull
| JBool (b : bool)
| JNum (n : Z)
| JStr (s : string)
| JArr (xs : list JsVal)
| JObj (fields : list (string * JsVal)).

(** [Array.prototype.includes] on an array of strings. *)
Definition includes (xs : list string) (x : string) : bool :=
  bool_decide (x ∈ xs).

(** [String.prototype.trim] on code units below 256: the white space and
    line terminators there are TAB, LF, VT, FF, CR, SPACE and NBSP. *)
Definition is_js_space (c : ascii) : bool :=
  bool_decide (nat_of_ascii c ∈ [9; 10; 11; 12; 13; 32; 160]).

Fixpoint trim_start (s : string) : string :=
  match s with
  | String c r => if is_js_space c then trim_start r else s
  | EmptyString => EmptyString
  end.

Definition trim (s : string) : string :=
  String.rev (trim_start (String.rev (trim_start s))).

(** ** [Session.fetch] *)

Module Fetch.

(** [const LOCALHOSTS = ['localhost', '127.0.0.1', '::1']] *)
Definition LOCALHOSTS : list string := ["localhost"; "127.0.0.1"; "::1"].

(** The fields of a parsed [URL] that [fetch] reads. *)
Record URL := { href : string; hostname : string }.

(** An [agent] request option: the session's [HttpsProxyAgent] (with the
    address of its proxy) or an agent object of the caller's. *)
Inductive Agent :=
| HttpsProxyAgent (proxy : string)
| CallerAgent (id : nat).

Definition agent_proxy (a : Agent) : string :=
  match a with HttpsProxyAgent p => p | CallerAgent _ => "undefined" end.

(** A value of a [RequestInit] key. *)
Inductive InitVal :=
| IAgent (a : Agent)
| IVal (v : JsVal).

(** [RequestInit]: an options object used as a map from keys to values. *)
Abbreviation RequestInit := (gmap string InitVal).

(** The first argument of [fetch]: a string, a [URL] or a [Request]
    (which carries its [url]). *)
Inductive RequestInfo :=
| ReqString (s : string)
| ReqURL (u : URL)
| ReqRequest (url : string).

(** [(url as Request).url ?? (url as URL | string)], as the string handed
    to the [URL] constructor. *)
Definition url_source (url : RequestInfo) : string :=
  match url with
  | ReqString s => s
  | ReqURL u => href u
  | ReqRequest s => s
  end.

(** [`${url}`]: how the first argument prints in the stall diagnostic. *)
Definition url_display (url : RequestInfo) : string :=
  match url with
  | ReqString s => s
  | ReqURL u => href u
  | ReqRequest _ => "[object Request]"
  end.

(** An opaque [Response]; [fetch] never looks inside. *)
Inductive Response := mkResponse (id : nat).

(** [{ agent: this.proxyAgent, ...init }]: the keys of [init] are copied
    over the injected [agent]. *)
Definition spread_agent (ag : Agent) (init : option RequestInit) : RequestInit :=
  default ∅ init ∪ {[ "agent" := IAgent ag ]}.

Definition using_proxy_msg (ag : Agent) : string :=
  "Using HTTPS proxy: " +:+ agent_proxy ag.

Definition waiting_msg (url : RequestInfo) : string :=
  "⏳ Waiting for response from " +:+ url_display url.

(** The one-shot timer set by [setTimeout(..., 5000)]. *)
Inductive Timer := NotArmed | Armed | Fired.

(** The outcome of the promise [fetch] returns. *)
Inductive Outcome := Pending | Resolved (r : Response) | Rejected (e : Exn).

(** One call of [fetch] in flight: the log so far, [logData.done], the
    timer, the calls made to [nodeFetch] and the outcome. *)
Record FetchState := {
  log : list LogEntry;
  done : bool;
  timer : Timer;
  calls : list (RequestInfo * option RequestInit);
  outcome : Outcome
}.

Section WithURLParser.

(** [new URL(s)] of the platform; [None] when it throws. *)
Variable parse_url : string -> option URL.

(** The options [fetch] passes on: lines 133-137. *)
Definition fetch_init (proxyAgent : option Agent) (urlOnly : URL)
    (init : option RequestInit) : option RequestInit * list LogEntry :=
  match proxyAgent with
  | Some ag =>
      if negb (includes LOCALHOSTS (hostname urlOnly))
      then (Some (spread_agent ag init), [LDebug (using_proxy_msg ag)])
      else (init, [])
  | None => (init, [])
  end.

(** [fetch] up to its [await]: the URL is parsed and logged, the options
    are built, the timer is armed and [nodeFetch] is called. *)
Definition fetch_begin (proxyAgent : option Agent) (url : RequestInfo)
    (init : option RequestInit) : FetchState :=
  match parse_url (url_source url) with
  | None =>
      {| log := []; done := false; timer := NotArmed; calls := [];
         outcome := Rejected (JsError "Invalid URL") |}
  | Some urlOnly =>
      let '(init', plog) := fetch_init proxyAgent urlOnly init in
      {| log := LDebug ("Fetching: " +:+ href urlOnly) :: plog;
         done := false; timer := Armed; calls := [(url, init')];
         outcome := Pending |}
  end.

(** What the environment does to a call in flight. *)
Inductive Event :=
| TimerFires
| NetResolves (r : Response)
| NetRejects (e : Exn).

(** The timer callback, and the continuation of [await nodeFetch(url, init)]:
    on a response [logData.done = true; return resp], on a rejection the
    [await] throws and the rest of the body is skipped. *)
Definition fetch_step (url : RequestInfo) (st : FetchState) (ev : Event) : FetchState :=
  match ev with
  | TimerFires =>
      match timer st with
      | Armed =>
          {| log := if done st then log st else log st ++ [LInfo (waiting_msg url)];
             done := done st; timer := Fired; calls := calls st;
             outcome := outcome st |}
      | _ => st
      end
  | NetResolves r =>
      match outcome st with
      | Pending =>
          {| log := log st; done := true; timer := timer st; calls := calls st;
             outcome := Resolved r |}
      | _ => st
      end
  | NetRejects e =>
      match outcome st with
      | Pending =>
          {| log := log st; done := done st; timer := timer st; calls := calls st;
             outcome := Rejected e |}
      | _ => st
      end
  end.

(** A whole call under a schedule of events. *)
Definition fetch (proxyAgent : option Agent) (url : RequestInfo)
    (init : option RequestInit) (sched : list Event) : FetchState :=
  foldl (fetch_step url) (fetch_begin proxyAgent url init) sched.

(** The options of the call made to [nodeFetch]. *)
Definition sent_init (st : FetchState) : option RequestInit :=
  match calls st with
  | (_, init) :: _ => init
  | [] => None
  end.

(** The [agent] key of an options object. *)
Definition agent_of (init : option RequestInit) : option InitVal :=
  init ≫= (.!! "agent").

End WithURLParser.

End Fetch.

(** ** [Session.createJupyterSessionManager] *)

Module Acquire.

(** [JupyterServerSettings] of myst-execute: partial connection settings
    and, for a server this process spawned, a [dispose] method (here the
    number of the spawned service it terminates). *)
Record JupyterServerSettings := {
  baseUrl : option string;
  token : option string;
  appUrl : option string;
  dispose : option nat
}.

(** One event of the build stream of [BinderRepository.fetch()]. The [url]
    and [token] are there on a [ready] event; the [message] is [None] on an
    event that has none. *)
Record BuildPhaseEvent := {
  phase : string;
  message : option string;
  url : option string;
  ev_token : option string
}.

(** The variables of [process.env] that acquisition reads. *)
Record Env := {
  BINDER_REPO_SPEC : option string;
  JUPYTER_BASE_URL : option string;
  JUPYTER_TOKEN : option string
}.

(** The settings [ServerConnection.makeSettings] makes of partial ones. *)
Record ServerSettings := { made_from : option JupyterServerSettings }.

(** [new KernelManager({ serverSettings })] *)
Record KernelManager := { km_settings : ServerSettings }.

(** What the handler connected to [manager.disposed] does when it runs. *)
Inductive Teardown :=
| DisposeKernelManager (km : KernelManager)
| DisposeServer (service : nat).

(** [new SessionManager({ kernelManager, serverSettings })] with the
    handler connected to its [disposed] signal. *)
Record SessionManager := {
  kernelManager : KernelManager;
  serverSettings : ServerSettings;
  on_disposed : list Teardown
}.

(** The manager built over partial settings: the handler connected to
    [disposed] runs [kernelManager.dispose()] and
    [partialServerSettings?.dispose?.()]. *)
Definition manager_of (partial : option JupyterServerSettings) : SessionManager :=
  let settings := {| made_from := partial |} in
  let km := {| km_settings := settings |} in
  {| kernelManager := km; serverSettings := settings;
     on_disposed :=
       DisposeKernelManager km ::
       match partial ≫= dispose with
       | Some service => [DisposeServer service]
       | None => []
       end |}.

(** A manager as lines 257-266 build it: its kernel manager is made over
    its server settings, and its [disposed] handler is the one for the
    partial settings these were made from. *)
Definition lifetime_tied (m : SessionManager) : Prop :=
  m = manager_of (made_from (serverSettings m)).

(** One [await iterator.next()] of the [for await] loop. *)
Inductive Pull (S : Type) :=
| Yield (data : BuildPhaseEvent) (s : S)
| Finished
| Broken (e : Exn).
Arguments Yield {S} data s.
Arguments Finished {S}.
Arguments Broken {S} e.

(** The collaborators of acquisition, none of them code of the session:
    the build stream of [@jupyterhub/binderhub-client] with state [S]
    ([binder_open] is [new BinderRepository(spec, url).fetch()]),
    myst-execute's [findExistingJupyterServer] and [launchJupyterServer],
    and whether the constructors of [@jupyterlab/services] throw. *)
Record Services (S : Type) := {
  binder_open : string -> Exn + S;
  binder_next : S -> Pull S;
  binder_close : S -> S;
  findExistingJupyterServer : Exn + option JupyterServerSettings;
  launchJupyterServer : string -> Exn + JupyterServerSettings;
  makeSettings_throws : option JupyterServerSettings -> option Exn;
  newKernelManager_throws : ServerSettings -> option Exn;
  newSessionManager_throws : KernelManager -> ServerSettings -> option Exn
}.
Arguments binder_open {S} _ _.
Arguments binder_next {S} _ _.
Arguments binder_close {S} _ _.
Arguments findExistingJupyterServer {S} _.
Arguments launchJupyterServer {S} _ _.
Arguments makeSettings_throws {S} _ _.
Arguments newKernelManager_throws {S} _ _.
Arguments newSessionManager_throws {S} _ _ _.

(** How a run of an async body ends: it returns, it throws, or it is still
    waiting when the fuel of the model is spent. *)
Inductive Run (A : Type) :=
| Returns (a : A)
| Throws (e : Exn)
| Unfinished.
Arguments Returns {A} a.
Arguments Throws {A} e.
Arguments Unfinished {A}.

(** The effects of a run: the log and the state of the build stream. *)
Record Effects (S : Type) := {
  log : list LogEntry;
  repo : option S
}.
Arguments log {S} _.
Arguments repo {S} _.

(** Computations with effects that may throw. *)
Definition M (S A : Type) : Type := Effects S -> Run A * Effects S.

Definition ret {S A} (a : A) : M S A := fun st => (Returns a, st).

Definition throw {S A} (e : Exn) : M S A := fun st => (Throws e, st).

Definition bind {S A B} (m : M S A) (k : A -> M S B) : M S B :=
  fun st =>
    match m st with
    | (Returns a, st') => k a st'
    | (Throws e, st') => (Throws e, st')
    | (Unfinished, st') => (Unfinished, st')
    end.

Notation "'do' x <- m ; k" := (bind m (fun x => k))
  (at level 10, x name, m at level 100, k at level 200).
Notation "'run' m ; k" := (bind m (fun _ => k))
  (at level 10, m at level 100, k at level 200).

Definition emit {S} (l : LogEntry) : M S unit :=
  fun st => (Returns tt, {| log := log st ++ [l]; repo := repo st |}).

Definition set_repo {S} (s : S) : M S unit :=
  fun st => (Returns tt, {| log := log st; repo := Some s |}).

(** A call that returns or throws. *)
Definition lift {S A} (r : Exn + A) : M S A :=
  match r with inl e => throw e | inr a => ret a end.

(** A constructor call that may throw. *)
Definition guard {S} (r : option Exn) : M S unit :=
  match r with Some e => throw e | None => ret tt end.

(** [try { body } catch (err) { handler }] *)
Definition try_catch {S A} (body : M S A) (handler : Exn -> M S A) : M S A :=
  fun st =>
    match body st with
    | (Throws e, st') => handler e st'
    | r => r
    end.

Section WithServices.

Context {St : Type} (sv : Services St).

(** [`[${data.phase}] ${data.message.trim()}`]; [None] when the event has
    no message, where [data.message.trim()] throws. *)
Definition console_line (data : BuildPhaseEvent) : option string :=
  (fun msg => "[" +:+ phase data +:+ "] " +:+ trim msg) <$> message data.

(** The [TypeError] of [data.message.trim()] on an event without message. *)
Definition no_message : Exn :=
  JsError "Cannot read properties of undefined (reading 'trim')".

(** [{ baseUrl: data.url, token: data.token }] *)
Definition ready_settings (data : BuildPhaseEvent) : JupyterServerSettings :=
  {| baseUrl := url data; token := ev_token data; appUrl := None; dispose := None |}.

(** The [for await (const data of repo.fetch())] loop of lines 222-236.
    The line for the console is made first, and making it throws on an
    event without message. The [break] of each [case] leaves the [switch],
    and the loop asks the stream for its next event; the loop ends when
    the stream does. *)
Fixpoint consume (fuel : nat) (s : St) (partial : option JupyterServerSettings)
    : M St (option JupyterServerSettings) :=
  match fuel with
  | O => fun st => (Unfinished, st)
  | S fuel' =>
      match binder_next sv s with
      | Finished => ret partial
      | Broken e => throw e
      | Yield data s' =>
          run set_repo s';
          match console_line data with
          | None => throw no_message
          | Some line =>
              run emit (LConsole line);
              if String.eqb (phase data) "ready" then
                let closed := binder_close sv s' in
                run set_repo closed;
                consume fuel' closed (Some (ready_settings data))
              else if String.eqb (phase data) "failed" then
                throw (JsError "Trying to build the repository failed")
              else consume fuel' s' partial
          end
      end
  end.

(** Lines 219-255: the strategy that fires and the partial settings it
    obtains. *)
Definition acquire_settings (fuel : nat) (env : Env) (sourcePath : string)
    : M St (option JupyterServerSettings) :=
  match BINDER_REPO_SPEC env with
  | Some spec =>
      do s <- lift (binder_open sv spec);
      run set_repo s;
      consume fuel s None
  | None =>
      match JUPYTER_BASE_URL env with
      | Some base =>
          ret (Some {| baseUrl := Some base; token := JUPYTER_TOKEN env;
                       appUrl := None; dispose := None |})
      | None =>
          do existing <- lift (findExistingJupyterServer sv);
          match existing with
          | Some found =>
              run emit (LDebug ("Found existing server on: "
                                +:+ default "undefined" (appUrl found)));
              ret (Some found)
          | None =>
              run emit (LDebug ("Launching jupyter server on " +:+ sourcePath));
              do launched <- lift (launchJupyterServer sv sourcePath);
              ret (Some launched)
          end
      end
  end.

(** Lines 257-266: the settings, the kernel manager, the session manager
    and the handler tying their lifetimes to the manager's. *)
Definition build_manager (partial : option JupyterServerSettings)
    : M St SessionManager :=
  run guard (makeSettings_throws sv partial);
  let settings := {| made_from := partial |} in
  run guard (newKernelManager_throws sv settings);
  let km := {| km_settings := settings |} in
  run guard (newSessionManager_throws sv km settings);
  ret (manager_of partial).

(** The body of the [try] block. *)
Definition acquire (fuel : nat) (env : Env) (sourcePath : string)
    : M St (option SessionManager) :=
  do partial <- acquire_settings fuel env sourcePath;
  do manager <- build_manager partial;
  ret (Some manager).

Definition unable_msg : string :=
  "Unable to instantiate connection to Jupyter Server".

(** [createJupyterSessionManager]: the body under its [catch]. *)
Definition createJupyterSessionManager (fuel : nat) (env : Env)
    (sourcePath : string) : Run (option SessionManager) * Effects St :=
  try_catch (acquire fuel env sourcePath)
    (fun err => run emit (LError unable_msg err); ret None)
    {| log := []; repo := None |}.

(** The stream yields the events [evs] one after the other from state
    [s], and is in state [s'] then. *)
Fixpoint yields (s : St) (evs : list BuildPhaseEvent) (s' : St) : Prop :=
  match evs with
  | [] => s = s'
  | data :: rest => ∃ s1, binder_next sv s = Yield data s1 ∧ yields s1 rest s'
  end.

(** The stream hands the events [evs] to the loop one after the other from
    state [s], the loop closing it after every [ready] event, and is in
    state [s'] then. *)
Fixpoint delivers (s : St) (evs : list BuildPhaseEvent) (s' : St) : Prop :=
  match evs with
  | [] => s = s'
  | data :: rest =>
      ∃ s1, binder_next sv s = Yield data s1 ∧
            delivers (if String.eqb (phase data) "ready" then binder_close sv s1 else s1)
              rest s'
  end.

(** No constructor of [@jupyterlab/services] throws on these settings. *)
Definition constructs (partial : option JupyterServerSettings) : Prop :=
  makeSettings_throws sv partial = None ∧
  newKernelManager_throws sv {| made_from := partial |} = None ∧
  newSessionManager_throws sv {| km_settings := {| made_from := partial |} |}
    {| made_from := partial |} = None.

End WithServices.

(** A phase that the [switch] has no [case] for. *)
Definition other_phase (data : BuildPhaseEvent) : Prop :=
  phase data ≠ "ready" ∧ phase data ≠ "failed".

(** An event that carries a message. *)
Definition has_message (data : BuildPhaseEvent) : Prop := is_Some (message data).

(** The lines [console.log] prints for a run of events. *)
Definition console_lines (evs : list BuildPhaseEvent) : list LogEntry :=
  LConsole <$> omap console_line evs.

(** The settings the loop holds after the events [evs]: those of the last
    [ready] event among them, or the ones it had. *)
Fixpoint settings_after (partial : option JupyterServerSettings)
    (evs : list BuildPhaseEvent) : option JupyterServerSettings :=
  match evs with
  | [] => partial
  | data :: rest =>
      settings_after
        (if String.eqb (phase data) "ready" then Some (ready_settings data) else partial)
        rest
  end.

Definition build_failed : Exn := JsError "Trying to build the repository failed".

(** The reading of the remote-build strategy under which the first [ready]
    event ends the loop and decides the handle, whatever the stream still
    delivers after [close()]; the events carry their messages. *)
Definition first_ready_decides : Prop :=
  ∀ (St : Type) (sv : Services St) (env : Env) (src spec : string)
    (s0 s1 s2 : St) (pre : list BuildPhaseEvent) (data : BuildPhaseEvent)
    (fuel : nat),
    BINDER_REPO_SPEC env = Some spec →
    binder_open sv spec = inr s0 →
    yields sv s0 pre s1 →
    Forall other_phase pre →
    Forall has_message pre →
    binder_next sv s1 = Yield data s2 →
    phase data = "ready" →
    has_message data →
    constructs sv (Some (ready_settings data)) →
    List.length pre + 2 ≤ fuel →
    createJupyterSessionManager sv fuel env src =
      (Returns (Some (manager_of (Some (ready_settings data)))),
       {| log := console_lines (pre ++ [data]);
          repo := Some (binder_close sv s2) |}).

End Acquire.

(** ** The canonical form of a warning and [getAllWarnings] on lists *)

Module Warnings.

(** A warning of the store, as [Object.entries] lists it: its own fields in
    insertion order (the fields of [BuildWarning] and [file]). *)
Definition Warning : Type := list (string * JsVal).

(** [ToString]: the string the default comparator of [Array.prototype.sort]
    compares. An array prints as its elements joined by commas, with
    [null] and [undefined] printing as nothing. Integers below 10^21 in
    magnitude print in decimal. *)
Fixpoint to_string (v : JsVal) : string :=
  match v with
  | JUndefined => "undefined"
  | JNull => "null"
  | JBool b => if b then "true" else "false"
  | JNum n => pretty n
  | JStr s => s
  | JArr xs =>
      let fix elems (xs : list JsVal) : list string :=
        match xs with
        | [] => []
        | JUndefined :: r => EmptyString :: elems r
        | JNull :: r => EmptyString :: elems r
        | x :: r => to_string x :: elems r
        end in
      String.concat "," (elems xs)
  | JObj _ => "[object Object]"
  end.

Definition hex_digit (n : nat) : ascii :=
  ascii_of_nat (if decide (n < 10) then 48 + n else 87 + n).

(** One code unit inside a JSON string ([QuoteJSONString]). *)
Definition quote_char (c : ascii) : string :=
  let n := nat_of_ascii c in
  if decide (n = 8) then "\b"
  else if decide (n = 9) then "\t"
  else if decide (n = 10) then "\n"
  else if decide (n = 12) then "\f"
  else if decide (n = 13) then "\r"
  else if decide (n = 34) then String "\" (String c EmptyString)
  else if decide (n = 92) then "\\"
  else if decide (n < 32) then
    "\u00" +:+ String (hex_digit (n / 16)) (String (hex_digit (n mod 16)) EmptyString)
  else String c EmptyString.

Fixpoint quote_body (s : string) : string :=
  match s with
  | EmptyString => EmptyString
  | String c r => quote_char c +:+ quote_body r
  end.

Definition dquote : string := String (ascii_of_nat 34) EmptyString.

Definition quote (s : string) : string := dquote +:+ quote_body s +:+ dquote.

(** [JSON.stringify] without indentation; [None] is JavaScript's
    [undefined] result. In an array [undefined] prints as [null], in an
    object a field whose value is [undefined] is left out. *)
Fixpoint stringify (v : JsVal) : option string :=
  match v with
  | JUndefined => None
  | JNull => Some "null"
  | JBool b => Some (if b then "true" else "false")
  | JNum n => Some (pretty n)
  | JStr s => Some (quote s)
  | JArr xs =>
      let fix elems (xs : list JsVal) : list string :=
        match xs with
        | [] => []
        | x :: r => default "null" (stringify x) :: elems r
        end in
      Some ("[" +:+ String.concat "," (elems xs) +:+ "]")
  | JObj fs =>
      let fix props (fs : list (string * JsVal)) : list string :=
        match fs with
        | [] => []
        | (k, x) :: r =>
            match stringify x with
            | Some j => (quote k +:+ ":" +:+ j) :: props r
            | None => props r
            end
        end in
      Some ("{" +:+ String.concat "," (props fs) +:+ "}")
  end.

(** An entry [[key, value]] of [Object.entries]. *)
Definition entry (kv : string * JsVal) : JsVal := JArr [JStr kv.1; kv.2].

(** [Array.prototype.sort()] without a comparator: a stable sort by the
    code units of [ToString]. *)
Fixpoint sort_insert (x : JsVal) (l : list JsVal) : list JsVal :=
  match l with
  | [] => [x]
  | y :: r =>
      if String.leb (to_string x) (to_string y) then x :: y :: r
      else y :: sort_insert x r
  end.

Definition sort (l : list JsVal) : list JsVal := foldr sort_insert [] l.

(** [JSON.stringify(Object.entries(warning).sort())] *)
Definition canonical (warning : Warning) : string :=
  default EmptyString (stringify (JArr (sort (entry <$> warning)))).

(** The body of the inner [forEach] of [getAllWarnings]: the warning is
    pushed unless its canonical form is among [stringWarnings]. *)
Definition visit (acc : list string * list Warning) (warning : Warning)
    : list string * list Warning :=
  let stringWarning := canonical warning in
  if includes acc.1 stringWarning then acc
  else (acc.1 ++ [stringWarning], acc.2 ++ [warning]).

(** The two nested [forEach] over the warnings of each visited session. *)
Definition collect (sessionsWarnings : list (list Warning)) : list Warning :=
  (foldl (fun acc sessionWarnings => foldl visit acc sessionWarnings)
         ([], []) sessionsWarnings).2.


End Warnings.

(** ** Sessions and promises as heap objects *)

Module Heap.

(** The aggregate registration result of the plugins; opaque here. *)
Inductive MystPlugin := mkPlugin (id : nat).

(** What a promise of the session is fulfilled with. *)
Inductive Value :=
| VManager (manager : option Acquire.SessionManager)
| VPlugins (registry : MystPlugin).

Inductive PState :=
| Pending
| Fulfilled (v : Value)
| Rejected (e : Exn).

(** The callbacks the session attaches to a promise:
    - [RDispose]: [.then((manager) => manager?.dispose?.())] of [dispose];
    - [RAssignPlugins a q]: the rest of [loadPlugins] on session [a] after
      its [await], [this.plugins = ...; return this.plugins], which settles
      the promise [q] that call returned;
    - [RReturn q]: [return this._pluginPromise] of an async call whose own
      promise is [q]. *)
Inductive Reaction :=
| RDispose
| RAssignPlugins (a q : nat)
| RReturn (q : nat).

(** Who settles a promise: the body of [createJupyterSessionManager] run
    on session [a], [loadPlugins(a)] of the plugins module, or an async
    method of the session that follows promise [p]. *)
Inductive Kind :=
| KAcquire (a : nat)
| KLoadPlugins (a : nat)
| KFollows (p : nat).

Record Promise := {
  kind : Kind;
  state : PState;
  reactions : list Reaction
}.

(** What the run has done so far, in order: the calls of the two factories,
    the promises handed to callers, the calls of [manager.dispose()] and
    the log lines. *)
Inductive Event :=
| EvAcquire (a p : nat)
| EvManagerReturned (a p : nat)
| EvLoadPlugins (a p : nat)
| EvPluginsReturned (a q : nat)
| EvDisposeManager (m : Acquire.SessionManager)
| EvLog (l : LogEntry).

Definition is_acquire (a : nat) (ev : Event) : bool :=
  match ev with EvAcquire a' _ => bool_decide (a' = a) | _ => false end.

(** How often [createJupyterSessionManager] was called on session [a]. *)
Definition acquisitions (a : nat) (evs : list Event) : nat :=
  List.length (List.filter (is_acquire a) evs).

Definition is_load (a : nat) (ev : Event) : bool :=
  match ev with EvLoadPlugins a' _ => bool_decide (a' = a) | _ => false end.

(** How often the factory [loadPlugins(this)] was called for session [a]. *)
Definition plugin_loads (a : nat) (evs : list Event) : nat :=
  List.length (List.filter (is_load a) evs).

Definition is_dispose_manager (ev : Event) : bool :=
  match ev with EvDisposeManager _ => true | _ => false end.

(** How often [manager.dispose()] ran. *)
Definition teardowns (evs : list Event) : nat :=
  List.length (List.filter is_dispose_manager evs).

Section WithStore.

(** The state of the redux store, and the state of a build stream. *)
Context {RootState St : Type}.

(** [new URL(s)] of the platform, [None] when it throws;
    [createStore(rootReducer).getState()], the selectors of the store
    module and [path.resolve]: collaborators of the session. *)
Variable parse_url : string -> option Fetch.URL.
Variable initial_state : RootState.
Variable selectCurrentSitePath : RootState -> option string.
Variable selectCurrentProjectPath : RootState -> option string.
Variable path_resolve : string -> string.
Variable selectFileWarningsByRule : RootState -> string -> list Warnings.Warning.

(** The fields of [Session] that the lifecycle uses. The logger and the
    limiter are objects, held by their identity; promises and clones are
    held by their address in the heap. *)
Record Session := {
  logger : nat;
  doiLimiter : nat;
  store : RootState;
  proxyAgent : option Fetch.Agent;
  _jupyterSessionManagerPromise : option nat;
  _pluginPromise : option nat;
  plugins : option MystPlugin;
  _clones : list nat
}.

(** The heap, the microtask queue, the calls of [clone] waiting in their
    [await cloneSession.reload()] (origin and clone), the events so far,
    the number of logger and limiter objects made, and
    [process.env.HTTPS_PROXY]. *)
Record World := {
  sessions : list Session;
  promises : list Promise;
  jobs : list (Reaction * PState);
  reloading : list (nat * nat);
  events : list Event;
  objects : nat;
  HTTPS_PROXY : option string
}.

Definition empty_world (proxy : option string) : World :=
  {| sessions := []; promises := []; jobs := []; reloading := [];
     events := []; objects := 0; HTTPS_PROXY := proxy |}.

Definition with_sessions (f : list Session -> list Session) (w : World) : World :=
  {| sessions := f (sessions w); promises := promises w; jobs := jobs w;
     reloading := reloading w; events := events w; objects := objects w;
     HTTPS_PROXY := HTTPS_PROXY w |}.

Definition with_promises (f : list Promise -> list Promise) (w : World) : World :=
  {| sessions := sessions w; promises := f (promises w); jobs := jobs w;
     reloading := reloading w; events := events w; objects := objects w;
     HTTPS_PROXY := HTTPS_PROXY w |}.

Definition with_jobs (f : list (Reaction * PState) -> list (Reaction * PState))
    (w : World) : World :=
  {| sessions := sessions w; promises := promises w; jobs := f (jobs w);
     reloading := reloading w; events := events w; objects := objects w;
     HTTPS_PROXY := HTTPS_PROXY w |}.

Definition with_reloading (f : list (nat * nat) -> list (nat * nat)) (w : World) : World :=
  {| sessions := sessions w; promises := promises w; jobs := jobs w;
     reloading := f (reloading w); events := events w; objects := objects w;
     HTTPS_PROXY := HTTPS_PROXY w |}.

Definition emit (evs : list Event) (w : World) : World :=
  {| sessions := sessions w; promises := promises w; jobs := jobs w;
     reloading := reloading w; events := events w ++ evs; objects := objects w;
     HTTPS_PROXY := HTTPS_PROXY w |}.

Definition with_objects (n : nat) (w : World) : World :=
  {| sessions := sessions w; promises := promises w; jobs := jobs w;
     reloading := reloading w; events := events w; objects := n;
     HTTPS_PROXY := HTTPS_PROXY w |}.

Definition set_manager_promise (v : option nat) (s : Session) : Session :=
  {| logger := logger s; doiLimiter := doiLimiter s; store := store s;
     proxyAgent := proxyAgent s; _jupyterSessionManagerPromise := v;
     _pluginPromise := _pluginPromise s; plugins := plugins s;
     _clones := _clones s |}.

Definition set_plugin_promise (v : option nat) (s : Session) : Session :=
  {| logger := logger s; doiLimiter := doiLimiter s; store := store s;
     proxyAgent := proxyAgent s;
     _jupyterSessionManagerPromise := _jupyterSessionManagerPromise s;
     _pluginPromise := v; plugins := plugins s; _clones := _clones s |}.

Definition set_plugins (v : option MystPlugin) (s : Session) : Session :=
  {| logger := logger s; doiLimiter := doiLimiter s; store := store s;
     proxyAgent := proxyAgent s;
     _jupyterSessionManagerPromise := _jupyterSessionManagerPromise s;
     _pluginPromise := _pluginPromise s; plugins := v; _clones := _clones s |}.

Definition set_store (v : RootState) (s : Session) : Session :=
  {| logger := logger s; doiLimiter := doiLimiter s; store := v;
     proxyAgent := proxyAgent s;
     _jupyterSessionManagerPromise := _jupyterSessionManagerPromise s;
     _pluginPromise := _pluginPromise s; plugins := plugins s;
     _clones := _clones s |}.

Definition push_clone (c : nat) (s : Session) : Session :=
  {| logger := logger s; doiLimiter := doiLimiter s; store := store s;
     proxyAgent := proxyAgent s;
     _jupyterSessionManagerPromise := _jupyterSessionManagerPromise s;
     _pluginPromise := _pluginPromise s; plugins := plugins s;
     _clones := _clones s ++ [c] |}.

(** A session that callers hold: one that exists and is not a clone still
    local to a [clone()] waiting for its reload. *)
Definition ready (w : World) (a : nat) : option Session :=
  if bool_decide (a ∈ (reloading w).*2) then None else sessions w !! a.

(** A new pending promise; its address is the next free one. *)
Definition alloc (k : Kind) (w : World) : World :=
  with_promises (fun ps => ps ++ [{| kind := k; state := Pending; reactions := [] |}]) w.

(** A pending promise settles: its reactions become jobs, in order. A
    settled promise stays as it is. *)
Definition settle (p : nat) (st : PState) (w : World) : World :=
  match promises w !! p with
  | Some pr =>
      match state pr with
      | Pending =>
          with_jobs (fun js => js ++ ((fun r => (r, st)) <$> reactions pr))
            (with_promises
               (fun ps => <[p := {| kind := kind pr; state := st; reactions := [] |}]> ps) w)
      | _ => w
      end
  | None => w
  end.

(** [p.then(r)]: kept with a pending promise, queued for a settled one. *)
Definition react (p : nat) (r : Reaction) (w : World) : World :=
  match promises w !! p with
  | Some pr =>
      match state pr with
      | Pending =>
          with_promises
            (fun ps => <[p := {| kind := kind pr; state := Pending;
                                 reactions := reactions pr ++ [r] |}]> ps) w
      | st => with_jobs (fun js => js ++ [(r, st)]) w
      end
  | None => w
  end.

(** Lines 97-98, [const proxyUrl = process.env.HTTPS_PROXY; if (proxyUrl)
    this.proxyAgent = new HttpsProxyAgent(proxyUrl)]: no agent when the
    variable is unset or empty. The constructor of the agent parses the
    address and throws when that fails; the agent keeps the parsed
    address, which prints normalised. *)
Definition proxy_agent_of (proxy : option string) : Exn + option Fetch.Agent :=
  match proxy with
  | Some proxyUrl =>
      if String.eqb proxyUrl EmptyString then inr None
      else
        match parse_url proxyUrl with
        | Some u => inr (Some (Fetch.HttpsProxyAgent (Fetch.href u)))
        | None => inl (JsError "Invalid URL")
        end
  | None => inr None
  end.

(** [new Session({ logger, doiLimiter })]: a logger or limiter that is not
    given is made new; then the proxy agent is made, and when that throws
    there is no session. Returns the address of the session, or what was
    thrown. *)
Definition construct (opt_logger opt_doiLimiter : option nat) (w : World)
    : (Exn + nat) * World :=
  let lg := default (objects w) opt_logger in
  let n1 := if opt_logger is Some _ then objects w else S (objects w) in
  let lm := default n1 opt_doiLimiter in
  let n2 := if opt_doiLimiter is Some _ then n1 else S n1 in
  match proxy_agent_of (HTTPS_PROXY w) with
  | inl e => (inl e, with_objects n2 w)
  | inr agent =>
      (inr (List.length (sessions w)),
       with_objects n2
         (with_sessions
            (fun ss => ss ++ [{| logger := lg; doiLimiter := lm; store := initial_state;
                                 proxyAgent := agent;
                                 _jupyterSessionManagerPromise := None;
                                 _pluginPromise := None; plugins := None;
                                 _clones := [] |}]) w))
  end.

(** [sourcePath()]: [path.resolve(sitePath ?? projectPath ?? '.')] *)
Definition sourcePath (s : Session) : string :=
  path_resolve
    (match selectCurrentSitePath (store s) with
     | Some sitePath => sitePath
     | None => default "." (selectCurrentProjectPath (store s))
     end).

(** The call [this.createJupyterSessionManager()]: the async body starts
    and its promise comes back at once; the promise settles later, by
    [SettleAcquire]. *)
Definition createJupyterSessionManager (a : nat) (w : World) : nat * World :=
  let p := List.length (promises w) in
  (p, emit [EvAcquire a p] (alloc (KAcquire a) w)).

(** [jupyterSessionManager()], lines 210-215. *)
Definition jupyterSessionManager (a : nat) (w : World) : option nat * World :=
  match ready w a with
  | Some this =>
      match _jupyterSessionManagerPromise this with
      | None =>
          let '(p, w1) := createJupyterSessionManager a w in
          (Some p, with_sessions (alter (set_manager_promise (Some p)) a) w1)
      | Some p => (Some p, w)
      end
  | None => (None, w)
  end.

(** [loadPlugins()], lines 151-157: an async method, so every call returns
    a promise [q] of its own. With the slot set, [q] follows the promise of
    the slot. Otherwise the factory [loadPlugins(this)] of the plugins
    module is called, its promise [p] is stored, and [q] waits for the
    rest of the body. *)
Definition loadPlugins (a : nat) (w : World) : option nat * World :=
  match ready w a with
  | Some this =>
      match _pluginPromise this with
      | Some p =>
          let q := List.length (promises w) in
          (Some q, react p (RReturn q) (alloc (KFollows p) w))
      | None =>
          let p := List.length (promises w) in
          let w1 := emit [EvLoadPlugins a p] (alloc (KLoadPlugins a) w) in
          let w2 := with_sessions (alter (set_plugin_promise (Some p)) a) w1 in
          let q := List.length (promises w2) in
          (Some q, react p (RAssignPlugins a q) (alloc (KFollows p) w2))
      end
  | None => (None, w)
  end.

(** [clone()] up to its [await]: line 186 and the call of line 187. When
    the constructor throws, the promise of [clone()] is rejected and
    nothing else happens. *)
Definition clone_begin (a : nat) (w : World) : World :=
  match ready w a with
  | Some this =>
      match construct (Some (logger this)) (Some (doiLimiter this)) w with
      | (inr c, w1) => with_reloading (fun rs => rs ++ [(a, c)]) w1
      | (inl _, w1) => w1
      end
  | None => w
  end.

(** [clone()] after the reload of the clone [c] has left its store in
    state [st]: lines 189-191. The slot copied is the origin's at this
    moment. *)
Definition clone_end (c : nat) (st : RootState) (w : World) : World :=
  match list_find (fun e => e.2 = c) (reloading w) with
  | Some (i, (a, _)) =>
      match sessions w !! a with
      | Some this =>
          with_reloading (delete i)
            (with_sessions
               (fun ss =>
                  alter (push_clone c) a
                    (alter (fun cloneSession =>
                              set_manager_promise (_jupyterSessionManagerPromise this)
                                (set_store st cloneSession)) c ss)) w)
      | None => w
      end
  | None => w
  end.

(** [clone()] when the reload rejects: the clone is dropped. *)
Definition clone_abort (c : nat) (w : World) : World :=
  match list_find (fun e => e.2 = c) (reloading w) with
  | Some (i, _) => with_reloading (delete i) w
  | None => w
  end.

(** [dispose()], lines 273-278, with the exception it raises to its
    caller, if any. *)
Definition dispose (a : nat) (w : World) : option Exn * World :=
  match ready w a with
  | Some this =>
      match _jupyterSessionManagerPromise this with
      | Some p =>
          (None, with_sessions (alter (set_manager_promise None) a) (react p RDispose w))
      | None => (None, w)
      end
  | None => (None, w)
  end.

(** [[this, ...this._clones]] as sessions. *)
Definition visited (w : World) (a : nat) : list Session :=
  match sessions w !! a with
  | Some this => this :: omap (fun c => sessions w !! c) (_clones this)
  | None => []
  end.

(** [getAllWarnings(ruleId)], lines 194-208. *)
Definition getAllWarnings (w : World) (a : nat) (ruleId : string)
    : list Warnings.Warning :=
  Warnings.collect
    ((fun session => selectFileWarningsByRule (store session) ruleId) <$> visited w a).

(** A job of the microtask queue runs. *)
Definition run_job (j : Reaction * PState) (w : World) : World :=
  match j with
  | (RDispose, Fulfilled (VManager (Some manager))) => emit [EvDisposeManager manager] w
  | (RDispose, _) => w
  | (RAssignPlugins a q, Fulfilled (VPlugins registry)) =>
      settle q (Fulfilled (VPlugins registry))
        (with_sessions (alter (set_plugins (Some registry)) a) w)
  | (RAssignPlugins a q, st) => settle q st w
  | (RReturn q, st) => settle q st w
  end.

(** What happens next: a call of a method of a session by build code, a
    write of build code to a store, or a step of the environment (a reload
    ends, an acquisition ends given the services it met, the plugins
    module settles its promise, the next job runs). *)
Inductive Op :=
| New (opt_logger opt_doiLimiter : option nat)
| Dispatch (a : nat) (f : RootState -> RootState)
| CallJupyterSessionManager (a : nat)
| CallLoadPlugins (a : nat)
| CallClone (a : nat)
| ReloadDone (c : nat) (st : RootState)
| ReloadFails (c : nat)
| CallDispose (a : nat)
| SettleAcquire (p : nat) (sv : Acquire.Services St) (env : Acquire.Env) (fuel : nat)
| SettlePlugins (p : nat) (r : Exn + MystPlugin)
| Tick.

(** The promise [p] of an acquisition started on session [a] settles with
    what [createJupyterSessionManager] comes to. *)
Definition settle_acquire (p : nat) (sv : Acquire.Services St) (env : Acquire.Env)
    (fuel : nat) (w : World) : World :=
  match promises w !! p with
  | Some {| kind := KAcquire a; state := Pending |} =>
      match sessions w !! a with
      | Some this =>
          match Acquire.createJupyterSessionManager sv fuel env (sourcePath this) with
          | (Acquire.Returns manager, eff) =>
              emit (EvLog <$> Acquire.log eff) (settle p (Fulfilled (VManager manager)) w)
          | (Acquire.Throws e, eff) =>
              emit (EvLog <$> Acquire.log eff) (settle p (Rejected e) w)
          | (Acquire.Unfinished, _) => w
          end
      | None => w
      end
  | _ => w
  end.

Definition settle_plugins (p : nat) (r : Exn + MystPlugin) (w : World) : World :=
  match promises w !! p with
  | Some {| kind := KLoadPlugins _; state := Pending |} =>
      settle p (match r with inl e => Rejected e | inr v => Fulfilled (VPlugins v) end) w
  | _ => w
  end.

Definition step (w : World) (op : Op) : World :=
  match op with
  | New lg lm => (construct lg lm w).2
  | Dispatch a f =>
      match ready w a with
      | Some this => with_sessions (alter (fun s => set_store (f (store s)) s) a) w
      | None => w
      end
  | CallJupyterSessionManager a =>
      match jupyterSessionManager a w with
      | (Some p, w') => emit [EvManagerReturned a p] w'
      | (None, w') => w'
      end
  | CallLoadPlugins a =>
      match loadPlugins a w with
      | (Some q, w') => emit [EvPluginsReturned a q] w'
      | (None, w') => w'
      end
  | CallClone a => clone_begin a w
  | ReloadDone c st => clone_end c st w
  | ReloadFails c => clone_abort c w
  | CallDispose a => (dispose a w).2
  | SettleAcquire p sv env fuel => settle_acquire p sv env fuel w
  | SettlePlugins p r => settle_plugins p r w
  | Tick =>
      match jobs w with
      | j :: rest => run_job j (with_jobs (fun _ => rest) w)
      | [] => w
      end
  end.

Definition run (ops : list Op) (w : World) : World := foldl step w ops.

(** *** Counting, and the worlds that the operations produce *)

Definition is_dispose_call (a : nat) (op : Op) : bool :=
  match op with CallDispose a' => bool_decide (a' = a) | _ => false end.

(** How often [dispose()] is called on session [a] in a run. *)
Definition disposals (a : nat) (ops : list Op) : nat :=
  List.length (List.filter (is_dispose_call a) ops).

Definition is_any_dispose_call (op : Op) : bool :=
  match op with CallDispose _ => true | _ => false end.

Definition is_rdispose (r : Reaction) : bool :=
  match r with RDispose => true | _ => false end.

(** The step at which the reload of clone [c] ends. *)
Definition is_reload_end (c : nat) (op : Op) : bool :=
  match op with
  | ReloadDone c' _ => bool_decide (c' = c)
  | ReloadFails c' => bool_decide (c' = c)
  | _ => false
  end.

(** How many teardown callbacks a list of reactions holds. *)
Definition count_rdispose (rs : list Reaction) : nat :=
  List.length (List.filter is_rdispose rs).

(** The teardown callbacks of [dispose] that wait: those attached to a
    pending promise and those in the job queue. *)
Definition scheduled (w : World) : nat :=
  count_rdispose (promises w ≫= reactions) + count_rdispose (jobs w).*1.

(** The promise a reaction settles. *)
Definition target (r : Reaction) : option nat :=
  match r with
  | RDispose => None
  | RAssignPlugins _ q => Some q
  | RReturn q => Some q
  end.

(** The promise [q] of a call of [loadPlugins] follows the promise [p] of
    the factory: either it has the state of [p], or it is pending and its
    reaction waits on [p] or in the job queue with the state of [p]. *)
Definition follows (w : World) (q p : nat) : Prop :=
  ∃ pq pp a,
    promises w !! q = Some pq ∧ promises w !! p = Some pp ∧
    kind pp = KLoadPlugins a ∧ reactions pq = [] ∧
    match state pq with
    | Pending =>
        (state pp = Pending ∧ ∃ r, r ∈ reactions pp ∧ target r = Some q) ∨
        (state pp ≠ Pending ∧ ∃ r, (r, state pp) ∈ jobs w ∧ target r = Some q)
    | st => st = state pp
    end.

(** What holds of the promises and jobs of every world of a run. *)
Record wf_promises (w : World) : Prop := {
  wf_follows : ∀ q pq p,
    promises w !! q = Some pq → kind pq = KFollows p → follows w q p;
  wf_jobs : ∀ r st q,
    (r, st) ∈ jobs w → target r = Some q →
    st ≠ Pending ∧
    ∃ pq p pp, promises w !! q = Some pq ∧ kind pq = KFollows p ∧
               promises w !! p = Some pp ∧ state pp = st;
  wf_reactions : ∀ p pp r q,
    promises w !! p = Some pp → r ∈ reactions pp → target r = Some q →
    state pp = Pending ∧ ∃ pq, promises w !! q = Some pq ∧ kind pq = KFollows p;
  wf_acquired : ∀ p pp a e,
    promises w !! p = Some pp → kind pp = KAcquire a → state pp ≠ Rejected e
}.

(** What holds of the sessions, the clones under way and the events. *)
Record wf_sessions (w : World) : Prop := {
  wf_plugin_slot : ∀ a s p,
    sessions w !! a = Some s → _pluginPromise s = Some p →
    ∃ pp, promises w !! p = Some pp ∧ kind pp = KLoadPlugins a;
  wf_manager_slot : ∀ a s p,
    sessions w !! a = Some s → _jupyterSessionManagerPromise s = Some p →
    ∃ pp a', promises w !! p = Some pp ∧ kind pp = KAcquire a';
  wf_plugins_returned : ∀ a q,
    EvPluginsReturned a q ∈ events w →
    ∃ s p pq, sessions w !! a = Some s ∧ _pluginPromise s = Some p ∧
              promises w !! q = Some pq ∧ kind pq = KFollows p;
  wf_manager_returned : ∀ a p,
    EvManagerReturned a p ∈ events w →
    ∃ pp a', promises w !! p = Some pp ∧ kind pp = KAcquire a';
  wf_reloading_once : NoDup (reloading w).*2;
  wf_reloading : ∀ o c,
    (o, c) ∈ reloading w →
    c < List.length (sessions w) ∧ o < List.length (sessions w) ∧
    o ∉ (reloading w).*2
}.

Definition wf_heap (w : World) : Prop := wf_promises w ∧ wf_sessions w.

(** Every session has the proxy agent that the constructor makes of
    [HTTPS_PROXY]; where there is a session, the constructor does not
    throw. *)
Definition wf_env (w : World) : Prop :=
  ∀ a s, sessions w !! a = Some s →
         proxy_agent_of (HTTPS_PROXY w) = inr (proxyAgent s).

Definition wf (w : World) : Prop := wf_heap w ∧ wf_env w.

(** A state that holds no manager but one built by acquisition. *)
Definition built (st : PState) : Prop :=
  ∀ manager, st = Fulfilled (VManager (Some manager)) → Acquire.lifetime_tied manager.

(** The managers of a world, those that promises are fulfilled with, those
    that jobs wait to hand on and those torn down, are managers built by
    acquisition. *)
Record wf_managers (w : World) : Prop := {
  wf_fulfilled : ∀ p pp, promises w !! p = Some pp → built (state pp);
  wf_queued : ∀ r st, (r, st) ∈ jobs w → built st;
  wf_torn_down : ∀ manager,
    EvDisposeManager manager ∈ events w → Acquire.lifetime_tied manager
}.

(** The worlds of the runs that start with nothing. *)
Definition reachable (w : World) : Prop :=
  ∃ proxy ops, w = run ops (empty_world proxy).

(** The state of promise [p]. *)
Definition pstate (w : World) (p : nat) : option PState :=
  state <$> promises w !! p.

(** The promise of the slot of session [a], for a session callers hold. *)
Definition manager_slot (w : World) (a : nat) : option nat :=
  ready w a ≫= _jupyterSessionManagerPromise.

Definition plugin_slot (w : World) (a : nat) : option nat :=
  ready w a ≫= _pluginPromise.


(** 1 when a [jupyterSessionManager()] on session [a] would start an
    acquisition: the slot is unset, or nobody holds the session yet. *)
Definition unset (w : World) (a : nat) : nat :=
  if manager_slot w a is Some _ then 0 else 1.

Definition plugins_unset (w : World) (a : nat) : nat :=
  if plugin_slot w a is Some _ then 0 else 1.

(** Every promise of [w] is a promise of [w'], of the same kind. *)
Definition kinds_kept (w w' : World) : Prop :=
  ∀ i x, promises w !! i = Some x →
         ∃ x', promises w' !! i = Some x' ∧ kind x' = kind x.

End WithStore.

End Heap.

(** ** Concrete collaborators for the examples *)

Module Samples.

(** The platform's [URL] parser on the addresses of the examples. *)
Definition parse_url (s : string) : option Fetch.URL :=
  if String.eqb s "http://localhost:3000/api" then
    Some {| Fetch.href := s; Fetch.hostname := "localhost" |}
  else if String.eqb s "https://api.mystmd.org/" then
    Some {| Fetch.href := s; Fetch.hostname := "api.mystmd.org" |}
  else None.

Definition proxy : Fetch.Agent := Fetch.HttpsProxyAgent "http://proxy.example:8080/".

(** Options of a caller that bring an agent of their own. *)
Definition caller_init : Fetch.RequestInit :=
  {[ "method" := Fetch.IVal (JStr "GET");
     "agent" := Fetch.IAgent (Fetch.CallerAgent 7) ]}.

(** A build stream that delivers the events of a list. What it still
    delivers once closed is [after_close] of what is left. There is no
    server running, and none can be spawned. *)
Definition list_stream (events : list Acquire.BuildPhaseEvent)
    (after_close : list Acquire.BuildPhaseEvent → list Acquire.BuildPhaseEvent)
    : Acquire.Services (list Acquire.BuildPhaseEvent) :=
  {| Acquire.binder_open := fun _ => inr events;
     Acquire.binder_next := fun s =>
       match s with
       | [] => Acquire.Finished
       | data :: rest => Acquire.Yield data rest
       end;
     Acquire.binder_close := after_close;
     Acquire.findExistingJupyterServer := inr None;
     Acquire.launchJupyterServer := fun _ => inl (JsError "spawn jupyter ENOENT");
     Acquire.makeSettings_throws := fun _ => None;
     Acquire.newKernelManager_throws := fun _ => None;
     Acquire.newSessionManager_throws := fun _ _ => None |}.

Definition binder_env : Acquire.Env :=
  {| Acquire.BINDER_REPO_SPEC := Some "gh/executablebooks/thebe-binder-base/HEAD";
     Acquire.JUPYTER_BASE_URL := None; Acquire.JUPYTER_TOKEN := None |}.

Definition local_env : Acquire.Env :=
  {| Acquire.BINDER_REPO_SPEC := None;
     Acquire.JUPYTER_BASE_URL := None; Acquire.JUPYTER_TOKEN := None |}.

Definition waiting : Acquire.BuildPhaseEvent :=
  {| Acquire.phase := "waiting"; Acquire.message := Some "Waiting for build to start... ";
     Acquire.url := None; Acquire.ev_token := None |}.

Definition ready1 : Acquire.BuildPhaseEvent :=
  {| Acquire.phase := "ready"; Acquire.message := Some "server running at one ";
     Acquire.url := Some "https://hub.example/user/one/";
     Acquire.ev_token := Some "token-one" |}.

Definition ready2 : Acquire.BuildPhaseEvent :=
  {| Acquire.phase := "ready"; Acquire.message := Some "server running at two ";
     Acquire.url := Some "https://hub.example/user/two/";
     Acquire.ev_token := Some "token-two" |}.

Definition failed : Acquire.BuildPhaseEvent :=
  {| Acquire.phase := "failed"; Acquire.message := Some "Build failed ";
     Acquire.url := None; Acquire.ev_token := None |}.

(** The store of the examples: the warnings of the session. One rule is
    selected by the [ruleId] field; no site or project path is set. *)
Definition State : Type := list Warnings.Warning.

Definition rule_is (ruleId : string) (warning : Warnings.Warning) : bool :=
  match List.find (λ kv, String.eqb kv.1 "ruleId") warning with
  | Some (_, JStr r) => String.eqb r ruleId
  | _ => false
  end.

Definition select (st : State) (ruleId : string) : list Warnings.Warning :=
  List.filter (rule_is ruleId) st.

Definition no_path (st : State) : option string := None.

Definition resolve (s : string) : string := s.

Abbreviation Op := (@Heap.Op State (list Acquire.BuildPhaseEvent)).

Definition step : Heap.World → Op → Heap.World :=
  Heap.step parse_url [] no_path no_path resolve.

Definition run : list Op → Heap.World → Heap.World :=
  Heap.run parse_url [] no_path no_path resolve.

Definition empty : @Heap.World State := Heap.empty_world None.

(** An acquisition that meets a build stream with a [ready] event. *)
Definition acquired (p : nat) : Op :=
  Heap.SettleAcquire p (list_stream [waiting; ready1] (λ _, [])) binder_env 5.

Definition missing_doi : Warnings.Warning :=
  [("message", JStr "DOI not found"); ("kind", JStr "warn");
   ("ruleId", JStr "doi-link-valid"); ("file", JStr "index.md")].

(** The same warning with its fields in another order. *)
Definition missing_doi_reordered : Warnings.Warning :=
  [("file", JStr "index.md"); ("ruleId", JStr "doi-link-valid");
   ("kind", JStr "warn"); ("message", JStr "DOI not found")].

Definition bad_doi : Warnings.Warning :=
  [("message", JStr "DOI is malformed"); ("kind", JStr "warn");
   ("ruleId", JStr "doi-link-valid"); ("file", JStr "about.md");
   ("position", JObj [("line", JNum 3); ("column", JNum 1)])].

Definition other_rule : Warnings.Warning :=
  [("message", JStr "Link not found"); ("kind", JStr "error");
   ("ruleId", JStr "link-resolves"); ("file", JStr "index.md")].

(** An origin and two clones: all three report [missing_doi], the second
    clone [bad_doi] as well. *)
Definition hierarchy : Heap.World :=
  run [Heap.New None None;
       Heap.Dispatch 0 (λ _, [missing_doi; other_rule]);
       Heap.CallClone 0;
       Heap.ReloadDone 1 [other_rule; missing_doi_reordered];
       Heap.CallClone 0;
       Heap.ReloadDone 2 [missing_doi; bad_doi]] empty.

End Samples.

(** ** Logs *)

Module Logs.

(** No line of a log is an error line. *)
Definition no_error (lg : list LogEntry) : Prop := ∀ msg e, LError msg e ∉ lg.

End Logs.

(** ** Sorted arrays *)

Module Sorting.
Import Warnings.

(** An array is in the order of [Array.prototype.sort()]: every element
    comes before the later ones by the code units of its string. *)
Fixpoint ordered (l : list JsVal) : Prop :=
  match l with
  | [] => True
  | x :: r => Forall (λ y, String.leb (to_string x) (to_string y) = true) r ∧ ordered r
  end.

End Sorting.

(** ** The upgrade notice *)

Module Upgrade.

(** [const NPM_COMMAND = 'npm i -g mystmd@latest'] and
    [const PIP_COMMAND = 'pip install -U mystmd'] *)
Definition NPM_COMMAND : string := "npm i -g mystmd@latest".
Definition PIP_COMMAND : string := "pip install -U mystmd".

(** The styles of [chalk] that the notice uses, and [boxen] with the
    options of the notice: collaborators of the session. *)
Record Style := {
  dim : string → string;
  green_bold : string → string;
  cyanBright_bold : string → string;
  yellowBright : string → string;
  boxen : string → string
}.

(** The line feed of a template literal. *)
Definition nl : string := String (ascii_of_nat 10) EmptyString.

(** [logUpdateAvailable({ current, latest, upgradeCommand, twitter })],
    lines 47-74. *)
Definition logUpdateAvailable (sty : Style)
    (current latest upgradeCommand twitter : string) : string :=
  boxen sty
    ("Update available! " +:+ dim sty ("v" +:+ current) +:+ " ≫ " +:+
     green_bold sty ("v" +:+ latest) +:+ nl +:+ nl +:+
     "Run `" +:+ cyanBright_bold sty upgradeCommand +:+ "` to update." +:+ nl +:+ nl +:+
     "Follow " +:+ yellowBright sty ("@" +:+ twitter) +:+ " for updates!" +:+ nl +:+
     "https://twitter.com/" +:+ twitter).

(** The fields of the session that the notice uses, whether the promise
    of [latestVersion('mystmd')] has settled, and the lines logged. *)
Record Notice := {
  _shownUpgrade : bool;
  _latestVersion : option string;
  latest_settled : bool;
  log : list LogEntry
}.

(** What happens to a session as to its notice: the promise of
    [latestVersion('mystmd')] that the constructor started resolves or is
    rejected, or [showUpgradeNotice()] is called. *)
Inductive Event :=
| LatestResolves (latest : string)
| LatestRejects
| CallShowUpgradeNotice.

Section WithVersion.

(** [chalk] and [boxen], the [version] of the running program and
    [process.env.MYST_LANG]. *)
Variable sty : Style.
Variable version : string.
Variable MYST_LANG : option string.

(** The fields as the constructor leaves them. *)
Definition constructed : Notice :=
  {| _shownUpgrade := false; _latestVersion := None; latest_settled := false;
     log := [] |}.

(** [process.env.MYST_LANG === 'PYTHON' ? PIP_COMMAND : NPM_COMMAND] *)
Definition upgradeCommand : string :=
  match MYST_LANG with
  | Some lang => if String.eqb lang "PYTHON" then PIP_COMMAND else NPM_COMMAND
  | None => NPM_COMMAND
  end.

(** [showUpgradeNotice()], lines 108-119. *)
Definition showUpgradeNotice (n : Notice) : Notice :=
  let unknown :=
    match _latestVersion n with
    | Some latest => String.eqb latest EmptyString
    | None => true
    end in
  if _shownUpgrade n || unknown
     || (if _latestVersion n is Some latest then String.eqb version latest else false)
  then n
  else
    {| _shownUpgrade := true; _latestVersion := _latestVersion n;
       latest_settled := latest_settled n;
       log := log n ++
         [LInfo (logUpdateAvailable sty version (default EmptyString (_latestVersion n))
                   upgradeCommand "MystMarkdown")] |}.

(** The handlers of lines 101-105: [.then((latest) => { this._latestVersion
    = latest })] and [.catch(() => null)]; a promise settles once. *)
Definition step (n : Notice) (ev : Event) : Notice :=
  match ev with
  | LatestResolves latest =>
      if latest_settled n then n
      else {| _shownUpgrade := _shownUpgrade n; _latestVersion := Some latest;
              latest_settled := true; log := log n |}
  | LatestRejects =>
      if latest_settled n then n
      else {| _shownUpgrade := _shownUpgrade n; _latestVersion := _latestVersion n;
              latest_settled := true; log := log n |}
  | CallShowUpgradeNotice => showUpgradeNotice n
  end.

Definition run (evs : list Event) (n : Notice) : Notice := foldl step n evs.

(** The notice about the version [latest]. *)
Definition notice (latest : string) : LogEntry :=
  LInfo (logUpdateAvailable sty version latest upgradeCommand "MystMarkdown").

(** What holds of the notice in every state of a run: nothing is shown
    and logged, or the notice about a newer version is. *)
Definition shown_once (n : Notice) : Prop :=
  (_shownUpgrade n = false ∧ log n = []) ∨
  (_shownUpgrade n = true ∧
   ∃ latest, _latestVersion n = Some latest ∧ latest ≠ EmptyString ∧
             latest ≠ version ∧ log n = [notice latest]).

End WithVersion.

End Upgrade.

(** ** Clones under way, and who waits for the plugins *)

Module Lineage.
Import Heap.

Section WithStore.

Context {RootState : Type}.
Variable initial_state : RootState.

Local Abbreviation World := (@Heap.World RootState).
Local Abbreviation Session := (@Heap.Session RootState).

(** A session as the constructor leaves it, but for its logger, limiter
    and proxy agent. *)
Definition fresh (s : Session) : Prop :=
  store s = initial_state ∧ _jupyterSessionManagerPromise s = None ∧
  _pluginPromise s = None ∧ plugins s = None ∧ _clones s = [].

(** The rest of a call of [loadPlugins] on session [a], whose promise is
    [q], waits: on the promise of the factory, or in the job queue. *)
Definition assigning (w : World) (a q : nat) : Prop :=
  (∃ p pp, promises w !! p = Some pp ∧ RAssignPlugins a q ∈ reactions pp) ∨
  (∃ st, (RAssignPlugins a q, st) ∈ jobs w).

(** What holds of the clones of every world of a run: the clones a session
    has recorded exist and have finished their reload, a clone still in
    its reload is as the constructor left it, and the calls of
    [loadPlugins] that wait were made on sessions that callers hold. *)
Record wf_lineage (w : World) : Prop := {
  wf_clones_recorded : ∀ a s c,
    sessions w !! a = Some s → c ∈ _clones s →
    c < List.length (sessions w) ∧ c ∉ (reloading w).*2;
  wf_reloading_fresh : ∀ o c,
    (o, c) ∈ reloading w → ∃ cs, sessions w !! c = Some cs ∧ fresh cs;
  wf_assigning_held : ∀ a q,
    assigning w a q → a < List.length (sessions w) ∧ a ∉ (reloading w).*2
}.

(** What holds of the plugins of every world of a run: a call of
    [loadPlugins] that waits has handed out its promise, and the plugins
    of a session are what the promise of its slot was fulfilled with. *)
Record wf_plugins (w : World) : Prop := {
  wf_assigning_returned : ∀ a q,
    assigning w a q → EvPluginsReturned a q ∈ events w;
  wf_plugins_loaded : ∀ a s registry,
    sessions w !! a = Some s → plugins s = Some registry →
    ∃ p, _pluginPromise s = Some p ∧
         pstate w p = Some (Fulfilled (VPlugins registry))
}.

(** The warnings of rule [ruleId] in the stores of the sessions
    [getAllWarnings] visits, one list for each session. *)
Definition visited_warnings (selectFileWarningsByRule : RootState → string → list Warnings.Warning)
    (w : World) (a : nat) (ruleId : string) : list (list Warnings.Warning) :=
  (fun session => selectFileWarningsByRule (store session) ruleId) <$> visited w a.

(** How often [jupyterSessionManager()] and [loadPlugins()] are called on
    session [a] in a run, and how often [dispose()] is called at all. *)
Definition is_manager_call {St : Type} (a : nat) (op : @Heap.Op RootState St) : bool :=
  match op with CallJupyterSessionManager a' => bool_decide (a' = a) | _ => false end.

Definition manager_calls {St : Type} (a : nat) (ops : list (@Heap.Op RootState St)) : nat :=
  List.length (List.filter (is_manager_call a) ops).

Definition is_load_call {St : Type} (a : nat) (op : @Heap.Op RootState St) : bool :=
  match op with CallLoadPlugins a' => bool_decide (a' = a) | _ => false end.

Definition load_calls {St : Type} (a : nat) (ops : list (@Heap.Op RootState St)) : nat :=
  List.length (List.filter (is_load_call a) ops).

Definition dispose_calls {St : Type} (ops : list (@Heap.Op RootState St)) : nat :=
  List.length (List.filter is_any_dispose_call ops).

End WithStore.

End Lineage.

(** ** More collaborators for the examples *)

Module Fixtures.

(** A server that is found running, and one that a launch gives, with the
    means to stop it. *)
Definition running : Acquire.JupyterServerSettings :=
  {| Acquire.baseUrl := Some "http://localhost:8888/"; Acquire.token := Some "abc";
     Acquire.appUrl := Some "http://localhost:8888/?token=abc";
     Acquire.dispose := None |}.

Definition spawned : Acquire.JupyterServerSettings :=
  {| Acquire.baseUrl := Some "http://localhost:9090/"; Acquire.token := Some "def";
     Acquire.appUrl := Some "http://localhost:9090/?token=def";
     Acquire.dispose := Some 1 |}.

(** Services without a build stream; discovery finds [existing], and a
    launch gives [spawned]. *)
Definition local_services (existing : option Acquire.JupyterServerSettings)
    : Acquire.Services unit :=
  {| Acquire.binder_open := fun _ => inl (JsError "no stream");
     Acquire.binder_next := fun _ => Acquire.Finished;
     Acquire.binder_close := fun s => s;
     Acquire.findExistingJupyterServer := inr existing;
     Acquire.launchJupyterServer := fun _ => inr spawned;
     Acquire.makeSettings_throws := fun _ => None;
     Acquire.newKernelManager_throws := fun _ => None;
     Acquire.newSessionManager_throws := fun _ _ => None |}.

Definition server_env : Acquire.Env :=
  {| Acquire.BINDER_REPO_SPEC := None;
     Acquire.JUPYTER_BASE_URL := Some "http://localhost:8888/";
     Acquire.JUPYTER_TOKEN := None |}.

(** Both the repository to build and the address of a server. *)
Definition both_env : Acquire.Env :=
  {| Acquire.BINDER_REPO_SPEC := Some "gh/executablebooks/thebe-binder-base/HEAD";
     Acquire.JUPYTER_BASE_URL := Some "http://localhost:8888/";
     Acquire.JUPYTER_TOKEN := Some "abc" |}.

(** The stream of the samples, with a server running as well. *)
Definition stream_and_server : Acquire.Services (list Acquire.BuildPhaseEvent) :=
  {| Acquire.binder_open := fun _ => inr [Samples.waiting; Samples.ready1];
     Acquire.binder_next := fun s =>
       match s with
       | [] => Acquire.Finished
       | data :: rest => Acquire.Yield data rest
       end;
     Acquire.binder_close := fun _ => [];
     Acquire.findExistingJupyterServer := inr (Some running);
     Acquire.launchJupyterServer := fun _ => inr spawned;
     Acquire.makeSettings_throws := fun _ => None;
     Acquire.newKernelManager_throws := fun _ => None;
     Acquire.newSessionManager_throws := fun _ _ => None |}.

(** A terminal without colours and boxes. *)
Definition plain : Upgrade.Style :=
  {| Upgrade.dim := fun s => s; Upgrade.green_bold := fun s => s;
     Upgrade.cyanBright_bold := fun s => s; Upgrade.yellowBright := fun s => s;
     Upgrade.boxen := fun s => s |}.

(** A session whose manager has resolved, and its clone. *)
Definition shared : Heap.World :=
  Samples.run [Heap.New None None; Heap.CallJupyterSessionManager 0;
               Samples.acquired 0; Heap.CallClone 0; Heap.ReloadDone 1 []]
    Samples.empty.

(** A session whose acquisition is under way. *)
Definition acquiring : Heap.World :=
  Samples.run [Heap.New None None; Heap.CallJupyterSessionManager 0] Samples.empty.

(** A session whose plugins have loaded, with a clone in its reload. *)
Definition cloning : Heap.World :=
  Samples.run [Heap.New None None;
               Heap.Dispatch 0 (λ _, [Samples.missing_doi]);
               Heap.CallLoadPlugins 0;
               Heap.SettlePlugins 0 (inr (Heap.mkPlugin 1)); Heap.Tick;
               Heap.CallClone 0] Samples.empty.

(** An event of the build stream that has no message. *)
Definition silent : Acquire.BuildPhaseEvent :=
  {| Acquire.phase := "building"; Acquire.message := None;
     Acquire.url := None; Acquire.ev_token := None |}.

(** The platform's [URL] parser behind a proxy: the address of the proxy
    parses and prints with the slash of the root path; the other addresses
    are those of the samples. *)
Definition parse_url_proxied (s : string) : option Fetch.URL :=
  if String.eqb s "http://proxy.example:8080" then
    Some {| Fetch.href := "http://proxy.example:8080/";
            Fetch.hostname := "proxy.example" |}
  else Samples.parse_url s.

(** A session whose plugins have failed to load. *)
Definition unplugged : Heap.World :=
  Samples.run [Heap.New None None; Heap.CallLoadPlugins 0;
               Heap.SettlePlugins 0 (inl (JsError "Cannot find module"));
               Heap.Tick] Samples.empty.

End Fixtures.

(** * Properties *)

Lemma includes_true (xs : list string) (x : string) : includes xs x = true ↔ x ∈ xs.
Proof. unfold includes. by rewrite bool_decide_eq_true. Qed.

Lemma includes_false (xs : list string) (x : string) : includes xs x = false ↔ x ∉ xs.
Proof. unfold includes. by rewrite bool_decide_eq_false. Qed.

(** ** [fetch] *)

Module FetchProps.
Import Fetch.

Section WithURLParser.

Variable parse_url : string -> option URL.

Lemma fetch_begin_parsed proxyAgent url init u :
  parse_url (url_source url) = Some u →
  fetch_begin parse_url proxyAgent url init =
    {| log := LDebug ("Fetching: " +:+ href u) :: (fetch_init proxyAgent u init).2;
       done := false; timer := Armed;
       calls := [(url, (fetch_init proxyAgent u init).1)];
       outcome := Pending |}.
Proof.
  intros Hu. unfold fetch_begin. rewrite Hu.
  by destruct (fetch_init proxyAgent u init).
Qed.

Lemma fetch_init_proxied ag u init :
  hostname u ∉ LOCALHOSTS →
  fetch_init (Some ag) u init = (Some (spread_agent ag init), [LDebug (using_proxy_msg ag)]).
Proof. intros H. unfold fetch_init. apply includes_false in H. by rewrite H. Qed.

Lemma fetch_init_direct proxyAgent u init :
  proxyAgent = None ∨ hostname u ∈ LOCALHOSTS →
  fetch_init proxyAgent u init = (init, []).
Proof.
  intros [-> | H]; [done |]. unfold fetch_init. apply includes_true in H.
  rewrite H. by destruct proxyAgent.
Qed.

Lemma spread_agent_lookup ag init k :
  spread_agent ag init !! k =
    match default ∅ init !! k with
    | Some v => Some v
    | None => if decide (k = "agent") then Some (IAgent ag) else None
    end.
Proof.
  unfold spread_agent. rewrite lookup_union.
  destruct (default ∅ init !! k) as [v|] eqn:E.
  - by destruct ({[ "agent" := IAgent ag ]} !! k).
  - destruct (decide (k = "agent")) as [-> | Hne].
    + by rewrite lookup_singleton_eq.
    + by rewrite lookup_singleton_ne.
Qed.

(** The events of the environment never change what was passed to
    [nodeFetch], nor call it again. *)
Lemma fetch_step_calls url st ev : calls (fetch_step url st ev) = calls st.
Proof.
  destruct ev; simpl; [destruct (timer st) | destruct (outcome st) ..]; done.
Qed.

Lemma fetch_calls proxyAgent url init sched :
  calls (fetch parse_url proxyAgent url init sched) =
  calls (fetch_begin parse_url proxyAgent url init).
Proof.
  unfold fetch. induction sched as [| ev sched IH] using rev_ind; [done |].
  by rewrite foldl_app; simpl; rewrite fetch_step_calls.
Qed.

(** C8: for a call of [fetch] whose URL parses to [u], the options passed
    to the network are [{ agent: proxyAgent, ...init }] exactly when a proxy
    agent is configured and [u.hostname] is none of [localhost],
    [127.0.0.1], [::1], and the caller's [init] untouched otherwise; the
    proxy line is logged in the first case only; for a caller who brings no
    agent, the agent sent is the proxy agent in the first case only; and a
    request to [localhost] is sent with the caller's [init] whatever the
    proxy configuration. *)
Theorem fetch_proxy_iff (proxyAgent : option Agent) (url : RequestInfo)
    (init : option RequestInit) (u : URL) :
  parse_url (url_source url) = Some u →
  let st := fetch_begin parse_url proxyAgent url init in
  let proxied := is_Some proxyAgent ∧ hostname u ∉ LOCALHOSTS in
  (∀ ag, proxyAgent = Some ag → hostname u ∉ LOCALHOSTS →
         calls st = [(url, Some (spread_agent ag init))]) ∧
  (¬ proxied → calls st = [(url, init)]) ∧
  ((∃ ag, proxyAgent = Some ag ∧ LDebug (using_proxy_msg ag) ∈ log st) ↔ proxied) ∧
  (agent_of init = None →
   (∃ ag, proxyAgent = Some ag ∧ agent_of (sent_init st) = Some (IAgent ag)) ↔ proxied) ∧
  (hostname u = "localhost" → sent_init st = init).
Proof.
  intros Hu st proxied. subst st. rewrite (fetch_begin_parsed _ _ _ _ Hu).
  unfold sent_init; simpl. subst proxied.
  destruct (decide (hostname u ∈ LOCALHOSTS)) as [Hin | Hnin].
  - rewrite fetch_init_direct by auto. simpl.
    split; [intros; done |]. split; [done |]. split; [| split; [| done]].
    + split; [| intros [_ ?]; done].
      intros (ag & _ & Hl). apply list_elem_of_singleton in Hl.
      unfold using_proxy_msg in Hl. simpl in Hl. discriminate.
    + intros Hno. split; [| intros [_ ?]; done].
      intros (ag & _ & Hl). congruence.
  - destruct proxyAgent as [ag |].
    + rewrite fetch_init_proxied by done. simpl.
      split; [by intros ag' [= <-] _ |].
      split; [intros Hn; exfalso; apply Hn; split; [by eexists | done] |].
      split; [| split].
      * split; [intros _; split; [by eexists | done] |].
        intros _. exists ag. split; [done |]. set_solver.
      * intros Hno. split; [intros _; split; [by eexists | done] |].
        intros _. exists ag. split; [done |].
        unfold agent_of in *. simpl. rewrite spread_agent_lookup.
        destruct init as [m |]; simpl in *.
        -- by rewrite Hno.
        -- by rewrite lookup_empty.
      * intros Hl. exfalso. apply Hnin. rewrite Hl. set_solver.
    + rewrite fetch_init_direct by auto. simpl.
      split; [by intros |]. split; [done |]. split; [| split; [| done]].
      * split; [by intros (ag & ? & _) | by intros [[? ?] _]].
      * intros _. split; [by intros (ag & ? & _) | by intros [[? ?] _]].
Qed.

(** C10: when [fetch] injects the proxy agent, every key the caller gave in
    [init] reaches the network call with the caller's value (so an [agent]
    of the caller's wins over the proxy agent), no other key than [agent]
    is added, and no later event changes what was passed. *)
Theorem fetch_keeps_caller_options (ag : Agent) (url : RequestInfo)
    (init : option RequestInit) (u : URL) (sched : list Event) :
  parse_url (url_source url) = Some u →
  hostname u ∉ LOCALHOSTS →
  ∃ sent,
    calls (fetch parse_url (Some ag) url init sched) = [(url, Some sent)] ∧
    (∀ k v, default ∅ init !! k = Some v → sent !! k = Some v) ∧
    (∀ k, k ≠ "agent" → sent !! k = default ∅ init !! k) ∧
    (default ∅ init !! "agent" = None → sent !! "agent" = Some (IAgent ag)).
Proof.
  intros Hu Hh. exists (spread_agent ag init).
  rewrite fetch_calls, (fetch_begin_parsed _ _ _ _ Hu), fetch_init_proxied by done.
  simpl. split; [done |]. repeat split.
  - intros k v H. by rewrite spread_agent_lookup, H.
  - intros k Hk. rewrite spread_agent_lookup.
    destruct (default ∅ init !! k); [done |]. by rewrite decide_False.
  - intros H. by rewrite spread_agent_lookup, H.
Qed.

(** A call that has resolved has set [logData.done]. *)
Lemma fetch_resolved_done proxyAgent url init sched r :
  outcome (fetch parse_url proxyAgent url init sched) = Resolved r →
  done (fetch parse_url proxyAgent url init sched) = true.
Proof.
  unfold fetch. induction sched as [| ev sched IH] using rev_ind.
  - simpl. unfold fetch_begin. destruct (parse_url _); [| done].
    by destruct (fetch_init _ _ _).
  - rewrite foldl_app. simpl.
    set (st := foldl (fetch_step url) _ sched) in *.
    destruct ev; simpl.
    + destruct (timer st); simpl; auto.
    + destruct (outcome st) eqn:E; simpl; rewrite ?E; auto.
    + destruct (outcome st) eqn:E; simpl; rewrite ?E; auto. done.
Qed.

(** After a response has come, no event adds a line to the log: the stall
    diagnostic does not fire after a success. *)
Lemma fetch_silent_after_response proxyAgent url init sched sched' r :
  outcome (fetch parse_url proxyAgent url init sched) = Resolved r →
  log (fetch parse_url proxyAgent url init (sched ++ sched')) =
  log (fetch parse_url proxyAgent url init sched).
Proof.
  intros Hr. pose proof (fetch_resolved_done _ _ _ _ _ Hr) as Hd.
  unfold fetch in *. rewrite foldl_app.
  set (st := foldl (fetch_step url) _ sched) in *. clearbody st.
  revert st Hr Hd. induction sched' as [| ev sched' IH]; intros st Hr Hd; [done |].
  simpl. rewrite IH.
  - destruct ev; simpl; [destruct (timer st); simpl; by rewrite ?Hd | by rewrite Hr ..].
  - destruct ev; simpl; [destruct (timer st); simpl; done | by rewrite Hr ..].
  - destruct ev; simpl; [destruct (timer st); simpl; done | by rewrite Hr ..].
Qed.

End WithURLParser.

(** C8 on a request to the API host, through the proxy of the samples. *)
Lemma fetch_proxy_iff_witness :
  Samples.parse_url "https://api.mystmd.org/" =
    Some {| href := "https://api.mystmd.org/"; hostname := "api.mystmd.org" |} ∧
  ("api.mystmd.org" ∉ LOCALHOSTS) ∧
  calls (fetch_begin Samples.parse_url (Some Samples.proxy)
           (ReqString "https://api.mystmd.org/") None) =
    [(ReqString "https://api.mystmd.org/", Some (spread_agent Samples.proxy None))].
Proof.
  assert ("api.mystmd.org" ∉ LOCALHOSTS) as Hh.
  { unfold LOCALHOSTS. intros Hin.
    by repeat (apply elem_of_cons in Hin as [Hin | Hin]; [discriminate |]);
      apply elem_of_nil in Hin. }
  split; [reflexivity |]. split; [exact Hh |].
  exact (proj1 (fetch_proxy_iff Samples.parse_url (Some Samples.proxy)
                  (ReqString "https://api.mystmd.org/") None
                  {| href := "https://api.mystmd.org/"; hostname := "api.mystmd.org" |}
                  eq_refl) Samples.proxy eq_refl Hh).
Defined.

(** A request to [localhost] with a proxy configured goes out as the
    caller gave it. *)
Example fetch_localhost_direct :
  calls (fetch_begin Samples.parse_url (Some Samples.proxy)
           (ReqString "http://localhost:3000/api") (Some Samples.caller_init)) =
    [(ReqString "http://localhost:3000/api", Some Samples.caller_init)].
Proof. reflexivity. Qed.

(** C10 for a caller who brings an agent and a method. *)
Lemma fetch_keeps_caller_options_witness :
  Samples.parse_url "https://api.mystmd.org/" =
    Some {| href := "https://api.mystmd.org/"; hostname := "api.mystmd.org" |} ∧
  ("api.mystmd.org" ∉ LOCALHOSTS) ∧
  ∃ sent,
    calls (fetch Samples.parse_url (Some Samples.proxy)
             (ReqString "https://api.mystmd.org/") (Some Samples.caller_init)
             [TimerFires; NetResolves (mkResponse 1)]) =
      [(ReqString "https://api.mystmd.org/", Some sent)] ∧
    sent !! "agent" = Some (IAgent (CallerAgent 7)) ∧
    sent !! "method" = Some (IVal (JStr "GET")).
Proof.
  assert ("api.mystmd.org" ∉ LOCALHOSTS) as Hh.
  { unfold LOCALHOSTS. intros Hin.
    by repeat (apply elem_of_cons in Hin as [Hin | Hin]; [discriminate |]);
      apply elem_of_nil in Hin. }
  split; [reflexivity |]. split; [exact Hh |].
  destruct (fetch_keeps_caller_options Samples.parse_url Samples.proxy
              (ReqString "https://api.mystmd.org/") (Some Samples.caller_init)
              {| href := "https://api.mystmd.org/"; hostname := "api.mystmd.org" |}
              [TimerFires; NetResolves (mkResponse 1)] eq_refl Hh)
    as (sent & Hc & Hkeep & _).
  exists sent. split; [exact Hc |]. split; apply Hkeep; reflexivity.
Defined.

(** A rejection before the timer fires leaves [logData.done] unset, and the
    timer logs the diagnostic when it fires. *)
Lemma fetch_stall_after_rejection (proxyAgent : option Agent) (url : RequestInfo)
    (init : option RequestInit) (parse_url : string → option URL) (u : URL) (e : Exn) :
  parse_url (url_source url) = Some u →
  let st := fetch parse_url proxyAgent url init [NetRejects e; TimerFires] in
  outcome st = Rejected e ∧
  log st = log (fetch_begin parse_url proxyAgent url init) ++ [LInfo (waiting_msg url)].
Proof.
  intros Hu. unfold fetch. simpl. rewrite (fetch_begin_parsed _ _ _ _ _ Hu). done.
Qed.

(** C9, where the code departs from it: a call of [nodeFetch] that is
    rejected before the timer fires. The call is over, with a rejection,
    and the diagnostic is logged when the timer fires afterwards; the call
    made to [nodeFetch] stays the only one. *)
Theorem fetch_stall_fires_after_failure :
  let url := ReqString "https://api.mystmd.org/" in
  let failed := fetch Samples.parse_url None url None
                  [NetRejects (JsError "ECONNREFUSED")] in
  let st := fetch Samples.parse_url None url None
              [NetRejects (JsError "ECONNREFUSED"); TimerFires] in
  outcome failed = Rejected (JsError "ECONNREFUSED") ∧
  log failed = [LDebug "Fetching: https://api.mystmd.org/"] ∧
  log st = [LDebug "Fetching: https://api.mystmd.org/"; LInfo (waiting_msg url)] ∧
  calls st = [(url, None)].
Proof. repeat split. Qed.

(** After a response the timer stays silent. *)
Example fetch_silent_after_success :
  let url := ReqString "https://api.mystmd.org/" in
  log (fetch Samples.parse_url None url None [NetResolves (mkResponse 1); TimerFires]) =
  [LDebug "Fetching: https://api.mystmd.org/"].
Proof. reflexivity. Qed.

End FetchProps.

(** ** [createJupyterSessionManager] *)

Module AcquireProps.
Import Acquire.

Lemma other_phase_eqb data :
  other_phase data →
  String.eqb (phase data) "ready" = false ∧ String.eqb (phase data) "failed" = false.
Proof. intros [H1 H2]. by rewrite !String.eqb_neq. Qed.

Section WithServices.

Context {St : Type} (sv : Services St).

Lemma console_lines_app (evs1 evs2 : list BuildPhaseEvent) :
  console_lines (evs1 ++ evs2) = console_lines evs1 ++ console_lines evs2.
Proof. unfold console_lines. by rewrite omap_app, fmap_app. Qed.

Lemma console_lines_cons (data : BuildPhaseEvent) (evs : list BuildPhaseEvent) :
  console_lines (data :: evs) = console_lines [data] ++ console_lines evs.
Proof. apply (console_lines_app [data]). Qed.

Lemma console_lines_message (data : BuildPhaseEvent) :
  has_message data →
  ∃ line, console_line data = Some line ∧ console_lines [data] = [LConsole line].
Proof.
  intros [msg Hm]. unfold console_lines, console_line. simpl. rewrite Hm. simpl.
  eexists. by split.
Qed.

(** An event without message: making its line throws, after the event was
    taken from the stream and before anything is logged. *)
Lemma consume_no_message fuel s1 s2 data partial lg r :
  binder_next sv s1 = Yield data s2 →
  message data = None →
  consume sv (S fuel) s1 partial {| log := lg; repo := r |} =
  (Throws no_message, {| log := lg; repo := Some s2 |}).
Proof.
  intros Hn Hm. simpl. rewrite Hn. unfold bind, set_repo, console_line. simpl.
  by rewrite Hm.
Qed.

(** An event of another phase is logged, and the loop goes on to the next
    event with the settings it had. *)
Lemma consume_other fuel s1 s2 data partial lg r :
  binder_next sv s1 = Yield data s2 →
  has_message data →
  other_phase data →
  consume sv (S fuel) s1 partial {| log := lg; repo := r |} =
  consume sv fuel s2 partial
    {| log := lg ++ console_lines [data]; repo := Some s2 |}.
Proof.
  intros Hn (line & Hl & ->)%console_lines_message [Hr Hf]%other_phase_eqb.
  simpl. rewrite Hn. unfold bind, set_repo. simpl. rewrite Hl.
  unfold emit. simpl. by rewrite Hr, Hf.
Qed.

Lemma consume_others pre : ∀ s s1 partial fuel lg,
  yields sv s pre s1 →
  Forall other_phase pre →
  Forall has_message pre →
  consume sv (List.length pre + fuel) s partial {| log := lg; repo := Some s |} =
  consume sv fuel s1 partial {| log := lg ++ console_lines pre; repo := Some s1 |}.
Proof.
  induction pre as [| data pre IH]; intros s s1 partial fuel lg Hy Hall Hmsg.
  - simpl in *. subst. by rewrite app_nil_r.
  - destruct Hy as (s' & Hn & Hy). apply Forall_cons in Hall as [Hd Hall].
    apply Forall_cons in Hmsg as [Hm Hmsg].
    change (List.length (data :: pre) + fuel) with (S (List.length pre + fuel)).
    rewrite (consume_other _ _ _ _ _ _ _ Hn Hm Hd).
    rewrite (IH _ _ _ _ _ Hy Hall Hmsg).
    by rewrite (console_lines_cons data pre), <- app_assoc.
Qed.

Lemma consume_failed fuel s1 s2 data partial lg r :
  binder_next sv s1 = Yield data s2 →
  has_message data →
  phase data = "failed" →
  consume sv (S fuel) s1 partial {| log := lg; repo := r |} =
  (Throws build_failed,
   {| log := lg ++ console_lines [data]; repo := Some s2 |}).
Proof.
  intros Hn (line & Hl & ->)%console_lines_message Hp.
  simpl. rewrite Hn. unfold bind, set_repo. simpl. rewrite Hl.
  unfold emit. simpl. by rewrite Hp.
Qed.

Lemma consume_ready fuel s1 s2 data partial lg r :
  binder_next sv s1 = Yield data s2 →
  has_message data →
  phase data = "ready" →
  consume sv (S fuel) s1 partial {| log := lg; repo := r |} =
  consume sv fuel (binder_close sv s2) (Some (ready_settings data))
    {| log := lg ++ console_lines [data];
       repo := Some (binder_close sv s2) |}.
Proof.
  intros Hn (line & Hl & ->)%console_lines_message Hp.
  simpl. rewrite Hn. unfold bind, set_repo. simpl. rewrite Hl.
  unfold emit. simpl. by rewrite Hp.
Qed.

(** The loop over events none of which is [failed]: each one is logged,
    every [ready] sets the settings and closes the stream, and the loop
    goes on from the state the stream is in then. *)
Lemma consume_delivers pre : ∀ s s1 partial fuel lg,
  delivers sv s pre s1 →
  Forall (λ data, phase data ≠ "failed" ∧ has_message data) pre →
  consume sv (List.length pre + fuel) s partial {| log := lg; repo := Some s |} =
  consume sv fuel s1 (settings_after partial pre)
    {| log := lg ++ console_lines pre; repo := Some s1 |}.
Proof.
  induction pre as [| data pre IH]; intros s s1 partial fuel lg Hy Hall.
  - simpl in *. subst. by rewrite app_nil_r.
  - destruct Hy as (s' & Hn & Hy). apply Forall_cons in Hall as [[Hnf Hm] Hall].
    change (List.length (data :: pre) + fuel) with (S (List.length pre + fuel)).
    rewrite (console_lines_cons data pre), app_assoc. simpl settings_after.
    destruct (String.eqb (phase data) "ready") eqn:Er.
    + apply String.eqb_eq in Er.
      rewrite (consume_ready _ _ _ _ _ _ _ Hn Hm Er). by apply IH.
    + apply String.eqb_neq in Er.
      rewrite (consume_other _ _ _ _ _ _ _ Hn Hm (conj Er Hnf)). by apply IH.
Qed.

Lemma build_manager_constructs partial eff :
  constructs sv partial →
  build_manager sv partial eff = (Returns (manager_of partial), eff).
Proof.
  intros (H1 & H2 & H3). unfold build_manager, bind, guard.
  by rewrite H1, H2, H3.
Qed.

Lemma acquire_settings_binder fuel env src spec s0 :
  BINDER_REPO_SPEC env = Some spec →
  binder_open sv spec = inr s0 →
  acquire_settings sv fuel env src {| log := []; repo := None |} =
  consume sv fuel s0 None {| log := []; repo := Some s0 |}.
Proof.
  intros Hs Ho. unfold acquire_settings. rewrite Hs. unfold bind, lift.
  by rewrite Ho.
Qed.

(** C2, as the code has it: under the remote-build strategy, after events
    none of which is [failed] (each one logged with its message, every
    [ready] among them followed by [close()], the loop going on as long as
    the stream delivers), the next event decides as follows. An event
    without message makes the loop throw, and the acquisition comes to no
    backend with the error logged. For an event with its message: a
    [failed] event, the first one, ends the loop, the acquisition comes to
    no backend and the error is logged; a [ready] event sets the settings
    to its URL and token and closes the stream, and when the closed stream
    delivers nothing more the loop ends with these settings, no further
    event consumed, and the handle is built from exactly them; an event of
    any other phase is logged and the loop goes on with the settings it
    had. *)
Theorem binder_ready_or_failed (env : Env) (src spec : string) (s0 s1 s2 : St)
    (pre : list BuildPhaseEvent) (data : BuildPhaseEvent) (fuel : nat) :
  BINDER_REPO_SPEC env = Some spec →
  binder_open sv spec = inr s0 →
  delivers sv s0 pre s1 →
  Forall (λ data, phase data ≠ "failed" ∧ has_message data) pre →
  binder_next sv s1 = Yield data s2 →
  (message data = None → List.length pre + 1 ≤ fuel →
   createJupyterSessionManager sv fuel env src =
     (Returns None,
      {| log := console_lines pre ++ [LError unable_msg no_message];
         repo := Some s2 |})) ∧
  (has_message data → phase data = "failed" → List.length pre + 1 ≤ fuel →
   createJupyterSessionManager sv fuel env src =
     (Returns None,
      {| log := console_lines (pre ++ [data]) ++ [LError unable_msg build_failed];
         repo := Some s2 |})) ∧
  (has_message data → phase data = "ready" →
   binder_next sv (binder_close sv s2) = Finished →
   List.length pre + 2 ≤ fuel →
   acquire_settings sv fuel env src {| log := []; repo := None |} =
     (Returns (Some (ready_settings data)),
      {| log := console_lines (pre ++ [data]);
         repo := Some (binder_close sv s2) |}) ∧
   (constructs sv (Some (ready_settings data)) →
    createJupyterSessionManager sv fuel env src =
      (Returns (Some (manager_of (Some (ready_settings data)))),
       {| log := console_lines (pre ++ [data]);
          repo := Some (binder_close sv s2) |}))) ∧
  (has_message data → other_phase data → ∀ k partial lg r,
   consume sv (S k) s1 partial {| log := lg; repo := r |} =
   consume sv k s2 partial
     {| log := lg ++ console_lines [data]; repo := Some s2 |}).
Proof.
  intros Hs Ho Hy Hall Hn. split; [| split; [| split]].
  - intros Hm Hfuel.
    replace fuel with (List.length pre + S (fuel - List.length pre - 1)) by lia.
    unfold createJupyterSessionManager, try_catch, acquire, bind at 1.
    rewrite (acquire_settings_binder _ _ _ _ _ Hs Ho).
    rewrite (consume_delivers _ _ _ _ _ _ Hy Hall).
    rewrite (consume_no_message _ _ _ _ _ _ _ Hn Hm).
    unfold bind, emit, ret. simpl. done.
  - intros Hm Hp Hfuel.
    replace fuel with (List.length pre + S (fuel - List.length pre - 1)) by lia.
    unfold createJupyterSessionManager, try_catch, acquire, bind at 1.
    rewrite (acquire_settings_binder _ _ _ _ _ Hs Ho).
    rewrite (consume_delivers _ _ _ _ _ _ Hy Hall).
    rewrite (consume_failed _ _ _ _ _ _ _ Hn Hm Hp).
    unfold bind, emit, ret. simpl. by rewrite console_lines_app.
  - intros Hm Hp Hfin Hfuel.
    assert (acquire_settings sv fuel env src {| log := []; repo := None |} =
            (Returns (Some (ready_settings data)),
             {| log := console_lines (pre ++ [data]);
                repo := Some (binder_close sv s2) |})) as Hset.
    { replace fuel with (List.length pre + S (S (fuel - List.length pre - 2))) by lia.
      rewrite (acquire_settings_binder _ _ _ _ _ Hs Ho).
      rewrite (consume_delivers _ _ _ _ _ _ Hy Hall).
      rewrite (consume_ready _ _ _ _ _ _ _ Hn Hm Hp).
      simpl. rewrite Hfin. unfold ret. by rewrite console_lines_app. }
    split; [done |]. intros Hc.
    unfold createJupyterSessionManager, try_catch, acquire, bind at 1.
    rewrite Hset. unfold bind at 1.
    by rewrite (build_manager_constructs _ _ Hc).
  - intros Hm Hd k partial lg r. by apply consume_other.
Qed.

Lemma createJupyterSessionManager_catches (fuel : nat) (env : Env) (src : string) e :
  (createJupyterSessionManager sv fuel env src).1 ≠ Throws e.
Proof.
  unfold createJupyterSessionManager, try_catch.
  by destruct (acquire sv fuel env src _) as [[m | e' |] eff].
Qed.

(** When the body of the [try] throws, the exception is logged as an error
    after what was logged before it and the result is [undefined]; when the
    body returns, its manager is the result. *)
Lemma createJupyterSessionManager_outcome (fuel : nat) (env : Env) (src : string) :
  let r := createJupyterSessionManager sv fuel env src in
  (∀ e eff, acquire sv fuel env src {| log := []; repo := None |} = (Throws e, eff) →
     r = (Returns None,
          {| log := log eff ++ [LError unable_msg e]; repo := repo eff |})) ∧
  (∀ m eff, acquire sv fuel env src {| log := []; repo := None |} = (Returns m, eff) →
     r = (Returns m, eff)).
Proof.
  simpl. unfold createJupyterSessionManager, try_catch.
  destruct (acquire sv fuel env src _) as [[m | e |] eff]; simpl.
  - split; [done |]. by intros ? ? [= -> ->].
  - split; [| done]. by intros ? ? [= -> ->].
  - split; done.
Qed.

(** A manager that acquisition returns is the one built over the partial
    settings it obtained; its [disposed] handler disposes of the kernel
    manager and, for settings with a [dispose] method, of the service. *)
Lemma created_manager (fuel : nat) (env : Env) (src : string) m eff :
  createJupyterSessionManager sv fuel env src = (Returns (Some m), eff) →
  ∃ partial, m = manager_of partial.
Proof.
  unfold createJupyterSessionManager, try_catch, acquire, bind.
  destruct (acquire_settings sv fuel env src _) as [[partial | e |] eff1]; [| done ..].
  unfold build_manager, bind, guard, ret, throw.
  destruct (makeSettings_throws sv partial); [done |].
  destruct (newKernelManager_throws sv _); [done |].
  destruct (newSessionManager_throws sv _ _); [done |].
  intros [= <- <-]. by exists partial.
Qed.

(** The same, with the settings: they are what the strategy that fired
    obtained, the constructors took them, and the effects of the call are
    those of the strategy. *)
Lemma created_manager_settings (fuel : nat) (env : Env) (src : string) m eff :
  createJupyterSessionManager sv fuel env src = (Returns (Some m), eff) →
  ∃ partial,
    acquire_settings sv fuel env src {| log := []; repo := None |} =
      (Returns partial, eff) ∧
    constructs sv partial ∧ m = manager_of partial.
Proof.
  unfold createJupyterSessionManager, try_catch, acquire, bind.
  destruct (acquire_settings sv fuel env src _) as [[partial | e |] eff1]; [| done ..].
  unfold build_manager, bind, guard, ret, throw.
  destruct (makeSettings_throws sv partial) eqn:H1; [done |].
  destruct (newKernelManager_throws sv _) eqn:H2; [done |].
  destruct (newSessionManager_throws sv _ _) eqn:H3; [done |].
  intros [= <- <-]. by exists partial.
Qed.

Lemma created_manager_tied (fuel : nat) (env : Env) (src : string) m eff :
  createJupyterSessionManager sv fuel env src = (Returns (Some m), eff) →
  lifetime_tied m.
Proof. intros (partial & ->)%created_manager. done. Qed.

(** The stages that can throw, each caught. *)
Lemma stream_open_failure_caught fuel env src spec e :
  BINDER_REPO_SPEC env = Some spec →
  binder_open sv spec = inl e →
  createJupyterSessionManager sv fuel env src =
    (Returns None, {| log := [LError unable_msg e]; repo := None |}).
Proof.
  intros Hs Ho.
  unfold createJupyterSessionManager, try_catch, acquire, acquire_settings, bind, lift.
  by rewrite Hs, Ho.
Qed.

Lemma stream_failure_caught fuel env src spec s0 s1 pre e :
  BINDER_REPO_SPEC env = Some spec →
  binder_open sv spec = inr s0 →
  yields sv s0 pre s1 →
  Forall other_phase pre →
  Forall has_message pre →
  binder_next sv s1 = Broken e →
  List.length pre + 1 ≤ fuel →
  createJupyterSessionManager sv fuel env src =
    (Returns None,
     {| log := console_lines pre ++ [LError unable_msg e]; repo := Some s1 |}).
Proof.
  intros Hs Ho Hy Hall Hmsg Hn Hfuel.
  replace fuel with (List.length pre + S (fuel - List.length pre - 1)) by lia.
  unfold createJupyterSessionManager, try_catch, acquire, bind at 1.
  rewrite (acquire_settings_binder _ _ _ _ _ Hs Ho).
  rewrite (consume_others _ _ _ _ _ _ Hy Hall Hmsg).
  simpl. by rewrite Hn.
Qed.

Lemma discovery_failure_caught fuel env src e :
  BINDER_REPO_SPEC env = None →
  JUPYTER_BASE_URL env = None →
  findExistingJupyterServer sv = inl e →
  createJupyterSessionManager sv fuel env src =
    (Returns None, {| log := [LError unable_msg e]; repo := None |}).
Proof.
  intros Hs Hb Hf.
  unfold createJupyterSessionManager, try_catch, acquire, acquire_settings, bind, lift.
  by rewrite Hs, Hb, Hf.
Qed.

Lemma spawn_failure_caught fuel env src e :
  BINDER_REPO_SPEC env = None →
  JUPYTER_BASE_URL env = None →
  findExistingJupyterServer sv = inr None →
  launchJupyterServer sv src = inl e →
  createJupyterSessionManager sv fuel env src =
    (Returns None,
     {| log := [LDebug ("Launching jupyter server on " +:+ src); LError unable_msg e];
        repo := None |}).
Proof.
  intros Hs Hb Hf Hl.
  unfold createJupyterSessionManager, try_catch, acquire, acquire_settings, bind, lift.
  rewrite Hs, Hb, Hf. unfold emit. simpl. by rewrite Hl.
Qed.

Lemma settings_failure_caught fuel env src base e :
  BINDER_REPO_SPEC env = None →
  JUPYTER_BASE_URL env = Some base →
  makeSettings_throws sv
    (Some {| baseUrl := Some base; token := JUPYTER_TOKEN env;
             appUrl := None; dispose := None |}) = Some e →
  createJupyterSessionManager sv fuel env src =
    (Returns None, {| log := [LError unable_msg e]; repo := None |}).
Proof.
  intros Hs Hb Hm.
  unfold createJupyterSessionManager, try_catch, acquire, acquire_settings,
    build_manager, bind, lift, guard.
  rewrite Hs, Hb. unfold ret. simpl. by rewrite Hm.
Qed.

End WithServices.

(** A stream that has a second event buffered when the first [ready]
    comes and delivers it after [close()]: the loop goes on
    and the handle is built from the later event. *)
Lemma first_ready_not_decisive : ¬ first_ready_decides.
Proof.
  intros H.
  specialize (H _ (Samples.list_stream [Samples.ready1; Samples.ready2] id)
                Samples.binder_env "." "gh/executablebooks/thebe-binder-base/HEAD"
                [Samples.ready1; Samples.ready2] [Samples.ready1; Samples.ready2]
                [Samples.ready2] [] Samples.ready1 3
                eq_refl eq_refl eq_refl (Forall_nil_2 _) (Forall_nil_2 _) eq_refl eq_refl
                (mk_is_Some _ _ eq_refl)
                (conj eq_refl (conj eq_refl eq_refl))).
  specialize (H ltac:(simpl; lia)). vm_compute in H. discriminate H.
Qed.

(** C2 on one event of another phase, then [ready], on a
    stream that delivers nothing once closed although a later event was
    announced. *)
Lemma binder_ready_or_failed_witness :
  createJupyterSessionManager
    (Samples.list_stream [Samples.waiting; Samples.ready1; Samples.ready2] (fun _ => []))
    5 Samples.binder_env "." =
  (Returns (Some (manager_of (Some (ready_settings Samples.ready1)))),
   {| log := console_lines [Samples.waiting; Samples.ready1]; repo := Some [] |}).
Proof.
  refine (proj2 (proj1 (proj2 (proj2 (binder_ready_or_failed
    (Samples.list_stream [Samples.waiting; Samples.ready1; Samples.ready2] (fun _ => []))
    Samples.binder_env "." "gh/executablebooks/thebe-binder-base/HEAD"
    [Samples.waiting; Samples.ready1; Samples.ready2]
    [Samples.ready1; Samples.ready2] [Samples.ready2]
    [Samples.waiting] Samples.ready1 5
    eq_refl eq_refl _ _ eq_refl))) (mk_is_Some _ _ eq_refl) eq_refl eq_refl _) _).
  - simpl. eexists. split; reflexivity.
  - apply Forall_cons. split; [| apply Forall_nil_2].
    split; [discriminate | by eexists].
  - simpl. lia.
  - repeat split.
Defined.

End AcquireProps.

(** ** The deduplication of [getAllWarnings] *)

Module WarningsProps.
Import Warnings.

Lemma collect_concat (sessionsWarnings : list (list Warning)) :
  collect sessionsWarnings = (foldl visit ([], []) (List.concat sessionsWarnings)).2.
Proof.
  unfold collect. generalize (@nil string, @nil Warning).
  induction sessionsWarnings as [| l ls IH]; intros acc; [done |].
  simpl. by rewrite IH, foldl_app.
Qed.








End WarningsProps.

(** ** The order of [sort] *)

Module SortProps.
Import Warnings Sorting.

Lemma ascii_compare_refl (c : ascii) : Ascii.compare c c = Eq.
Proof. unfold Ascii.compare. apply N.compare_refl. Qed.

Lemma string_compare_refl (s : string) : String.compare s s = Eq.
Proof. induction s as [| c s IH]; simpl; [done |]. by rewrite ascii_compare_refl. Qed.

(** The order of strings by code units is transitive. *)
Lemma string_compare_trans (s1 : string) : ∀ s2 s3,
  String.compare s1 s2 ≠ Gt → String.compare s2 s3 ≠ Gt → String.compare s1 s3 ≠ Gt.
Proof.
  induction s1 as [| c1 s1 IH]; intros [| c2 s2] [| c3 s3]; simpl; try done.
  unfold Ascii.compare.
  destruct (N.compare_spec (N_of_ascii c1) (N_of_ascii c2)) as [E12 | L12 | G12];
    [| | done];
    (destruct (N.compare_spec (N_of_ascii c2) (N_of_ascii c3)) as [E23 | L23 | G23];
     [| | done]).
  - rewrite E12, E23, N.compare_refl. apply IH.
  - intros _ _. rewrite E12. by rewrite (proj2 (N.compare_lt_iff _ _) L23).
  - intros _ _. rewrite <- E23. by rewrite (proj2 (N.compare_lt_iff _ _) L12).
  - intros _ _. by rewrite (proj2 (N.compare_lt_iff _ _) (N.lt_trans _ _ _ L12 L23)).
Qed.

Lemma leb_compare (s1 s2 : string) :
  String.leb s1 s2 = true ↔ String.compare s1 s2 ≠ Gt.
Proof. unfold String.leb. by destruct (String.compare s1 s2). Qed.

Lemma leb_trans (s1 s2 s3 : string) :
  String.leb s1 s2 = true → String.leb s2 s3 = true → String.leb s1 s3 = true.
Proof. rewrite !leb_compare. apply string_compare_trans. Qed.

Lemma leb_false (s1 s2 : string) : String.leb s1 s2 = false → String.leb s2 s1 = true.
Proof. intros H. destruct (String.leb_total s1 s2) as [H' | H']; congruence. Qed.

(** [sort] keeps the elements and puts them in order. *)
Lemma sort_insert_perm (x : JsVal) (l : list JsVal) : sort_insert x l ≡ₚ x :: l.
Proof.
  induction l as [| y l IH]; simpl; [done |].
  destruct (String.leb _ _); [done |]. rewrite IH. apply Permutation_swap.
Qed.

Lemma sort_perm (l : list JsVal) : sort l ≡ₚ l.
Proof.
  induction l as [| x l IH]; simpl; [done |].
  unfold sort in *. simpl. by rewrite sort_insert_perm, IH.
Qed.

Lemma sort_insert_ordered (x : JsVal) (l : list JsVal) :
  ordered l → ordered (sort_insert x l).
Proof.
  induction l as [| y l IH]; intros Hs; simpl.
  - done.
  - destruct Hs as [Hall Hs].
    destruct (String.leb (to_string x) (to_string y)) eqn:E.
    + split; [| done]. constructor; [done |].
      eapply Forall_impl; [exact Hall |]. intros z Hz. simpl in *. by eapply leb_trans.
    + split; [| by apply IH].
      rewrite sort_insert_perm. constructor; [by apply leb_false | done].
Qed.

Lemma sort_ordered (l : list JsVal) : ordered (sort l).
Proof.
  induction l as [| x l IH]; [done |].
  unfold sort in *. simpl. by apply sort_insert_ordered.
Qed.

(** Two sorted lists with the same elements, no two of which have the
    same string, are the same list. *)
Lemma ordered_unique (l1 : list JsVal) : ∀ l2,
  ordered l1 → ordered l2 →
  l1 ≡ₚ l2 → NoDup (to_string <$> l1) → l1 = l2.
Proof.
  induction l1 as [| x l1 IH]; intros l2 H1 H2 Hp Hnd.
  { by apply Permutation_nil_l in Hp. }
  destruct l2 as [| y l2]; [by apply Permutation_nil_r in Hp |].
  destruct H1 as [Hx H1]. destruct H2 as [Hy H2].
  rewrite fmap_cons in Hnd. apply NoDup_cons in Hnd as [Hnx Hnd].
  assert (x = y) as ->.
  { assert (y ∈ x :: l1) as Hyin by (rewrite Hp; by left).
    assert (x ∈ y :: l2) as Hxin by (rewrite <- Hp; by left).
    apply elem_of_cons in Hyin as [-> | Hyin]; [done |].
    apply elem_of_cons in Hxin as [-> | Hxin]; [done |].
    rewrite Forall_forall in Hx, Hy.
    pose proof (String.leb_antisym _ _ (Hx _ Hyin) (Hy _ Hxin)) as Heq.
    exfalso. apply Hnx. rewrite Heq. apply list_elem_of_fmap. by exists y. }
  f_equal. apply IH; [done | done | | done]. by apply Permutation_cons_inv in Hp.
Qed.

Lemma sort_permutation (l1 l2 : list JsVal) :
  l1 ≡ₚ l2 → NoDup (to_string <$> l1) → sort l1 = sort l2.
Proof.
  intros Hp Hnd. apply ordered_unique; [apply sort_ordered .. | |].
  - by rewrite !sort_perm.
  - by rewrite sort_perm.
Qed.



End SortProps.

(** ** Sessions, promises and the event loop *)

Module HeapProps.
Import Heap.

Lemma acquisitions_app a evs1 evs2 :
  acquisitions a (evs1 ++ evs2) = acquisitions a evs1 + acquisitions a evs2.
Proof. unfold acquisitions. by rewrite List.filter_app, length_app. Qed.

Lemma plugin_loads_app a evs1 evs2 :
  plugin_loads a (evs1 ++ evs2) = plugin_loads a evs1 + plugin_loads a evs2.
Proof. unfold plugin_loads. by rewrite List.filter_app, length_app. Qed.

Lemma teardowns_app evs1 evs2 :
  teardowns (evs1 ++ evs2) = teardowns evs1 + teardowns evs2.
Proof. unfold teardowns. by rewrite List.filter_app, length_app. Qed.

Lemma acquisitions_log a (ls : list LogEntry) : acquisitions a (EvLog <$> ls) = 0.
Proof. induction ls; simpl; auto. Qed.

Lemma plugin_loads_log a (ls : list LogEntry) : plugin_loads a (EvLog <$> ls) = 0.
Proof. induction ls; simpl; auto. Qed.

Lemma teardowns_log (ls : list LogEntry) : teardowns (EvLog <$> ls) = 0.
Proof. induction ls; simpl; auto. Qed.

(** The case of a constructor that throws: the world is as it was, but
    for the objects made before. *)
Ltac thrown :=
  unfold unset, plugins_unset, manager_slot, plugin_slot, ready, scheduled, pstate in *;
  simpl in *; first [lia | done | solve [eauto]].

Ltac constructing :=
  unfold construct; destruct (proxy_agent_of _ _) as [e | agent] eqn:Hagent;
  [try thrown |].

Section WithStore.

Context {RootState St : Type}.
Variable parse_url : string → option Fetch.URL.
Variable initial_state : RootState.
Variable selectCurrentSitePath : RootState → option string.
Variable selectCurrentProjectPath : RootState → option string.
Variable path_resolve : string → string.

Local Abbreviation World := (@Heap.World RootState).
Local Abbreviation Session := (@Heap.Session RootState).
Local Abbreviation Op := (@Heap.Op RootState St).
Local Abbreviation step :=
  (@Heap.step RootState St parse_url initial_state selectCurrentSitePath
     selectCurrentProjectPath path_resolve).
Local Abbreviation run :=
  (@Heap.run RootState St parse_url initial_state selectCurrentSitePath
     selectCurrentProjectPath path_resolve).
Local Abbreviation wf := (@Heap.wf RootState parse_url).
Local Abbreviation wf_env := (@Heap.wf_env RootState parse_url).

(** *** What the primitives leave alone *)

Lemma settle_sessions p st (w : World) : sessions (settle p st w) = sessions w.
Proof. unfold settle. destruct (promises w !! p) as [[k [] rs] |]; done. Qed.

Lemma settle_reloading p st (w : World) : reloading (settle p st w) = reloading w.
Proof. unfold settle. destruct (promises w !! p) as [[k [] rs] |]; done. Qed.

Lemma settle_events p st (w : World) : events (settle p st w) = events w.
Proof. unfold settle. destruct (promises w !! p) as [[k [] rs] |]; done. Qed.

Lemma react_sessions p r (w : World) : sessions (react p r w) = sessions w.
Proof. unfold react. destruct (promises w !! p) as [[k [] rs] |]; done. Qed.

Lemma react_reloading p r (w : World) : reloading (react p r w) = reloading w.
Proof. unfold react. destruct (promises w !! p) as [[k [] rs] |]; done. Qed.

Lemma react_events p r (w : World) : events (react p r w) = events w.
Proof. unfold react. destruct (promises w !! p) as [[k [] rs] |]; done. Qed.

Lemma settle_with_sessions p st f (w : World) :
  settle p st (with_sessions f w) = with_sessions f (settle p st w).
Proof. unfold settle. simpl. by destruct (promises w !! p) as [[k [] rs] |]. Qed.

Lemma ready_ext (w' w : World) a :
  sessions w' = sessions w → reloading w' = reloading w → ready w' a = ready w a.
Proof. unfold ready. by intros -> ->. Qed.

Lemma ready_lookup (w : World) a s : ready w a = Some s → sessions w !! a = Some s.
Proof. unfold ready. by case_bool_decide. Qed.

Lemma ready_not_reloading (w : World) a s : ready w a = Some s → a ∉ (reloading w).*2.
Proof. unfold ready. by case_bool_decide. Qed.

Lemma ready_alter (w : World) f a' a :
  ready (with_sessions (alter f a') w) a =
  (if decide (a' = a) then f else id) <$> ready w a.
Proof.
  unfold ready. simpl. case_bool_decide; [by destruct (decide _) |].
  destruct (decide (a' = a)) as [-> | Hne].
  - by rewrite list_lookup_alter_eq.
  - rewrite list_lookup_alter_ne by done. by destruct (sessions w !! a).
Qed.

Lemma ready_snoc_session (w : World) s a :
  ready (with_sessions (fun ss => ss ++ [s]) w) a =
  if decide (a = List.length (sessions w))
  then (if bool_decide (a ∈ (reloading w).*2) then None else Some s)
  else ready w a.
Proof.
  unfold ready. simpl. case_bool_decide; [by destruct (decide _) |].
  destruct (decide (a = List.length (sessions w))) as [-> | Hne].
  - by rewrite lookup_app_r, Nat.sub_diag.
  - destruct (decide (a < List.length (sessions w))).
    + by rewrite lookup_app_l.
    + rewrite !lookup_ge_None_2; [done | lia |].
      rewrite length_app. simpl. lia.
Qed.

Lemma ready_unallocated (w : World) a :
  List.length (sessions w) ≤ a → ready w a = None.
Proof.
  intros H. unfold ready. case_bool_decide; [done |]. by apply lookup_ge_None_2.
Qed.

(** *** The slot of the execution backend along a step *)

Lemma manager_slot_unfold (w : World) a :
  manager_slot w a =
  if bool_decide (a ∈ (reloading w).*2) then None
  else sessions w !! a ≫= _jupyterSessionManagerPromise.
Proof. unfold manager_slot, ready. by case_bool_decide. Qed.

Lemma lookup_alter_bind {B} (f : Session → Session) (g : Session → option B)
    (ss : list Session) a' a :
  (∀ s, g (f s) = g s) → alter f a' ss !! a ≫= g = ss !! a ≫= g.
Proof.
  intros Hf. destruct (decide (a' = a)) as [-> | Hne].
  - rewrite list_lookup_alter_eq. destruct (ss !! a); simpl; auto.
  - by rewrite list_lookup_alter_ne.
Qed.

Lemma elem_of_snd_delete (rl : list (nat * nat)) i o c a :
  rl !! i = Some (o, c) → a ≠ c → a ∈ (delete i rl).*2 ↔ a ∈ rl.*2.
Proof.
  intros Hi Hne. rewrite <- (take_drop_middle rl i (o, c)) at 2 by done.
  rewrite delete_take_drop, !fmap_app, fmap_cons, !elem_of_app, elem_of_cons.
  simpl. tauto.
Qed.

Lemma unset_le (w : World) a : unset w a ≤ 1.
Proof. unfold unset. destruct (manager_slot w a); lia. Qed.

Lemma list_find_snd (rl : list (nat * nat)) c i e :
  list_find (λ e, e.2 = c) rl = Some (i, e) → rl !! i = Some (e.1, c).
Proof.
  intros (Hi & <- & _)%list_find_Some. by destruct e.
Qed.

(** A step starts an acquisition on [a] only when the slot of [a] is unset,
    and sets it then; only [dispose()] on [a] unsets a slot that is set. *)
Lemma acquisitions_step (w : World) (op : Op) a :
  acquisitions a (events (step w op)) + unset (step w op) a ≤
  acquisitions a (events w) + unset w a + (if is_dispose_call a op then 1 else 0).
Proof.
  destruct op as [lg lm | a' f | a' | a' | a' | c st | c | a' | p sv env fuel | p r |];
    simpl.
  - unfold unset. rewrite !manager_slot_unfold. unfold construct.
    destruct (proxy_agent_of _ _) as [e | agent]; simpl; [lia |].
    case_bool_decide; [lia |].
    destruct (decide (a < List.length (sessions w))).
    + rewrite lookup_app_l by done. lia.
    + rewrite (lookup_ge_None_2 (sessions w)) by lia.
      rewrite lookup_app_r by lia.
      destruct (a - List.length (sessions w)) as [| k]; simpl; lia.
  - destruct (ready w a') as [s' |] eqn:E; [| lia].
    unfold unset. rewrite !manager_slot_unfold. simpl.
    rewrite lookup_alter_bind by done. lia.
  - unfold jupyterSessionManager.
    destruct (ready w a') as [s' |] eqn:E; [| lia].
    destruct (_jupyterSessionManagerPromise s') as [p |] eqn:Es; simpl.
    + rewrite acquisitions_app. unfold unset. rewrite !manager_slot_unfold.
      unfold acquisitions. simpl. lia.
    + rewrite !acquisitions_app. unfold unset. rewrite !manager_slot_unfold.
      unfold acquisitions. simpl.
      pose proof (ready_lookup _ _ _ E) as El.
      pose proof (ready_not_reloading _ _ _ E) as Er.
      destruct (decide (a' = a)) as [-> | Hne].
      * rewrite bool_decide_eq_true_2 by done.
        rewrite (bool_decide_eq_false_2 _ Er).
        rewrite list_lookup_alter_eq, El. simpl. rewrite Es. lia.
      * rewrite bool_decide_eq_false_2 by done.
        rewrite list_lookup_alter_ne by done. simpl. lia.
  - unfold loadPlugins.
    destruct (ready w a') as [s' |] eqn:E; [| lia].
    destruct (_pluginPromise s') as [p |] eqn:Es; simpl.
    + rewrite acquisitions_app. unfold unset. rewrite !manager_slot_unfold.
      simpl. rewrite react_events, react_sessions, react_reloading.
      unfold acquisitions. simpl. lia.
    + rewrite acquisitions_app. unfold unset. rewrite !manager_slot_unfold.
      simpl. rewrite react_events, react_sessions, react_reloading. simpl.
      rewrite acquisitions_app. rewrite lookup_alter_bind by done.
      unfold acquisitions. simpl. lia.
  - unfold clone_begin.
    destruct (ready w a') as [s' |] eqn:E; [| lia].
    unfold construct. destruct (proxy_agent_of _ _) as [e | agent]; [thrown |].
    unfold unset. rewrite !manager_slot_unfold. simpl.
    rewrite fmap_app. simpl.
    destruct (decide (a = List.length (sessions w))) as [-> | Hne].
    + rewrite (bool_decide_eq_true_2 (_ ∈ _ ++ _))
        by (apply elem_of_app; right; by apply list_elem_of_singleton).
      rewrite (lookup_ge_None_2 (sessions w)) by lia.
      case_bool_decide; simpl; lia.
    + assert (a ∈ (reloading w).*2 ++ [List.length (sessions w)] ↔
              a ∈ (reloading w).*2) as Hiff
        by (rewrite elem_of_app, list_elem_of_singleton; tauto).
      rewrite (bool_decide_ext _ _ Hiff). case_bool_decide; [lia |].
      destruct (decide (a < List.length (sessions w))).
      * rewrite lookup_app_l by done. lia.
      * rewrite (lookup_ge_None_2 (sessions w)) by lia.
        rewrite lookup_ge_None_2; [simpl; lia |]. rewrite length_app. simpl. lia.
  - unfold clone_end.
    destruct (list_find _ (reloading w)) as [[i [o c']] |] eqn:Ef; [| lia].
    destruct (sessions w !! o) as [this |] eqn:Eo; [| lia].
    pose proof (list_find_snd _ _ _ _ Ef) as Hi. simpl in Hi.
    destruct (decide (a = c)) as [-> | Hne].
    + simpl. pose proof (unset_le (with_reloading (delete i)
        (with_sessions (λ ss, alter (push_clone c) o
           (alter (λ cloneSession, set_manager_promise
                     (_jupyterSessionManagerPromise this) (set_store st cloneSession))
              c ss)) w)) c).
      unfold unset at 2. rewrite manager_slot_unfold.
      rewrite bool_decide_eq_true_2; [simpl in *; lia |].
      apply list_elem_of_fmap. exists (o, c). split; [done |].
      by eapply list_elem_of_lookup_2.
    + unfold unset. rewrite !manager_slot_unfold. simpl.
      rewrite (bool_decide_ext _ _ (elem_of_snd_delete _ _ _ _ _ Hi Hne)).
      rewrite lookup_alter_bind by done.
      rewrite list_lookup_alter_ne by done. lia.
  - unfold clone_abort.
    destruct (list_find _ (reloading w)) as [[i [o c']] |] eqn:Ef; [| lia].
    pose proof (list_find_snd _ _ _ _ Ef) as Hi. simpl in Hi.
    destruct (decide (a = c)) as [-> | Hne].
    + simpl. pose proof (unset_le (with_reloading (delete i) w) c).
      unfold unset at 2. rewrite manager_slot_unfold.
      rewrite bool_decide_eq_true_2; [simpl in *; lia |].
      apply list_elem_of_fmap. exists (o, c). split; [done |].
      by eapply list_elem_of_lookup_2.
    + unfold unset. rewrite !manager_slot_unfold. simpl.
      rewrite (bool_decide_ext _ _ (elem_of_snd_delete _ _ _ _ _ Hi Hne)). lia.
  - unfold dispose.
    destruct (ready w a') as [s' |] eqn:E; [| simpl; lia].
    destruct (_jupyterSessionManagerPromise s') as [p |] eqn:Es; simpl; [| lia].
    rewrite react_events.
    destruct (decide (a' = a)) as [-> | Hne].
    + rewrite bool_decide_eq_true_2 by done.
      pose proof (unset_le (with_sessions (alter (set_manager_promise None) a)
                              (react p RDispose w)) a). lia.
    + rewrite bool_decide_eq_false_2 by done.
      unfold unset. rewrite !manager_slot_unfold. simpl.
      rewrite react_sessions, react_reloading.
      rewrite list_lookup_alter_ne by done. lia.
  - unfold settle_acquire.
    destruct (promises w !! p) as [[[a' | a' | p'] [] rs] |]; try lia.
    destruct (sessions w !! a') as [this |]; [| lia].
    destruct (Acquire.createJupyterSessionManager _ _ _ _) as [[m | e |] eff];
      [| | lia]; simpl; rewrite acquisitions_app, acquisitions_log, settle_events;
      unfold unset; rewrite !manager_slot_unfold; simpl;
      rewrite settle_sessions, settle_reloading; lia.
  - unfold settle_plugins.
    destruct (promises w !! p) as [[[a' | a' | p'] [] rs] |]; try lia.
    rewrite settle_events. unfold unset. rewrite !manager_slot_unfold.
    rewrite settle_sessions, settle_reloading. lia.
  - destruct (jobs w) as [| [r st] js]; [lia |].
    unfold run_job.
    destruct r as [| a' q | q]; [destruct st as [| [[m |] | reg] | e] | destruct st as [| [m | reg] | e] |];
      simpl; rewrite ?acquisitions_app, ?settle_events; simpl;
      unfold unset; rewrite !manager_slot_unfold; simpl;
      rewrite ?settle_sessions, ?settle_reloading; simpl;
      rewrite ?lookup_alter_bind by done; unfold acquisitions; simpl; lia.
Qed.

Lemma run_cons (w : World) (op : Op) (ops : list Op) :
  run (op :: ops) w = run ops (step w op).
Proof. done. Qed.

Lemma run_app (w : World) (ops1 ops2 : list Op) :
  run (ops1 ++ ops2) w = run ops2 (run ops1 w).
Proof. unfold Heap.run. by rewrite foldl_app. Qed.

Lemma run_snoc (w : World) (ops : list Op) (op : Op) :
  run (ops ++ [op]) w = step (run ops w) op.
Proof. by rewrite run_app. Qed.

Lemma disposals_app a (ops1 ops2 : list Op) :
  disposals a (ops1 ++ ops2) = disposals a ops1 + disposals a ops2.
Proof. unfold disposals. by rewrite List.filter_app, length_app. Qed.

Lemma disposals_cons a (op : Op) (ops : list Op) :
  disposals a (op :: ops) = (if is_dispose_call a op then 1 else 0) + disposals a ops.
Proof. unfold disposals. simpl. by destruct (is_dispose_call a op). Qed.

(** Along a run, acquisitions on [a] are paid for by the slot being unset
    at the start and by the calls of [dispose()] on [a]. *)
Lemma acquisitions_run (ops : list Op) : ∀ (w : World) a,
  acquisitions a (events (run ops w)) + unset (run ops w) a ≤
  acquisitions a (events w) + unset w a + disposals a ops.
Proof.
  induction ops as [| op ops IH]; intros w a.
  - simpl. unfold disposals. simpl. lia.
  - rewrite run_cons, disposals_cons.
    pose proof (IH (step w op) a). pose proof (acquisitions_step w op a). lia.
Qed.

(** A slot that is set stays as it is under every step but [dispose()] on
    the session. *)
Lemma manager_slot_step (w : World) (op : Op) a p :
  manager_slot w a = Some p →
  is_dispose_call a op = false →
  manager_slot (step w op) a = Some p.
Proof.
  intros Hs Hop. pose proof Hs as Hs'. rewrite manager_slot_unfold in Hs'.
  destruct (bool_decide (a ∈ (reloading w).*2)) eqn:Hr; [done |].
  apply bool_decide_eq_false in Hr.
  destruct op as [lg lm | a' f | a' | a' | a' | c st | c | a' | q sv env fuel | q r |];
    simpl in *.
  - constructing. rewrite manager_slot_unfold. simpl.
    rewrite bool_decide_eq_false_2 by done.
    destruct (sessions w !! a) as [s |] eqn:Ea; [| done].
    by rewrite (lookup_app_l_Some _ _ _ _ Ea).
  - destruct (ready w a') as [s' |] eqn:E; [| done].
    rewrite manager_slot_unfold. simpl. rewrite bool_decide_eq_false_2 by done.
    by rewrite lookup_alter_bind.
  - unfold jupyterSessionManager.
    destruct (ready w a') as [s' |] eqn:E; [| done].
    destruct (_jupyterSessionManagerPromise s') as [p' |] eqn:Es; simpl.
    + rewrite manager_slot_unfold. simpl. by rewrite bool_decide_eq_false_2.
    + rewrite manager_slot_unfold. simpl. rewrite bool_decide_eq_false_2 by done.
      destruct (decide (a' = a)) as [-> | Hne].
      * apply ready_lookup in E. rewrite E in Hs'. simpl in Hs'. congruence.
      * by rewrite list_lookup_alter_ne.
  - unfold loadPlugins.
    destruct (ready w a') as [s' |] eqn:E; [| done].
    destruct (_pluginPromise s') as [p' |] eqn:Es; simpl;
      rewrite manager_slot_unfold; simpl;
      rewrite react_sessions, react_reloading; simpl;
      rewrite bool_decide_eq_false_2 by done; [done |].
    by rewrite lookup_alter_bind.
  - unfold clone_begin.
    destruct (ready w a') as [s' |] eqn:E; [| done].
    constructing.
    rewrite manager_slot_unfold. simpl. rewrite fmap_app. simpl.
    destruct (sessions w !! a) as [s |] eqn:Ea; [| done].
    pose proof (lookup_lt_Some _ _ _ Ea).
    rewrite bool_decide_eq_false_2.
    + by rewrite (lookup_app_l_Some _ _ _ _ Ea).
    + rewrite elem_of_app, list_elem_of_singleton. intros [? | ?]; [done | lia].
  - unfold clone_end.
    destruct (list_find _ (reloading w)) as [[i [o c']] |] eqn:Ef; [| done].
    destruct (sessions w !! o) as [this |] eqn:Eo; [| done].
    pose proof (list_find_snd _ _ _ _ Ef) as Hi. simpl in Hi.
    assert (a ≠ c) as Hne.
    { intros ->. apply Hr. apply list_elem_of_fmap. exists (o, c).
      split; [done |]. by eapply list_elem_of_lookup_2. }
    rewrite manager_slot_unfold. simpl.
    rewrite (bool_decide_ext _ _ (elem_of_snd_delete _ _ _ _ _ Hi Hne)).
    rewrite bool_decide_eq_false_2 by done.
    rewrite lookup_alter_bind by done. by rewrite list_lookup_alter_ne.
  - unfold clone_abort.
    destruct (list_find _ (reloading w)) as [[i [o c']] |] eqn:Ef; [| done].
    pose proof (list_find_snd _ _ _ _ Ef) as Hi. simpl in Hi.
    assert (a ≠ c) as Hne.
    { intros ->. apply Hr. apply list_elem_of_fmap. exists (o, c).
      split; [done |]. by eapply list_elem_of_lookup_2. }
    rewrite manager_slot_unfold. simpl.
    rewrite (bool_decide_ext _ _ (elem_of_snd_delete _ _ _ _ _ Hi Hne)).
    by rewrite bool_decide_eq_false_2.
  - apply bool_decide_eq_false in Hop. unfold dispose.
    destruct (ready w a') as [s' |] eqn:E; [| done].
    destruct (_jupyterSessionManagerPromise s') as [p' |] eqn:Es; simpl; [| done].
    rewrite manager_slot_unfold. simpl. rewrite react_sessions, react_reloading.
    rewrite bool_decide_eq_false_2 by done. by rewrite list_lookup_alter_ne.
  - unfold settle_acquire.
    destruct (promises w !! q) as [[[a' | a' | p'] [] rs] |]; try done.
    destruct (sessions w !! a') as [this |]; [| done].
    destruct (Acquire.createJupyterSessionManager _ _ _ _) as [[m | e |] eff];
      [| | done]; rewrite manager_slot_unfold; simpl;
      rewrite settle_sessions, settle_reloading;
      by rewrite bool_decide_eq_false_2.
  - unfold settle_plugins.
    destruct (promises w !! q) as [[[a' | a' | p'] [] rs] |]; try done.
    rewrite manager_slot_unfold. rewrite settle_sessions, settle_reloading.
    by rewrite bool_decide_eq_false_2.
  - destruct (jobs w) as [| [r st] js]; [done |].
    unfold run_job.
    destruct r as [| a' q | q];
      [destruct st as [| [[m |] | reg] | e] | destruct st as [| [m | reg] | e] |];
      rewrite manager_slot_unfold; simpl;
      rewrite ?settle_sessions, ?settle_reloading; simpl;
      rewrite bool_decide_eq_false_2 by done;
      rewrite ?lookup_alter_bind by done; done.
Qed.

Lemma manager_slot_run (ops : list Op) : ∀ (w : World) a p,
  manager_slot w a = Some p →
  disposals a ops = 0 →
  manager_slot (run ops w) a = Some p.
Proof.
  induction ops as [| op ops IH]; intros w a p Hs Hd; [done |].
  rewrite disposals_cons in Hd. rewrite run_cons. apply IH; [| lia].
  apply manager_slot_step; [done |]. destruct (is_dispose_call a op); [lia | done].
Qed.

(** A promise is handed to a caller of [jupyterSessionManager()] on [a]
    only by that call, and it is the promise of the slot then. *)
Lemma returned_step (w : World) (op : Op) a p :
  EvManagerReturned a p ∈ events (step w op) →
  EvManagerReturned a p ∈ events w ∨ manager_slot (step w op) a = Some p.
Proof.
  destruct op as [lg lm | a' f | a' | a' | a' | c st | c | a' | q sv env fuel | q r |];
    simpl.
  - constructing. auto.
  - destruct (ready w a'); auto.
  - unfold jupyterSessionManager.
    destruct (ready w a') as [s' |] eqn:E; [| auto].
    pose proof (ready_lookup _ _ _ E) as El.
    pose proof (ready_not_reloading _ _ _ E) as Er.
    destruct (_jupyterSessionManagerPromise s') as [p' |] eqn:Es; simpl.
    + rewrite elem_of_app, list_elem_of_singleton. intros [? | [= <- <-]]; [auto |].
      right. rewrite manager_slot_unfold. simpl.
      rewrite bool_decide_eq_false_2 by done. rewrite El. done.
    + rewrite !elem_of_app, !list_elem_of_singleton.
      intros [[? | ?] | [= <- <-]]; [auto | done |].
      right. rewrite manager_slot_unfold. simpl.
      rewrite bool_decide_eq_false_2 by done.
      rewrite list_lookup_alter_eq, El. done.
  - unfold loadPlugins.
    destruct (ready w a') as [s' |] eqn:E; [| auto].
    destruct (_pluginPromise s') as [p' |] eqn:Es; simpl;
      rewrite ?elem_of_app, ?list_elem_of_singleton, react_events; simpl;
      rewrite ?elem_of_app, ?list_elem_of_singleton; intuition congruence.
  - unfold clone_begin. destruct (ready w a'); [| auto]. constructing. auto.
  - unfold clone_end.
    destruct (list_find _ (reloading w)) as [[i [o c']] |]; [| auto].
    destruct (sessions w !! o); auto.
  - unfold clone_abort.
    destruct (list_find _ (reloading w)) as [[i [o c']] |]; auto.
  - unfold dispose. destruct (ready w a') as [s' |]; [| auto].
    destruct (_jupyterSessionManagerPromise s'); simpl; [| auto].
    rewrite react_events. auto.
  - unfold settle_acquire.
    destruct (promises w !! q) as [[[a' | a' | p'] [] rs] |]; auto.
    destruct (sessions w !! a') as [this |]; [| auto].
    destruct (Acquire.createJupyterSessionManager _ _ _ _) as [[m | e |] eff];
      [| | auto]; simpl; rewrite elem_of_app, settle_events, list_elem_of_fmap;
      intros [? | (l & ? & _)]; auto; done.
  - unfold settle_plugins.
    destruct (promises w !! q) as [[[a' | a' | p'] [] rs] |]; auto.
    rewrite settle_events. auto.
  - destruct (jobs w) as [| [r st] js]; [auto |].
    unfold run_job.
    destruct r as [| a' q | q];
      [destruct st as [| [[m |] | reg] | e] | destruct st as [| [m | reg] | e] |];
      simpl; rewrite ?settle_events; simpl; auto.
    rewrite elem_of_app, list_elem_of_singleton. intros [? | ?]; [auto | done].
Qed.

(** The promise of a call of [createJupyterSessionManager] on [a] is put
    in the slot of [a] by the step that makes the call. *)
Lemma started_step (w : World) (op : Op) a p :
  EvAcquire a p ∈ events (step w op) →
  EvAcquire a p ∈ events w ∨ manager_slot (step w op) a = Some p.
Proof.
  destruct op as [lg lm | a' f | a' | a' | a' | c st | c | a' | q sv env fuel | q r |];
    simpl.
  - constructing. auto.
  - destruct (ready w a'); auto.
  - unfold jupyterSessionManager.
    destruct (ready w a') as [s' |] eqn:E; [| auto].
    pose proof (ready_lookup _ _ _ E) as El.
    pose proof (ready_not_reloading _ _ _ E) as Er.
    destruct (_jupyterSessionManagerPromise s') as [p' |] eqn:Es; simpl.
    + rewrite elem_of_app, list_elem_of_singleton. intros [? | ?]; [auto | done].
    + rewrite !elem_of_app, !list_elem_of_singleton.
      intros [[? | [= <- <-]] | ?]; [auto | | done].
      right. rewrite manager_slot_unfold. simpl.
      rewrite bool_decide_eq_false_2 by done.
      rewrite list_lookup_alter_eq, El. done.
  - unfold loadPlugins.
    destruct (ready w a') as [s' |] eqn:E; [| auto].
    destruct (_pluginPromise s') as [p' |] eqn:Es; simpl;
      rewrite ?elem_of_app, ?list_elem_of_singleton, react_events; simpl;
      rewrite ?elem_of_app, ?list_elem_of_singleton; intuition congruence.
  - unfold clone_begin. destruct (ready w a'); [| auto]. constructing. auto.
  - unfold clone_end.
    destruct (list_find _ (reloading w)) as [[i [o c']] |]; [| auto].
    destruct (sessions w !! o); auto.
  - unfold clone_abort.
    destruct (list_find _ (reloading w)) as [[i [o c']] |]; auto.
  - unfold dispose. destruct (ready w a') as [s' |]; [| auto].
    destruct (_jupyterSessionManagerPromise s'); simpl; [| auto].
    rewrite react_events. auto.
  - unfold settle_acquire.
    destruct (promises w !! q) as [[[a' | a' | p'] [] rs] |]; auto.
    destruct (sessions w !! a') as [this |]; [| auto].
    destruct (Acquire.createJupyterSessionManager _ _ _ _) as [[m | e |] eff];
      [| | auto]; simpl; rewrite elem_of_app, settle_events, list_elem_of_fmap;
      intros [? | (l & ? & _)]; auto; done.
  - unfold settle_plugins.
    destruct (promises w !! q) as [[[a' | a' | p'] [] rs] |]; auto.
    rewrite settle_events. auto.
  - destruct (jobs w) as [| [r st] js]; [auto |].
    unfold run_job.
    destruct r as [| a' q | q];
      [destruct st as [| [[m |] | reg] | e] | destruct st as [| [m | reg] | e] |];
      simpl; rewrite ?settle_events; simpl; auto.
    rewrite elem_of_app, list_elem_of_singleton. intros [? | ?]; [auto | done].
Qed.

(** *** Promises: settled once, and how the primitives change them *)

Lemma settle_cases p st (w : World) :
  (∃ pp, promises w !! p = Some pp ∧ state pp = Pending ∧
         promises (settle p st w) =
           <[p := {| kind := kind pp; state := st; reactions := [] |}]> (promises w) ∧
         jobs (settle p st w) = jobs w ++ ((λ r, (r, st)) <$> reactions pp)) ∨
  (settle p st w = w ∧ ∀ pp, promises w !! p = Some pp → state pp ≠ Pending).
Proof.
  unfold settle. destruct (promises w !! p) as [pp |] eqn:E.
  - destruct (state pp) eqn:Es.
    + left. exists pp. by rewrite Es.
    + right. split; [done |]. intros ? [= <-]. by rewrite Es.
    + right. split; [done |]. intros ? [= <-]. by rewrite Es.
  - right. split; [done |]. by intros.
Qed.

Lemma react_cases p r (w : World) :
  (∃ pp, promises w !! p = Some pp ∧ state pp = Pending ∧
         promises (react p r w) =
           <[p := {| kind := kind pp; state := Pending;
                     reactions := reactions pp ++ [r] |}]> (promises w) ∧
         jobs (react p r w) = jobs w) ∨
  (∃ pp, promises w !! p = Some pp ∧ state pp ≠ Pending ∧
         promises (react p r w) = promises w ∧
         jobs (react p r w) = jobs w ++ [(r, state pp)]) ∨
  (promises w !! p = None ∧ react p r w = w).
Proof.
  unfold react. destruct (promises w !! p) as [pp |] eqn:E.
  - destruct (state pp) eqn:Es.
    + left. exists pp. by rewrite Es.
    + right. left. exists pp. by rewrite Es.
    + right. left. exists pp. by rewrite Es.
  - right. right. done.
Qed.

Lemma pstate_settle p st q stq (w : World) :
  pstate w q = Some stq → stq ≠ Pending → pstate (settle p st w) q = Some stq.
Proof.
  intros Hq Hs. destruct (settle_cases p st w) as [(pp & Hp & Hpend & Hps & _) | [-> _]];
    [| done].
  unfold pstate in *. rewrite Hps. destruct (decide (p = q)) as [-> | Hne].
  - rewrite Hp in Hq. simpl in Hq. congruence.
  - by rewrite list_lookup_insert_ne.
Qed.

Lemma pstate_react p r q stq (w : World) :
  pstate w q = Some stq → stq ≠ Pending → pstate (react p r w) q = Some stq.
Proof.
  intros Hq Hs.
  destruct (react_cases p r w)
    as [(pp & Hp & Hpend & Hps & _) | [(pp & _ & _ & Hps & _) | [_ ->]]]; [| | done].
  - unfold pstate in *. rewrite Hps. destruct (decide (p = q)) as [-> | Hne].
    + rewrite Hp in Hq. simpl in Hq. congruence.
    + by rewrite list_lookup_insert_ne.
  - unfold pstate in *. by rewrite Hps.
Qed.

Lemma pstate_alloc k q stq (w : World) :
  pstate w q = Some stq → pstate (alloc k w) q = Some stq.
Proof.
  unfold pstate. simpl. destruct (promises w !! q) as [pq |] eqn:E; [| done].
  by rewrite (lookup_app_l_Some _ _ _ _ E).
Qed.

(** A promise that has settled keeps its state under every step. *)
Lemma pstate_step (w : World) (op : Op) p st :
  pstate w p = Some st → st ≠ Pending → pstate (step w op) p = Some st.
Proof.
  intros Hp Hs.
  destruct op as [lg lm | a' f | a' | a' | a' | c st' | c | a' | q sv env fuel | q r |];
    simpl.
  - by constructing.
  - by destruct (ready w a').
  - unfold jupyterSessionManager. destruct (ready w a') as [s' |]; [| done].
    destruct (_jupyterSessionManagerPromise s'); simpl; [done |].
    by apply (pstate_alloc (KAcquire a')).
  - unfold loadPlugins. destruct (ready w a') as [s' |]; [| done].
    destruct (_pluginPromise s') as [p' |]; simpl.
    + change (pstate (react p' (RReturn (List.length (promises w)))
                        (alloc (KFollows p') w)) p = Some st).
      apply pstate_react; [by apply pstate_alloc | done].
    + match goal with |- pstate (emit _ (react ?x ?r ?w0)) _ = _ =>
        change (pstate (react x r w0) p = Some st) end.
      apply pstate_react; [| done].
      match goal with |- pstate (alloc ?k (with_sessions ?f (emit ?e ?w0))) _ = _ =>
        change (pstate (alloc k w0) p = Some st) end.
      by apply pstate_alloc, pstate_alloc.
  - unfold clone_begin. destruct (ready w a'); [| done]. by constructing.
  - unfold clone_end. destruct (list_find _ _) as [[i [o c']] |]; [| done].
    by destruct (sessions w !! o).
  - unfold clone_abort. by destruct (list_find _ _) as [[i [o c']] |].
  - unfold dispose. destruct (ready w a') as [s' |]; [| done].
    destruct (_jupyterSessionManagerPromise s') as [p' |]; simpl; [| done].
    change (pstate (react p' RDispose w) p = Some st). by apply pstate_react.
  - unfold settle_acquire.
    destruct (promises w !! q) as [[[a' | a' | p'] [] rs] |]; try done.
    destruct (sessions w !! a') as [this |]; [| done].
    destruct (Acquire.createJupyterSessionManager _ _ _ _) as [[m | e |] eff];
      [| | done].
    + change (pstate (settle q (Fulfilled (VManager m)) w) p = Some st).
      by apply pstate_settle.
    + change (pstate (settle q (Rejected e) w) p = Some st). by apply pstate_settle.
  - unfold settle_plugins.
    destruct (promises w !! q) as [[[a' | a' | p'] [] rs] |]; try done.
    by apply pstate_settle.
  - destruct (jobs w) as [| [r st'] js]; [done |].
    unfold run_job.
    destruct r as [| a' q | q];
      [destruct st' as [| [[m |] | reg] | e] | destruct st' as [| [m | reg] | e] |];
      try done; by apply pstate_settle.
Qed.

Lemma pstate_run (ops : list Op) : ∀ (w : World) p st,
  pstate w p = Some st → st ≠ Pending → pstate (run ops w) p = Some st.
Proof.
  induction ops as [| op ops IH]; intros w p st Hp Hs; [done |].
  rewrite run_cons. apply IH; [| done]. by apply pstate_step.
Qed.

(** *** The invariant of promises and jobs *)

Lemma wf_promises_proper (w w' : World) :
  promises w' = promises w → jobs w' = jobs w → wf_promises w → wf_promises w'.
Proof.
  intros Hp Hj [H1 H2 H3 H4].
  split; unfold follows in *; rewrite ?Hp, ?Hj; auto.
Qed.

Lemma follows_transfer (w w' : World) q p :
  follows w q p →
  promises w' !! q = promises w !! q →
  (∀ pp, promises w !! p = Some pp →
     ∃ pp', promises w' !! p = Some pp' ∧ kind pp' = kind pp ∧
            state pp' = state pp ∧ ∀ r, r ∈ reactions pp → r ∈ reactions pp') →
  (∀ r st, (r, st) ∈ jobs w → target r = Some q → (r, st) ∈ jobs w') →
  follows w' q p.
Proof.
  intros (pq & pp & a & Hq & Hp & Hk & Hr & Hst) Hq' Hp' Hj.
  destruct (Hp' _ Hp) as (pp' & Hpp' & Hk' & Hs' & Hrs).
  exists pq, pp', a. rewrite Hq', Hk', Hs'. repeat split; try done.
  destruct (state pq); [| done ..].
  destruct Hst as [[Hpend (r & Hin & Ht)] | [Hset (r & Hin & Ht)]].
  - left. split; [done |]. exists r. auto.
  - right. split; [done |]. exists r. auto.
Qed.

Lemma wf_promises_alloc (w : World) k :
  (∀ p, k ≠ KFollows p) → wf_promises w → wf_promises (alloc k w).
Proof.
  intros Hk [H1 H2 H3 H4].
  assert (∀ i x, promises w !! i = Some x → promises (alloc k w) !! i = Some x) as Hmono.
  { intros i x Hi. simpl. by apply lookup_app_l_Some. }
  assert (∀ i x, promises (alloc k w) !! i = Some x →
                 promises w !! i = Some x ∨
                 x = {| kind := k; state := Pending; reactions := [] |}) as Hinv.
  { intros i x. simpl. rewrite lookup_app_Some.
    intros [? | [_ Hx]]; [auto |]. right.
    apply list_elem_of_lookup_2, list_elem_of_singleton in Hx. done. }
  split.
  - intros q pq p Hq Hkind. destruct (Hinv _ _ Hq) as [Hq' | ->].
    + eapply follows_transfer; [by eapply H1 | | | done].
      * by rewrite Hq, Hq'.
      * intros pp Hpp. exists pp. auto.
    + simpl in Hkind. by destruct (Hk p).
  - intros r st q Hin Ht. destruct (H2 r st q Hin Ht) as (Hs & pq & p & pp & ? & ? & ? & ?).
    split; [done |]. exists pq, p, pp. auto.
  - intros p pp r q Hp Hr Ht. destruct (Hinv _ _ Hp) as [Hp' | ->].
    + destruct (H3 _ _ _ _ Hp' Hr Ht) as (Hs & pq & ? & ?). split; [done |].
      exists pq. auto.
    + simpl in Hr. by apply elem_of_nil in Hr.
  - intros p pp a e Hp Hkind. destruct (Hinv _ _ Hp) as [Hp' | ->]; [eauto | done].
Qed.

(** [dispose()] attaches its callback to the promise of an acquisition. *)
Lemma wf_promises_react_dispose (w : World) p pp a :
  promises w !! p = Some pp → kind pp = KAcquire a →
  wf_promises w → wf_promises (react p RDispose w).
Proof.
  intros Hp Hk [H1 H2 H3 H4].
  destruct (react_cases p RDispose w)
    as [(pp' & Hp' & Hpend & Hps & Hjs) | [(pp' & Hp' & Hset & Hps & Hjs) | [_ ->]]];
    [| | done]; rewrite Hp in Hp'; injection Hp' as <-.
  - assert (∀ i x, promises w !! i = Some x →
              ∃ x', promises (react p RDispose w) !! i = Some x' ∧ kind x' = kind x ∧
                    state x' = state x ∧ (∀ r, r ∈ reactions x → r ∈ reactions x') ∧
                    (i ≠ p → x' = x)) as Hfwd.
    { intros i x Hi. rewrite Hps. destruct (decide (p = i)) as [<- | Hne].
      - rewrite list_lookup_insert_eq by (by eapply lookup_lt_Some).
        rewrite Hp in Hi. injection Hi as <-. eexists. repeat split; simpl; try done.
        intros r Hr. apply elem_of_app. auto.
      - rewrite list_lookup_insert_ne by done. exists x. auto. }
    assert (∀ i x', promises (react p RDispose w) !! i = Some x' →
              ∃ x, promises w !! i = Some x ∧ kind x' = kind x ∧ state x' = state x ∧
                   (∀ r, r ∈ reactions x' → r ∈ reactions x ∨ r = RDispose) ∧
                   (i ≠ p → x' = x)) as Hbwd.
    { intros i x'. rewrite Hps. destruct (decide (p = i)) as [<- | Hne].
      - rewrite list_lookup_insert_eq by (by eapply lookup_lt_Some).
        intros [= <-]. exists pp. repeat split; simpl; try done.
        intros r [? | ->%list_elem_of_singleton]%elem_of_app; auto.
      - rewrite list_lookup_insert_ne by done. intros Hi. exists x'.
        repeat split; auto. }
    split.
    + intros q pq p0 Hq Hkind.
      destruct (Hbwd _ _ Hq) as (x & Hx & Hkx & _ & _ & Heq).
      assert (q ≠ p) as Hne by (intros ->; congruence).
      rewrite (Heq Hne) in *. eapply follows_transfer; [by eapply H1 | | | ].
      * by rewrite Hq, Hx.
      * intros pp0 Hpp0. destruct (Hfwd _ _ Hpp0) as (x' & ? & ? & ? & ? & _).
        exists x'. auto.
      * intros r st Hin _. by rewrite Hjs.
    + intros r st q Hin Ht. rewrite Hjs in Hin.
      destruct (H2 r st q Hin Ht) as (Hs & pq & p0 & pp0 & Hq & Hkq & Hp0 & Hst).
      split; [done |].
      destruct (Hfwd _ _ Hq) as (pq' & ? & ? & _).
      destruct (Hfwd _ _ Hp0) as (pp0' & ? & _ & ? & _).
      exists pq', p0, pp0'. repeat split; congruence.
    + intros p0 pp0 r q Hp0 Hr Ht.
      destruct (Hbwd _ _ Hp0) as (x & Hx & _ & Hsx & Hrs & _).
      destruct (Hrs _ Hr) as [Hr' | ->]; [| done].
      destruct (H3 _ _ _ _ Hx Hr' Ht) as (Hs & pq & Hq & Hkq).
      split; [congruence |].
      destruct (Hfwd _ _ Hq) as (pq' & ? & ? & _). exists pq'. split; congruence.
    + intros p0 pp0 a0 e Hp0 Hkind.
      destruct (Hbwd _ _ Hp0) as (x & Hx & Hkx & Hsx & _).
      rewrite Hsx. eapply H4; [exact Hx | rewrite <- Hkx; exact Hkind].
  - split.
    + intros q pq p0 Hq Hkind. rewrite Hps in Hq.
      eapply follows_transfer; [by eapply H1 | by rewrite Hps | | ].
      * intros pp0 Hpp0. exists pp0. rewrite Hps. auto.
      * intros r st Hin _. rewrite Hjs. apply elem_of_app. auto.
    + intros r st q. rewrite Hjs, Hps, elem_of_app, list_elem_of_singleton.
      intros [Hin | [= -> ->]] Ht; [eauto | done].
    + rewrite Hps. eauto.
    + rewrite Hps. eauto.
Qed.

(** A promise of an acquisition or of the plugins module settles. *)
Lemma wf_promises_settle (w : World) p pp st :
  promises w !! p = Some pp →
  (∀ p0, kind pp ≠ KFollows p0) →
  st ≠ Pending →
  (∀ a e, kind pp = KAcquire a → st ≠ Rejected e) →
  wf_promises w → wf_promises (settle p st w).
Proof.
  intros Hp Hk Hst Hacq [H1 H2 H3 H4].
  destruct (settle_cases p st w) as [(pp' & Hp' & Hpend & Hps & Hjs) | [-> _]];
    [| done].
  rewrite Hp in Hp'. injection Hp' as <-.
  pose proof (lookup_lt_Some _ _ _ Hp) as Hlt.
  assert (∀ i, i ≠ p → promises (settle p st w) !! i = promises w !! i) as Hother.
  { intros i Hi. rewrite Hps. by apply list_lookup_insert_ne. }
  assert (promises (settle p st w) !! p =
          Some {| kind := kind pp; state := st; reactions := [] |}) as Hnew.
  { rewrite Hps. by apply list_lookup_insert_eq. }
  assert (∀ q pq p0, promises w !! q = Some pq → kind pq = KFollows p0 → q ≠ p)
    as Hfollower.
  { intros q pq p0 Hq Hkq ->. rewrite Hp in Hq. injection Hq as <-. by eapply Hk. }
  split.
  - intros q pq p0 Hq Hkq.
    assert (q ≠ p) as Hne.
    { intros ->. rewrite Hnew in Hq. injection Hq as <-. by eapply Hk. }
    rewrite Hother in Hq by done.
    pose proof (H1 _ _ _ Hq Hkq) as Hf.
    destruct (decide (p0 = p)) as [-> | Hne0].
    + destruct Hf as (pq' & pp' & a & Hq' & Hp' & Hka & Hr & Hs).
      rewrite Hp in Hp'. injection Hp' as <-.
      exists pq', {| kind := kind pp; state := st; reactions := [] |}, a.
      rewrite Hother by done. repeat split; try done. simpl.
      destruct (state pq') eqn:Eq; [| congruence ..].
      destruct Hs as [[_ (r & Hin & Ht)] | [? _]]; [| done].
      right. split; [done |]. exists r. split; [| done].
      rewrite Hjs. apply elem_of_app. right.
      apply list_elem_of_fmap. by exists r.
    + eapply follows_transfer; [done | by apply Hother | | ].
      * intros pp0 Hpp0. exists pp0. rewrite Hother by done. auto.
      * intros r st' Hin _. rewrite Hjs. apply elem_of_app. auto.
  - intros r st' q. rewrite Hjs, elem_of_app, list_elem_of_fmap.
    intros [Hin | (r' & [= -> ->] & Hin)] Ht.
    + destruct (H2 _ _ _ Hin Ht) as (Hs & pq & p0 & pp0 & Hq & Hkq & Hp0 & Hs0).
      split; [done |]. exists pq, p0, pp0.
      rewrite !Hother; [done | | by eapply Hfollower].
      intros ->. rewrite Hp in Hp0. injection Hp0 as <-. congruence.
    + destruct (H3 _ _ _ _ Hp Hin Ht) as (_ & pq & Hq & Hkq).
      split; [done |]. exists pq, p, {| kind := kind pp; state := st; reactions := [] |}.
      rewrite Hother by (by eapply Hfollower). done.
  - intros p0 pp0 r q Hp0 Hr Ht.
    destruct (decide (p0 = p)) as [-> | Hne0].
    + rewrite Hnew in Hp0. injection Hp0 as <-. by apply elem_of_nil in Hr.
    + rewrite Hother in Hp0 by done.
      destruct (H3 _ _ _ _ Hp0 Hr Ht) as (Hs & pq & Hq & Hkq).
      split; [done |]. exists pq. rewrite Hother by (by eapply Hfollower). done.
  - intros p0 pp0 a e Hp0 Hkind.
    destruct (decide (p0 = p)) as [-> | Hne0].
    + rewrite Hnew in Hp0. injection Hp0 as <-. simpl in *. by eapply Hacq.
    + rewrite Hother in Hp0 by done. eauto.
Qed.

(** The job at the head of the queue settles the promise of a call of
    [loadPlugins]. *)
Lemma wf_promises_job_settle (w : World) r st js q :
  jobs w = (r, st) :: js → target r = Some q →
  wf_promises w → wf_promises (settle q st (with_jobs (λ _, js) w)).
Proof.
  intros Hj Ht [H1 H2 H3 H4].
  assert ((r, st) ∈ jobs w) as Hhead by (rewrite Hj; apply elem_of_cons; auto).
  destruct (H2 _ _ _ Hhead Ht) as (Hst & pq & p & pp & Hq & Hkq & Hp & Hsp).
  destruct (H1 _ _ _ Hq Hkq) as (pq' & pp' & a & Hq' & Hp' & Hka & Hrq & Hfq).
  rewrite Hq in Hq'. injection Hq' as <-. rewrite Hp in Hp'. injection Hp' as <-.
  assert (q ≠ p) as Hqp by (intros ->; congruence).
  set (w' := settle q st (with_jobs (λ _, js) w)).
  assert (∃ pq', promises w' !! q = Some pq' ∧ kind pq' = KFollows p ∧
                 reactions pq' = [] ∧ state pq' = st ∧
                 (∀ i, i ≠ q → promises w' !! i = promises w !! i) ∧
                 jobs w' = js) as (pq' & Hq' & Hkq' & Hrq' & Hsq' & Hother & Hjs).
  { subst w'.
    destruct (settle_cases q st (with_jobs (λ _, js) w))
      as [(x & Hx & Hpend & Hps & Hjs) | [Heq Hset]]; simpl in *.
    - rewrite Hq in Hx. injection Hx as <-.
      exists {| kind := kind pq; state := st; reactions := [] |}.
      rewrite Hps, Hjs, Hrq. simpl.
      rewrite list_lookup_insert_eq by (by eapply lookup_lt_Some).
      repeat split; try done.
      + intros i Hi. by rewrite list_lookup_insert_ne.
      + by rewrite app_nil_r.
    - rewrite Heq. simpl. exists pq. repeat split; try done.
      specialize (Hset _ Hq). destruct (state pq); [done | congruence ..]. }
  clearbody w'.
  assert (∀ q0 pq0 p0, promises w !! q0 = Some pq0 → kind pq0 = KFollows p0 →
                       p0 ≠ q) as Hsource.
  { intros q0 pq0 p0 Hq0 Hk0 ->.
    destruct (H1 _ _ _ Hq0 Hk0) as (_ & x & a0 & _ & Hx & Hkx & _).
    rewrite Hq in Hx. injection Hx as <-. congruence. }
  split.
  - intros q0 pq0 p0 Hq0 Hk0. destruct (decide (q0 = q)) as [-> | Hne].
    + rewrite Hq' in Hq0. injection Hq0 as <-.
      assert (p0 = p) as -> by congruence.
      exists pq', pp, a. rewrite (Hother p) by (apply not_eq_sym; exact Hqp).
      repeat split; try done.
      rewrite Hsq'. destruct st; [done | congruence ..].
    + rewrite Hother in Hq0 by done.
      eapply follows_transfer; [by eapply H1 | by apply Hother | | ].
      * intros pp0 Hpp0. exists pp0.
        rewrite Hother by exact (Hsource _ _ _ Hq0 Hk0). auto.
      * intros r' st' Hin Ht'. rewrite Hjs. rewrite Hj in Hin.
        apply elem_of_cons in Hin as [[= -> ->] | ?]; [congruence | done].
  - intros r' st' q0 Hin Ht'. rewrite Hjs in Hin.
    assert ((r', st') ∈ jobs w) as Hin' by (rewrite Hj; apply elem_of_cons; auto).
    destruct (H2 _ _ _ Hin' Ht') as (Hs & pq0 & p0 & pp0 & Hq0 & Hk0 & Hp0 & Hs0).
    split; [done |].
    rewrite <- (Hother p0) in Hp0 by exact (Hsource _ _ _ Hq0 Hk0).
    destruct (decide (q0 = q)) as [-> | Hne].
    + exists pq', p0, pp0. repeat split; try done. congruence.
    + exists pq0, p0, pp0. rewrite Hother by done. done.
  - intros p0 pp0 r' q0 Hp0 Hr' Ht'. destruct (decide (p0 = q)) as [-> | Hne].
    + rewrite Hq' in Hp0. injection Hp0 as <-. rewrite Hrq' in Hr'.
      by apply elem_of_nil in Hr'.
    + rewrite Hother in Hp0 by done.
      destruct (H3 _ _ _ _ Hp0 Hr' Ht') as (Hs & pq0 & Hq0 & Hk0).
      split; [done |]. destruct (decide (q0 = q)) as [-> | Hne'].
      * exists pq'. split; [done |]. congruence.
      * exists pq0. by rewrite Hother.
  - intros p0 pp0 a0 e Hp0 Hk0. destruct (decide (p0 = q)) as [-> | Hne].
    + rewrite Hq' in Hp0. injection Hp0 as <-. congruence.
    + rewrite Hother in Hp0 by done. eauto.
Qed.

(** The job at the head of the queue is a teardown callback. *)
Lemma wf_promises_job_dispose (w : World) st js :
  jobs w = (RDispose, st) :: js →
  wf_promises w → wf_promises (with_jobs (λ _, js) w).
Proof.
  intros Hj [H1 H2 H3 H4]. split; simpl; [| | done ..].
  - intros q pq p Hq Hk.
    eapply follows_transfer; [by eapply H1 | done | | ].
    + intros pp Hpp. exists pp. auto.
    + intros r st' Hin Ht. simpl. rewrite Hj in Hin.
      apply elem_of_cons in Hin as [[= -> ->] | ?]; done.
  - intros r st' q Hin Ht. apply (H2 r st' q); [| done].
    rewrite Hj. apply elem_of_cons. auto.
Qed.

(** A call of [loadPlugins] makes its own promise and attaches it to the
    promise of the factory. *)
Lemma wf_promises_attach (w : World) p pp a r :
  promises w !! p = Some pp → kind pp = KLoadPlugins a →
  target r = Some (List.length (promises w)) →
  wf_promises w → wf_promises (react p r (alloc (KFollows p) w)).
Proof.
  intros Hp Hk Ht [H1 H2 H3 H4].
  set (n := List.length (promises w)) in *.
  set (new := {| kind := KFollows p; state := Pending; reactions := [] |}).
  set (w' := react p r (alloc (KFollows p) w)).
  pose proof (lookup_lt_Some _ _ _ Hp) as Hlt. fold n in Hlt.
  assert (promises (alloc (KFollows p) w) !! p = Some pp) as Hp1.
  { simpl. by apply lookup_app_l_Some. }
  assert (∃ pp', promises w' !! p = Some pp' ∧ kind pp' = kind pp ∧
                 state pp' = state pp ∧
                 (∀ r0, r0 ∈ reactions pp' →
                        r0 ∈ reactions pp ∨ (r0 = r ∧ state pp = Pending)) ∧
                 (∀ r0, r0 ∈ reactions pp → r0 ∈ reactions pp') ∧
                 (state pp = Pending → r ∈ reactions pp') ∧
                 (state pp ≠ Pending → (r, state pp) ∈ jobs w') ∧
                 (∀ j, j ∈ jobs w → j ∈ jobs w') ∧
                 (∀ j, j ∈ jobs w' → j ∈ jobs w ∨ (j = (r, state pp) ∧ state pp ≠ Pending)) ∧
                 (∀ i, i ≠ p → promises w' !! i = (promises w ++ [new]) !! i))
    as (pp' & Hp' & Hk' & Hs' & Hrs' & Hrs & Hrp & Hrj & Hjs & Hjs' & Hother).
  { subst w'.
    destruct (react_cases p r (alloc (KFollows p) w))
      as [(x & Hx & Hpend & Hps & Hjs) | [(x & Hx & Hset & Hps & Hjs) | [Hx _]]];
      rewrite Hp1 in Hx; [| | done]; injection Hx as <-.
    - eexists. rewrite Hps, Hjs.
      rewrite list_lookup_insert_eq by (simpl; rewrite length_app; simpl; lia).
      split; [done |]. simpl. repeat split; try done.
      + intros r0 [? | ->%list_elem_of_singleton]%elem_of_app; auto.
      + intros r0 ?. apply elem_of_app. auto.
      + intros _. apply elem_of_app. right. by apply list_elem_of_singleton.
      + auto.
      + intros i Hi. by rewrite list_lookup_insert_ne.
    - exists pp. rewrite Hps, Hjs. simpl. repeat split; try done; auto.
      + intros _. apply elem_of_app. right. by apply list_elem_of_singleton.
      + intros j ?. apply elem_of_app. auto.
      + intros j [? | ->%list_elem_of_singleton]%elem_of_app; auto. }
  clearbody w'.
  assert (promises w' !! n = Some new) as Hn.
  { rewrite Hother by lia. by rewrite lookup_app_r, Nat.sub_diag. }
  assert (∀ i x, promises w !! i = Some x →
            ∃ x', promises w' !! i = Some x' ∧ kind x' = kind x ∧
                  state x' = state x ∧ (∀ r0, r0 ∈ reactions x → r0 ∈ reactions x') ∧
                  (i ≠ p → x' = x)) as Hfwd.
  { intros i x Hi. destruct (decide (i = p)) as [-> | Hne].
    - rewrite Hp in Hi. injection Hi as <-. exists pp'.
      repeat split; auto. done.
    - exists x. rewrite Hother by done.
      rewrite (lookup_app_l_Some _ _ _ _ Hi). auto. }
  assert (∀ i x', promises w' !! i = Some x' → i ≠ n → i ≠ p →
                  promises w !! i = Some x') as Hbwd.
  { intros i x' Hi Hin Hip. rewrite Hother in Hi by done.
    apply lookup_app_Some in Hi as [? | [? Hi]]; [done |].
    apply lookup_lt_Some in Hi. simpl in Hi. lia. }
  assert (∀ q pq p0, promises w !! q = Some pq → kind pq = KFollows p0 → q ≠ p)
    as Hfollower.
  { intros q pq p0 Hq Hkq ->. congruence. }
  split.
  - intros q pq p0 Hq Hkq. destruct (decide (q = n)) as [-> | Hqn].
    + rewrite Hn in Hq. injection Hq as <-. simpl in Hkq. injection Hkq as <-.
      exists new, pp', a. repeat split; try done; [congruence |]. simpl.
      rewrite Hs'.
      assert (state pp = Pending ∨ state pp ≠ Pending) as [Hpend | Hset]
        by (destruct (state pp); auto).
      * left. split; [done |]. exists r. auto.
      * right. split; [done |]. exists r. auto.
    + assert (q ≠ p) as Hqp by (intros ->; congruence).
      pose proof (Hbwd _ _ Hq Hqn Hqp) as Hq0.
      eapply follows_transfer; [by eapply H1 | congruence | | by auto].
      intros pp0 Hpp0. destruct (Hfwd _ _ Hpp0) as (x' & ? & ? & ? & ? & _).
      exists x'. auto.
  - intros r0 st q Hin Ht0. destruct (Hjs' _ Hin) as [Hold | [[= -> ->] Hset]].
    + destruct (H2 _ _ _ Hold Ht0) as (Hs & pq & p0 & pp0 & Hq & Hkq & Hp0 & Hs0).
      split; [done |].
      destruct (Hfwd _ _ Hq) as (pq' & Hq' & _ & _ & _ & Heq).
      rewrite (Heq (Hfollower _ _ _ Hq Hkq)) in Hq'.
      destruct (Hfwd _ _ Hp0) as (pp0' & ? & _ & ? & _).
      exists pq, p0, pp0'. repeat split; congruence.
    + split; [done |]. rewrite Ht in Ht0. injection Ht0 as <-.
      exists new, p, pp'. auto.
  - intros p0 pp0 r0 q Hp0 Hr0 Ht0. destruct (decide (p0 = n)) as [-> | Hpn].
    + rewrite Hn in Hp0. injection Hp0 as <-. by apply elem_of_nil in Hr0.
    + assert (∀ pq, promises w !! q = Some pq → kind pq = KFollows p0 →
                ∃ pq', promises w' !! q = Some pq' ∧ kind pq' = KFollows p0) as Hq.
      { intros pq Hq Hkq. destruct (Hfwd _ _ Hq) as (pq' & ? & ? & _).
        exists pq'. split; congruence. }
      destruct (decide (p0 = p)) as [-> | Hpp].
      * rewrite Hp' in Hp0. injection Hp0 as <-.
        destruct (Hrs' _ Hr0) as [Hold | [-> Hpend]].
        -- destruct (H3 _ _ _ _ Hp Hold Ht0) as (Hs & pq & ? & ?).
           split; [congruence |]. eauto.
        -- rewrite Ht in Ht0. injection Ht0 as <-.
           split; [congruence | by exists new].
      * pose proof (Hbwd _ _ Hp0 Hpn Hpp) as Hp0'.
        destruct (H3 _ _ _ _ Hp0' Hr0 Ht0) as (Hs & pq & ? & ?).
        split; [done |]. eauto.
  - intros p0 pp0 a0 e Hp0 Hk0. destruct (decide (p0 = n)) as [-> | Hpn].
    + rewrite Hn in Hp0. by injection Hp0 as <-.
    + destruct (decide (p0 = p)) as [-> | Hpp]; [congruence |].
      pose proof (Hbwd _ _ Hp0 Hpn Hpp). eauto.
Qed.

(** *** The invariant of sessions, clones under way and events *)

Lemma lookup_alter_inv (f : Session → Session) a (ss : list Session) i s' :
  alter f a ss !! i = Some s' →
  ∃ s, ss !! i = Some s ∧ s' = if decide (a = i) then f s else s.
Proof.
  destruct (decide (a = i)) as [-> | Hne].
  - rewrite list_lookup_alter_eq. destruct (ss !! i) as [s |]; [| done].
    intros [= <-]. eauto.
  - rewrite list_lookup_alter_ne by done. eauto.
Qed.

Lemma lookup_alter_fwd (f : Session → Session) a (ss : list Session) i s :
  ss !! i = Some s →
  alter f a ss !! i = Some (if decide (a = i) then f s else s).
Proof.
  intros Hi. destruct (decide (a = i)) as [-> | Hne].
  - by rewrite list_lookup_alter_eq, Hi.
  - by rewrite list_lookup_alter_ne.
Qed.

Lemma kinds_kept_refl (w w' : World) : promises w' = promises w → kinds_kept w w'.
Proof. intros Hp i x Hi. exists x. by rewrite Hp. Qed.

Lemma kinds_kept_trans (w1 w2 w3 : World) :
  kinds_kept w1 w2 → kinds_kept w2 w3 → kinds_kept w1 w3.
Proof.
  intros H12 H23 i x Hi. destruct (H12 _ _ Hi) as (x' & Hi' & Hk).
  destruct (H23 _ _ Hi') as (x'' & ? & ?). exists x''. split; congruence.
Qed.

Lemma kinds_kept_alloc (w : World) k : kinds_kept w (alloc k w).
Proof. intros i x Hi. exists x. simpl. by rewrite (lookup_app_l_Some _ _ _ _ Hi). Qed.

Lemma kinds_kept_settle (w : World) p st : kinds_kept w (settle p st w).
Proof.
  intros i x Hi.
  destruct (settle_cases p st w) as [(pp & Hp & _ & Hps & _) | [-> _]]; [| eauto].
  rewrite Hps. destruct (decide (p = i)) as [-> | Hne].
  - rewrite list_lookup_insert_eq by (by eapply lookup_lt_Some).
    rewrite Hp in Hi. injection Hi as <-. eauto.
  - rewrite list_lookup_insert_ne by done. eauto.
Qed.

Lemma kinds_kept_react (w : World) p r : kinds_kept w (react p r w).
Proof.
  intros i x Hi.
  destruct (react_cases p r w)
    as [(pp & Hp & _ & Hps & _) | [(pp & _ & _ & Hps & _) | [_ ->]]]; [| | eauto].
  - rewrite Hps. destruct (decide (p = i)) as [-> | Hne].
    + rewrite list_lookup_insert_eq by (by eapply lookup_lt_Some).
      rewrite Hp in Hi. injection Hi as <-. eauto.
    + rewrite list_lookup_insert_ne by done. eauto.
  - rewrite Hps. eauto.
Qed.

(** A step that keeps the slots of every session, the clones under way
    and the promises handed out. *)
Lemma wf_sessions_frame (w w' : World) :
  wf_sessions w →
  (∀ a s', sessions w' !! a = Some s' →
     ∃ s, sessions w !! a = Some s ∧ _pluginPromise s' = _pluginPromise s ∧
          _jupyterSessionManagerPromise s' = _jupyterSessionManagerPromise s) →
  (∀ a s, sessions w !! a = Some s →
     ∃ s', sessions w' !! a = Some s' ∧ _pluginPromise s' = _pluginPromise s) →
  List.length (sessions w') = List.length (sessions w) →
  reloading w' = reloading w →
  (∀ a q, EvPluginsReturned a q ∈ events w' → EvPluginsReturned a q ∈ events w) →
  (∀ a p, EvManagerReturned a p ∈ events w' → EvManagerReturned a p ∈ events w) →
  kinds_kept w w' →
  wf_sessions w'.
Proof.
  intros [H1 H2 H3 H4 H5 H6] Hback Hfwd Hlen Hrl Hev1 Hev2 Hk. split.
  - intros a s' p Ha Hp. destruct (Hback _ _ Ha) as (s & Hs & Hps & _).
    rewrite Hps in Hp. destruct (H1 _ _ _ Hs Hp) as (pp & Hpp & Hkp).
    destruct (Hk _ _ Hpp) as (pp' & ? & ?). exists pp'. split; congruence.
  - intros a s' p Ha Hp. destruct (Hback _ _ Ha) as (s & Hs & _ & Hms).
    rewrite Hms in Hp. destruct (H2 _ _ _ Hs Hp) as (pp & a' & Hpp & Hkp).
    destruct (Hk _ _ Hpp) as (pp' & ? & ?). exists pp', a'. split; congruence.
  - intros a q Hin. destruct (H3 _ _ (Hev1 _ _ Hin)) as (s & p & pq & Hs & Hp & Hq & Hkq).
    destruct (Hfwd _ _ Hs) as (s' & Hs' & Hps').
    destruct (Hk _ _ Hq) as (pq' & ? & ?).
    exists s', p, pq'. repeat split; congruence.
  - intros a p Hin. destruct (H4 _ _ (Hev2 _ _ Hin)) as (pp & a' & Hpp & Hkp).
    destruct (Hk _ _ Hpp) as (pp' & ? & ?). exists pp', a'. split; congruence.
  - by rewrite Hrl.
  - rewrite Hrl, Hlen. done.
Qed.

Lemma wf_sessions_proper (w w' : World) :
  sessions w' = sessions w → promises w' = promises w → events w' = events w →
  reloading w' = reloading w → wf_sessions w → wf_sessions w'.
Proof.
  intros Hs Hp He Hr Hwf. eapply wf_sessions_frame; [done | ..];
    rewrite ?Hs, ?He, ?Hr; eauto using kinds_kept_refl.
Qed.

Lemma wf_sessions_new (w w' : World) s :
  wf_sessions w →
  sessions w' = sessions w ++ [s] →
  _pluginPromise s = None → _jupyterSessionManagerPromise s = None →
  promises w' = promises w → events w' = events w → reloading w' = reloading w →
  wf_sessions w'.
Proof.
  intros [H1 H2 H3 H4 H5 H6] Hs Hps Hms Hp He Hr.
  assert (∀ a s', sessions w' !! a = Some s' →
            sessions w !! a = Some s' ∨ s' = s) as Hinv.
  { intros a s'. rewrite Hs, lookup_app_Some.
    intros [? | [_ Hx]]; [auto |]. right.
    apply list_elem_of_lookup_2, list_elem_of_singleton in Hx. done. }
  split; rewrite ?Hp, ?He, ?Hr.
  - intros a s' p Ha Hpa. destruct (Hinv _ _ Ha) as [? | ->]; [eauto | congruence].
  - intros a s' p Ha Hpa. destruct (Hinv _ _ Ha) as [? | ->]; [eauto | congruence].
  - intros a q Hin. destruct (H3 _ _ Hin) as (s0 & p & pq & Hs0 & ? & ? & ?).
    exists s0, p, pq. rewrite Hs, (lookup_app_l_Some _ _ _ _ Hs0). done.
  - done.
  - done.
  - intros o c Hin. destruct (H6 _ _ Hin) as (? & ? & ?).
    rewrite Hs, length_app. simpl. repeat split; [lia | lia | done].
Qed.

Lemma wf_sessions_clone_begin (w w' : World) s a this :
  wf_sessions w →
  ready w a = Some this →
  sessions w' = sessions w ++ [s] →
  _pluginPromise s = None → _jupyterSessionManagerPromise s = None →
  promises w' = promises w → events w' = events w →
  reloading w' = reloading w ++ [(a, List.length (sessions w))] →
  wf_sessions w'.
Proof.
  intros Hwf Ha Hs Hps Hms Hp He Hr.
  pose proof (wf_sessions_new w
    (with_sessions (λ ss, ss ++ [s]) w) s Hwf eq_refl Hps Hms eq_refl eq_refl eq_refl)
    as [H1 H2 H3 H4 H5 H6].
  simpl in *. destruct Hwf as [_ _ _ _ _ H6'].
  pose proof (ready_lookup _ _ _ Ha) as Hal. apply lookup_lt_Some in Hal.
  pose proof (ready_not_reloading _ _ _ Ha) as Har.
  assert (List.length (sessions w) ∉ (reloading w).*2) as Hfresh.
  { intros ([o c] & Hc & Hin)%list_elem_of_fmap. simpl in Hc. subst c.
    destruct (H6' _ _ Hin). lia. }
  split; rewrite ?Hs, ?Hp, ?He, ?Hr; try done.
  - rewrite fmap_app. simpl. apply NoDup_app. repeat split; [done | | apply NoDup_singleton].
    intros x Hx ->%list_elem_of_singleton. done.
  - intros o c [Hin | [= -> ->]%list_elem_of_singleton]%elem_of_app.
    + destruct (H6' _ _ Hin) as (? & ? & ?). rewrite length_app. simpl.
      repeat split; [lia | lia |]. rewrite fmap_app. simpl.
      rewrite elem_of_app, list_elem_of_singleton. intros [? | ?]; [done | lia].
    + rewrite length_app. simpl. repeat split; [lia | lia |].
      rewrite fmap_app. simpl.
      rewrite elem_of_app, list_elem_of_singleton. intros [? | ?]; [done | lia].
Qed.

Lemma wf_reloading_delete (rl : list (nat * nat)) i n :
  NoDup rl.*2 →
  (∀ o c, (o, c) ∈ rl → c < n ∧ o < n ∧ o ∉ rl.*2) →
  NoDup (delete i rl).*2 ∧
  (∀ o c, (o, c) ∈ delete i rl → c < n ∧ o < n ∧ o ∉ (delete i rl).*2).
Proof.
  intros Hnd Hall.
  assert (∀ x, x ∈ (delete i rl).*2 → x ∈ rl.*2) as Hsub.
  { intros x (e & -> & Hin)%list_elem_of_fmap. apply list_elem_of_fmap.
    exists e. split; [done |]. by eapply list_elem_of_delete_inv. }
  split.
  - rewrite list_fmap_delete. eapply sublist_NoDup; [done | apply sublist_delete].
  - intros o c Hin. apply list_elem_of_delete_inv in Hin.
    destruct (Hall _ _ Hin) as (? & ? & ?). repeat split; auto.
Qed.

(** A step that changes slots: the slots it sets hold promises of the
    right kind (a slot of the backend may also be the slot of another
    session), the slots of the plugins stay, and the promises it hands out
    are of the right kind. *)
Lemma wf_sessions_update (w w' : World) :
  wf_sessions w →
  kinds_kept w w' →
  List.length (sessions w') = List.length (sessions w) →
  (∀ a s', sessions w' !! a = Some s' →
     ∃ s, sessions w !! a = Some s ∧
       (∀ p, _pluginPromise s' = Some p →
          _pluginPromise s = Some p ∨
          ∃ pp, promises w' !! p = Some pp ∧ kind pp = KLoadPlugins a) ∧
       (∀ p, _jupyterSessionManagerPromise s' = Some p →
          (∃ a0 s0, sessions w !! a0 = Some s0 ∧
                    _jupyterSessionManagerPromise s0 = Some p) ∨
          ∃ pp a', promises w' !! p = Some pp ∧ kind pp = KAcquire a')) →
  (∀ a s p, sessions w !! a = Some s → _pluginPromise s = Some p →
     ∃ s', sessions w' !! a = Some s' ∧ _pluginPromise s' = Some p) →
  (∀ a q, EvPluginsReturned a q ∈ events w' →
     EvPluginsReturned a q ∈ events w ∨
     ∃ s p pq, sessions w' !! a = Some s ∧ _pluginPromise s = Some p ∧
               promises w' !! q = Some pq ∧ kind pq = KFollows p) →
  (∀ a p, EvManagerReturned a p ∈ events w' →
     EvManagerReturned a p ∈ events w ∨
     ∃ pp a', promises w' !! p = Some pp ∧ kind pp = KAcquire a') →
  NoDup (reloading w').*2 →
  (∀ o c, (o, c) ∈ reloading w' →
     c < List.length (sessions w) ∧ o < List.length (sessions w) ∧
     o ∉ (reloading w').*2) →
  wf_sessions w'.
Proof.
  intros [H1 H2 H3 H4 H5 H6] Hk Hlen Hback Hfwd Hev1 Hev2 Hnd Hrl. split.
  - intros a s' p Ha Hp. destruct (Hback _ _ Ha) as (s & Hs & Hps & _).
    destruct (Hps _ Hp) as [Hold | ?]; [| done].
    destruct (H1 _ _ _ Hs Hold) as (pp & Hpp & Hkp).
    destruct (Hk _ _ Hpp) as (pp' & ? & ?). exists pp'. split; congruence.
  - intros a s' p Ha Hp. destruct (Hback _ _ Ha) as (s & Hs & _ & Hms).
    destruct (Hms _ Hp) as [(a0 & s0 & Hs0 & Hold) | ?]; [| done].
    destruct (H2 _ _ _ Hs0 Hold) as (pp & a' & Hpp & Hkp).
    destruct (Hk _ _ Hpp) as (pp' & ? & ?). exists pp', a'. split; congruence.
  - intros a q Hin. destruct (Hev1 _ _ Hin) as [Hold | ?]; [| done].
    destruct (H3 _ _ Hold) as (s & p & pq & Hs & Hp & Hq & Hkq).
    destruct (Hfwd _ _ _ Hs Hp) as (s' & Hs' & Hps').
    destruct (Hk _ _ Hq) as (pq' & ? & ?).
    exists s', p, pq'. repeat split; congruence.
  - intros a p Hin. destruct (Hev2 _ _ Hin) as [Hold | ?]; [| done].
    destruct (H4 _ _ Hold) as (pp & a' & Hpp & Hkp).
    destruct (Hk _ _ Hpp) as (pp' & ? & ?). exists pp', a'. split; congruence.
  - done.
  - rewrite Hlen. done.
Qed.

Lemma wf_sessions_alter (w w' : World) (f : Session → Session) a :
  wf_sessions w →
  (∀ s, _pluginPromise (f s) = _pluginPromise s) →
  (∀ s, _jupyterSessionManagerPromise (f s) = _jupyterSessionManagerPromise s) →
  sessions w' = alter f a (sessions w) →
  events w' = events w → reloading w' = reloading w →
  kinds_kept w w' →
  wf_sessions w'.
Proof.
  intros Hwf Hfp Hfm Hs He Hr Hk.
  eapply wf_sessions_frame; [exact Hwf | | | | done | | | done].
  - intros i s'. rewrite Hs. intros (s & Hi & ->)%lookup_alter_inv.
    exists s. split; [done |]. by destruct (decide (a = i)).
  - intros i s Hi. rewrite Hs, (lookup_alter_fwd _ _ _ _ _ Hi).
    eexists. split; [done |]. by destruct (decide (a = i)).
  - by rewrite Hs, length_alter.
  - by rewrite He.
  - by rewrite He.
Qed.

(** Every step keeps the invariants. *)
Lemma wf_step (w : World) (op : Op) : wf_heap w → wf_heap (step w op).
Proof.
  intros [Hp Hs].
  destruct op as [lg lm | a f | a | a | a | c st | c | a | p sv env fuel | p r |];
    simpl.
  - unfold construct. destruct (proxy_agent_of _ _) as [e | agent]; simpl; split.
    + by eapply wf_promises_proper; [| | exact Hp].
    + by eapply wf_sessions_proper; [.. | exact Hs].
    + by eapply wf_promises_proper; [| | exact Hp].
    + by eapply wf_sessions_new; [exact Hs | reflexivity | ..].
  - destruct (ready w a) as [this |] eqn:E; [| done]. split.
    + by eapply wf_promises_proper; [| | exact Hp].
    + by eapply wf_sessions_alter; [exact Hs | | | reflexivity | | | apply kinds_kept_refl].
  - unfold jupyterSessionManager.
    destruct (ready w a) as [this |] eqn:E; [| done].
    pose proof (ready_lookup _ _ _ E) as El.
    destruct (_jupyterSessionManagerPromise this) as [p |] eqn:Es; simpl.
    + split.
      * by eapply wf_promises_proper; [| | exact Hp].
      * eapply wf_sessions_update;
          [exact Hs | by apply kinds_kept_refl | done | | | |
           | apply (wf_reloading_once _ Hs) | apply (wf_reloading _ Hs)].
        -- intros i s' Hi. exists s'. split; [done |].
           split; intros; [by left | left; eauto].
        -- eauto.
        -- simpl. intros a0 q [? | ?%list_elem_of_singleton]%elem_of_app; [auto | done].
        -- simpl. intros a0 p0 [? | [= -> ->]%list_elem_of_singleton]%elem_of_app;
             [auto |].
           right. by apply (wf_manager_slot _ Hs _ _ _ El Es).
    + split.
      * eapply wf_promises_proper; [| | apply (wf_promises_alloc w (KAcquire a))]; done.
      * eapply wf_sessions_update;
          [exact Hs
          | apply (kinds_kept_trans _ (alloc (KAcquire a) w));
              [apply kinds_kept_alloc | by apply kinds_kept_refl]
          | simpl; by rewrite length_alter | | | |
          | apply (wf_reloading_once _ Hs) | apply (wf_reloading _ Hs)].
        -- intros i s'. simpl. intros (s & Hi & ->)%lookup_alter_inv.
           exists s. split; [done |].
           destruct (decide (a = i)) as [<- | ?]; simpl.
           ++ split; [intros; by left |]. intros p [= <-]. right.
              eexists _, a. split; [by rewrite lookup_app_r, Nat.sub_diag | done].
           ++ split; intros; [by left | left; eauto].
        -- intros i s p Hi Hpi. simpl. rewrite (lookup_alter_fwd _ _ _ _ _ Hi).
           eexists. split; [done |]. by destruct (decide (a = i)).
        -- simpl. intros a0 q.
           rewrite !elem_of_app, !list_elem_of_singleton. intros [[? | ?] | ?]; [auto | done ..].
        -- simpl. intros a0 p0.
           rewrite !elem_of_app, !list_elem_of_singleton.
           intros [[? | ?] | [= -> ->]]; [auto | done |]. right.
           eexists _, a. split; [by rewrite lookup_app_r, Nat.sub_diag | done].
  - unfold loadPlugins.
    destruct (ready w a) as [this |] eqn:E; [| done].
    pose proof (ready_lookup _ _ _ E) as El.
    destruct (_pluginPromise this) as [p |] eqn:Es; simpl.
    + destruct (wf_plugin_slot _ Hs _ _ _ El Es) as (pp & Hpp & Hkp).
      set (n := List.length (promises w)).
      set (w1 := react p (RReturn n) (alloc (KFollows p) w)).
      assert (kinds_kept w w1) as Hk.
      { eapply kinds_kept_trans; [apply (kinds_kept_alloc w (KFollows p)) |].
        apply kinds_kept_react. }
      assert (∃ x, promises w1 !! n = Some x ∧ kind x = KFollows p) as (x & Hx & Hkx).
      { apply (kinds_kept_react (alloc (KFollows p) w) p (RReturn n) n
                 {| kind := KFollows p; state := Pending; reactions := [] |}).
        simpl. by rewrite lookup_app_r, Nat.sub_diag. }
      subst w1. split.
      * eapply wf_promises_proper;
          [| | apply (wf_promises_attach w p pp a (RReturn n) Hpp Hkp eq_refl Hp)]; done.
      * eapply wf_sessions_update;
          [exact Hs | exact Hk | simpl; by rewrite react_sessions | | | |
           | simpl; rewrite react_reloading; apply (wf_reloading_once _ Hs)
           | simpl; rewrite react_reloading; apply (wf_reloading _ Hs)].
        -- intros i s'. simpl. rewrite react_sessions. simpl. intros Hi.
           exists s'. split; [done |]. split; intros; [by left | left; eauto].
        -- intros i s p0 Hi Hp0. simpl. rewrite react_sessions. simpl. eauto.
        -- simpl. rewrite react_events, react_sessions. simpl. intros a0 q.
           rewrite elem_of_app, list_elem_of_singleton. intros [? | [= -> ->]]; [auto |].
           right. exists this, p, x. done.
        -- simpl. rewrite react_events. simpl. intros a0 p0.
           rewrite elem_of_app, list_elem_of_singleton. intros [? | ?]; [auto | done].
    + set (n := List.length (promises w)).
      set (w2 := with_sessions (alter (set_plugin_promise (Some n)) a)
                   (emit [EvLoadPlugins a n] (alloc (KLoadPlugins a) w))).
      set (q := List.length (promises w2)).
      set (w3 := react n (RAssignPlugins a q) (alloc (KFollows n) w2)).
      assert (wf_promises w2) as Hp2.
      { eapply wf_promises_proper; [| | apply (wf_promises_alloc w (KLoadPlugins a))];
          done. }
      assert (promises w2 !! n =
              Some {| kind := KLoadPlugins a; state := Pending; reactions := [] |})
        as Hn.
      { simpl. by rewrite lookup_app_r, Nat.sub_diag. }
      assert (kinds_kept w w2) as Hk2.
      { eapply kinds_kept_trans; [apply (kinds_kept_alloc w (KLoadPlugins a)) |].
        by apply kinds_kept_refl. }
      assert (kinds_kept w2 w3) as Hk3.
      { eapply kinds_kept_trans; [apply (kinds_kept_alloc w2 (KFollows n)) |].
        apply kinds_kept_react. }
      assert (∃ x, promises w3 !! q = Some x ∧ kind x = KFollows n) as (x & Hx & Hkx).
      { apply (kinds_kept_react (alloc (KFollows n) w2) n (RAssignPlugins a q) q
                 {| kind := KFollows n; state := Pending; reactions := [] |}).
        simpl. unfold q. simpl. by rewrite lookup_app_r, Nat.sub_diag. }
      destruct (Hk3 _ _ Hn) as (y & Hy & Hky). simpl in Hky.
      subst w3. split.
      * eapply wf_promises_proper;
          [| | apply (wf_promises_attach w2 n _ a (RAssignPlugins a q) Hn eq_refl eq_refl Hp2)];
          done.
      * eapply wf_sessions_update;
          [exact Hs | by eapply kinds_kept_trans
           | simpl; rewrite react_sessions; simpl; by rewrite length_alter | | | |
           | simpl; rewrite react_reloading; apply (wf_reloading_once _ Hs)
           | simpl; rewrite react_reloading; apply (wf_reloading _ Hs)].
        -- intros i s'. simpl. rewrite react_sessions. simpl.
           intros (s & Hi & ->)%lookup_alter_inv. exists s. split; [done |].
           destruct (decide (a = i)) as [<- | ?]; simpl.
           ++ split; [| intros; left; eauto]. intros p [= <-]. right. by exists y.
           ++ split; intros; [by left | left; eauto].
        -- intros i s p0 Hi Hp0. simpl. rewrite react_sessions. simpl.
           rewrite (lookup_alter_fwd _ _ _ _ _ Hi). eexists. split; [done |].
           destruct (decide (a = i)) as [<- | ?]; [| done]. congruence.
        -- simpl. rewrite react_events, react_sessions. simpl. intros a0 q0.
           rewrite !elem_of_app, !list_elem_of_singleton.
           intros [[? | ?] | [= -> ->]]; [auto | done |]. right.
           exists (set_plugin_promise (Some n) this), n, x.
           rewrite (lookup_alter_fwd _ _ _ _ _ El). rewrite decide_True by done. done.
        -- simpl. rewrite react_events. simpl. intros a0 p0.
           rewrite !elem_of_app, !list_elem_of_singleton.
           intros [[? | ?] | ?]; [auto | done ..].
  - unfold clone_begin. destruct (ready w a) as [this |] eqn:E; [| done].
    unfold construct. destruct (proxy_agent_of _ _) as [e | agent]; simpl; split.
    + by eapply wf_promises_proper; [| | exact Hp].
    + by eapply wf_sessions_proper; [.. | exact Hs].
    + by eapply wf_promises_proper; [| | exact Hp].
    + by eapply wf_sessions_clone_begin; [exact Hs | exact E | reflexivity | ..].
  - unfold clone_end.
    destruct (list_find _ (reloading w)) as [[i [o c']] |] eqn:Ef; [| done].
    destruct (sessions w !! o) as [this |] eqn:Eo; [| done].
    pose proof (list_find_snd _ _ _ _ Ef) as Hi. simpl in Hi.
    destruct (wf_reloading_delete (reloading w) i (List.length (sessions w))
                (wf_reloading_once _ Hs) (wf_reloading _ Hs)) as [Hnd Hrl].
    split.
    + by eapply wf_promises_proper; [| | exact Hp].
    + eapply wf_sessions_update;
        [exact Hs | by apply kinds_kept_refl | simpl; by rewrite !length_alter
        | | | simpl; auto | simpl; auto | exact Hnd | exact Hrl].
      * intros j s'. simpl.
        intros (s1 & (s & Hj & ->)%lookup_alter_inv & ->)%lookup_alter_inv.
        exists s. split; [done |].
        destruct (decide (o = j)), (decide (c = j)); simpl;
          (split; [intros; by left |]); intros p Hp'; left; eauto.
      * intros j s p Hj Hpj. simpl.
        erewrite lookup_alter_fwd; [| by apply lookup_alter_fwd].
        eexists. split; [done |].
        by destruct (decide (o = j)), (decide (c = j)).
  - unfold clone_abort.
    destruct (list_find _ (reloading w)) as [[i [o c']] |] eqn:Ef; [| done].
    destruct (wf_reloading_delete (reloading w) i (List.length (sessions w))
                (wf_reloading_once _ Hs) (wf_reloading _ Hs)) as [Hnd Hrl].
    split.
    + by eapply wf_promises_proper; [| | exact Hp].
    + eapply wf_sessions_update;
        [exact Hs | by apply kinds_kept_refl | done
        | | | simpl; auto | simpl; auto | exact Hnd | exact Hrl].
      * intros j s' Hj. exists s'. split; [done |].
        split; intros; [by left | left; eauto].
      * eauto.
  - unfold dispose. destruct (ready w a) as [this |] eqn:E; [| done].
    pose proof (ready_lookup _ _ _ E) as El.
    destruct (_jupyterSessionManagerPromise this) as [p |] eqn:Es; [| done].
    destruct (wf_manager_slot _ Hs _ _ _ El Es) as (pp & a' & Hpp & Hkp).
    simpl. split.
    + eapply wf_promises_proper;
        [| | apply (wf_promises_react_dispose w p pp a' Hpp Hkp Hp)]; done.
    + eapply wf_sessions_update;
        [exact Hs | apply kinds_kept_react
        | simpl; by rewrite react_sessions, length_alter | | | |
        | simpl; rewrite react_reloading; apply (wf_reloading_once _ Hs)
        | simpl; rewrite react_reloading; apply (wf_reloading _ Hs)].
      * intros j s'. simpl. rewrite react_sessions.
        intros (s & Hj & ->)%lookup_alter_inv. exists s. split; [done |].
        destruct (decide (a = j)); simpl;
          (split; [intros; by left |]); intros p0 Hp0; [done | left; eauto].
      * intros j s p0 Hj Hp0. simpl. rewrite react_sessions.
        rewrite (lookup_alter_fwd _ _ _ _ _ Hj). eexists. split; [done |].
        by destruct (decide (a = j)).
      * simpl. rewrite react_events. auto.
      * simpl. rewrite react_events. auto.
  - unfold settle_acquire.
    destruct (promises w !! p) as [[[a' | a' | p'] [] rs] |] eqn:Ep; try done.
    destruct (sessions w !! a') as [this |]; [| done].
    destruct (Acquire.createJupyterSessionManager _ _ _ _) as [[m | e |] eff] eqn:Ec;
      [| | done].
    + split.
      * eapply wf_promises_proper;
          [| | apply (wf_promises_settle w p _ (Fulfilled (VManager m)) Ep);
               [done | done | done | exact Hp]]; done.
      * eapply wf_sessions_frame; [exact Hs | ..]; simpl;
          rewrite ?settle_sessions, ?settle_reloading, ?settle_events;
          eauto using kinds_kept_settle.
        -- intros a0 q. rewrite elem_of_app, list_elem_of_fmap.
           intros [? | (l & ? & _)]; done.
        -- intros a0 q. rewrite elem_of_app, list_elem_of_fmap.
           intros [? | (l & ? & _)]; done.
        -- eapply kinds_kept_trans; [apply kinds_kept_settle |].
           by apply kinds_kept_refl.
    + exfalso.
      eapply (AcquireProps.createJupyterSessionManager_catches sv fuel env _ e).
      by rewrite Ec.
  - unfold settle_plugins.
    destruct (promises w !! p) as [[[a' | a' | p'] [] rs] |] eqn:Ep; try done.
    split.
    + apply (wf_promises_settle w p _ _ Ep); [done | by destruct r | done | exact Hp].
    + eapply wf_sessions_frame; [exact Hs | ..];
        rewrite ?settle_sessions, ?settle_reloading, ?settle_events;
        eauto using kinds_kept_settle.
  - destruct (jobs w) as [| [r st] js] eqn:Ej; [done |].
    destruct (target r) as [q |] eqn:Et.
    + assert (wf_promises (settle q st (with_jobs (λ _, js) w))) as Hp'.
      { by apply (wf_promises_job_settle w r st js q). }
      assert (wf_sessions (settle q st (with_jobs (λ _, js) w))) as Hs'.
      { eapply wf_sessions_frame; [exact Hs | ..];
          rewrite ?settle_sessions, ?settle_reloading, ?settle_events;
          simpl; eauto.
        eapply kinds_kept_trans; [| apply kinds_kept_settle]. by apply kinds_kept_refl. }
      destruct r as [| a q' | q']; [done | ..]; simpl in Et; injection Et as ->.
      * destruct st as [| [m | reg] | e]; try done. unfold run_job.
        rewrite settle_with_sessions. split.
        -- by eapply wf_promises_proper; [| | exact Hp'].
        -- eapply wf_sessions_alter; [exact Hs' | | | reflexivity | | |
                                      by apply kinds_kept_refl]; done.
      * done.
    + destruct r; try done.
      assert (wf_heap (with_jobs (λ _, js) w)) as Hw0.
      { split; [by eapply wf_promises_job_dispose |].
        by eapply wf_sessions_proper; [| | | | exact Hs]. }
      unfold run_job. destruct st as [| [[m |] | reg] | e]; try done.
      destruct Hw0 as [Hp0 Hs0]. split.
      * by eapply wf_promises_proper; [| | exact Hp0].
      * eapply wf_sessions_frame; [exact Hs0 | ..]; simpl;
          eauto using kinds_kept_refl.
        -- intros a0 q. rewrite elem_of_app, list_elem_of_singleton.
           intros [? | ?]; done.
        -- intros a0 q. rewrite elem_of_app, list_elem_of_singleton.
           intros [? | ?]; done.
Qed.

Lemma wf_empty proxy : wf_heap (empty_world proxy : World).
Proof.
  split; split; simpl; try done; try apply NoDup_nil_2;
    intros; by match goal with H : _ ∈ [] |- _ => apply elem_of_nil in H end.
Qed.

Lemma wf_run (ops : list Op) : ∀ w : World, wf_heap w → wf_heap (run ops w).
Proof.
  induction ops as [| op ops IH]; intros w Hw; [done |].
  rewrite run_cons. by apply IH, wf_step.
Qed.

(** *** The environment of the constructor *)

Lemma settle_env p st (w : World) : HTTPS_PROXY (settle p st w) = HTTPS_PROXY w.
Proof. unfold settle. destruct (promises w !! p) as [[k [] rs] |]; done. Qed.

Lemma react_env p r (w : World) : HTTPS_PROXY (react p r w) = HTTPS_PROXY w.
Proof. unfold react. destruct (promises w !! p) as [[k [] rs] |]; done. Qed.

(** No step writes [HTTPS_PROXY], and every session keeps the agent its
    constructor made of it. *)
Lemma proxy_agent_step (w : World) (op : Op) :
  wf_env w →
  HTTPS_PROXY (step w op) = HTTPS_PROXY w ∧
  ∀ a s, sessions (step w op) !! a = Some s →
         proxy_agent_of parse_url (HTTPS_PROXY w) = inr (proxyAgent s).
Proof.
  intros Hold.
  assert (∀ (f : Session → Session) a0 a s',
            (∀ s, proxyAgent (f s) = proxyAgent s) →
            alter f a0 (sessions w) !! a = Some s' →
            proxy_agent_of parse_url (HTTPS_PROXY w) = inr (proxyAgent s')) as Halter.
  { intros f a0 a s' Hf Hl. apply lookup_alter_inv in Hl as (s & Hl & ->).
    destruct (decide (a0 = a)); [rewrite Hf |]; by eapply Hold. }
  assert (∀ s0 a s',
            proxy_agent_of parse_url (HTTPS_PROXY w) = inr (proxyAgent s0) →
            (sessions w ++ [s0]) !! a = Some s' →
            proxy_agent_of parse_url (HTTPS_PROXY w) = inr (proxyAgent s')) as Hsnoc.
  { intros s0 a s' Hs0 Hl. apply lookup_snoc_Some in Hl as [[_ Hl] | [_ <-]]; [| done].
    by eapply Hold. }
  destruct op as [lg lm | a' f | a' | a' | a' | c' st | c' | a' | p sv env fuel | p r |];
    simpl.
  - unfold construct.
    destruct (proxy_agent_of _ _) as [e | agent] eqn:Hagent; simpl;
      [split; [done |]; intros a s Hl; rewrite <- Hagent; by eapply Hold |].
    split; [done |]. intros a s. by apply Hsnoc.
  - destruct (ready w a') as [this |]; simpl; [| done].
    split; [done |]. intros a s. by apply Halter.
  - unfold jupyterSessionManager. destruct (ready w a') as [this |]; [| done].
    destruct (_jupyterSessionManagerPromise this); simpl; [done |].
    split; [done |]. intros a s. by apply Halter.
  - unfold loadPlugins. destruct (ready w a') as [this |]; [| done].
    destruct (_pluginPromise this); simpl;
      rewrite react_env, react_sessions; simpl; [done |].
    split; [done |]. intros a s. by apply Halter.
  - unfold clone_begin. destruct (ready w a') as [this |]; simpl; [| done].
    unfold construct.
    destruct (proxy_agent_of _ _) as [e | agent] eqn:Hagent; simpl;
      [split; [done |]; intros a s Hl; rewrite <- Hagent; by eapply Hold |].
    split; [done |]. intros a s. by apply Hsnoc.
  - unfold clone_end. destruct (list_find _ _) as [[i [o c'']] |]; [| done].
    destruct (sessions w !! o) as [this |]; simpl; [| done].
    split; [done |]. intros a s Hl.
    apply lookup_alter_inv in Hl as (s1 & Hl & ->).
    assert (proxy_agent_of parse_url (HTTPS_PROXY w) = inr (proxyAgent s1))
      by (eapply Halter; [| exact Hl]; done).
    by destruct (decide (o = a)).
  - unfold clone_abort. by destruct (list_find _ _) as [[i [o c'']] |].
  - unfold dispose. destruct (ready w a') as [this |]; [| done].
    destruct (_jupyterSessionManagerPromise this); simpl; [| done].
    rewrite react_env, react_sessions.
    split; [done |]. intros a s. by apply Halter.
  - unfold settle_acquire.
    destruct (promises w !! p) as [[[a' | a' | p'] [] rs] |]; try done.
    destruct (sessions w !! a') as [this |]; [| done].
    destruct (Acquire.createJupyterSessionManager _ _ _ _) as [[m | e |] eff];
      [| | done]; simpl; by rewrite settle_env, settle_sessions.
  - unfold settle_plugins.
    destruct (promises w !! p) as [[[a' | a' | p'] [] rs] |]; try done.
    by rewrite settle_env, settle_sessions.
  - destruct (jobs w) as [| [r st] js]; [done |].
    unfold run_job.
    destruct r as [| a' q | q];
      [destruct st as [| [[m |] | reg] | e] | destruct st as [| [m | reg] | e] |];
      simpl; rewrite ?settle_env, ?settle_sessions; simpl; try done.
    split; [done |]. intros a s. by apply Halter.
Qed.

Lemma env_step (w : World) (op : Op) : wf_env w → HTTPS_PROXY (step w op) = HTTPS_PROXY w.
Proof. intros Hw. by destruct (proxy_agent_step w op Hw). Qed.

Lemma wf_env_step (w : World) (op : Op) : wf_env w → wf_env (step w op).
Proof.
  intros Hw a s Hl. destruct (proxy_agent_step w op Hw) as [-> Hs]. by eapply Hs.
Qed.

Lemma wf_env_run (ops : list Op) : ∀ w : World,
  wf_env w → HTTPS_PROXY (run ops w) = HTTPS_PROXY w ∧ wf_env (run ops w).
Proof.
  induction ops as [| op ops IH]; intros w Hw; [done |].
  rewrite run_cons. destruct (IH (step w op) (wf_env_step w op Hw)) as [-> ?].
  by rewrite env_step.
Qed.

Lemma wf_env_empty proxy : wf_env (empty_world proxy : World).
Proof. intros a s Hl. simpl in Hl. by rewrite lookup_nil in Hl. Qed.

(** The invariants of the heap and of the environment together. *)
Lemma wf_all_empty proxy : wf (empty_world proxy : World).
Proof. split; [apply wf_empty | apply wf_env_empty]. Qed.

Lemma wf_all_run (ops : list Op) (w : World) : wf w → wf (run ops w).
Proof. intros [Hh He]. split; [by apply wf_run | by apply wf_env_run]. Qed.

Local Abbreviation reachable :=
  (@Heap.reachable RootState St parse_url initial_state selectCurrentSitePath
     selectCurrentProjectPath path_resolve).

Lemma reachable_wf (w : World) : reachable w → wf_heap w.
Proof. intros (proxy & ops & ->). apply wf_run, wf_empty. Qed.

(** Every world of a run has the invariants of the heap and of the
    environment. *)
Lemma reachable_wf_all (w : World) : reachable w → wf w.
Proof. intros (proxy & ops & ->). apply wf_all_run, wf_all_empty. Qed.

Lemma reachable_run (ops : list Op) (w : World) : reachable w → reachable (run ops w).
Proof.
  intros (proxy & ops0 & ->). exists proxy, (ops0 ++ ops). by rewrite run_app.
Qed.

(** *** The slot of the plugins along a step *)

Lemma plugin_slot_unfold (w : World) a :
  plugin_slot w a =
  if bool_decide (a ∈ (reloading w).*2) then None
  else sessions w !! a ≫= _pluginPromise.
Proof. unfold plugin_slot, ready. by case_bool_decide. Qed.

Lemma plugins_unset_le (w : World) a : plugins_unset w a ≤ 1.
Proof. unfold plugins_unset. destruct (plugin_slot w a); lia. Qed.

(** A step calls the factory of the plugins for [a] only when the slot of
    [a] is unset, and sets it then; no step unsets it. *)
Lemma plugin_loads_step (w : World) (op : Op) a :
  plugin_loads a (events (step w op)) + plugins_unset (step w op) a ≤
  plugin_loads a (events w) + plugins_unset w a.
Proof.
  destruct op as [lg lm | a' f | a' | a' | a' | c st | c | a' | p sv env fuel | p r |];
    simpl.
  - constructing.
    unfold plugins_unset. rewrite !plugin_slot_unfold. simpl.
    case_bool_decide; [lia |].
    destruct (decide (a < List.length (sessions w))).
    + rewrite lookup_app_l by done. lia.
    + rewrite (lookup_ge_None_2 (sessions w)) by lia.
      rewrite lookup_app_r by lia.
      destruct (a - List.length (sessions w)) as [| k]; simpl; lia.
  - destruct (ready w a') as [s' |] eqn:E; [| lia].
    unfold plugins_unset. rewrite !plugin_slot_unfold. simpl.
    rewrite lookup_alter_bind by done. lia.
  - unfold jupyterSessionManager.
    destruct (ready w a') as [s' |] eqn:E; [| lia].
    destruct (_jupyterSessionManagerPromise s') as [p |] eqn:Es; simpl.
    + rewrite plugin_loads_app. unfold plugins_unset. rewrite !plugin_slot_unfold.
      unfold plugin_loads. simpl. lia.
    + rewrite !plugin_loads_app. unfold plugins_unset. rewrite !plugin_slot_unfold.
      unfold plugin_loads. simpl. rewrite lookup_alter_bind by done. lia.
  - unfold loadPlugins.
    destruct (ready w a') as [s' |] eqn:E; [| lia].
    pose proof (ready_lookup _ _ _ E) as El.
    pose proof (ready_not_reloading _ _ _ E) as Er.
    destruct (_pluginPromise s') as [p |] eqn:Es; simpl.
    + rewrite plugin_loads_app. unfold plugins_unset. rewrite !plugin_slot_unfold.
      simpl. rewrite react_events, react_sessions, react_reloading.
      unfold plugin_loads. simpl. lia.
    + rewrite plugin_loads_app. unfold plugins_unset. rewrite !plugin_slot_unfold.
      simpl. rewrite react_events, react_sessions, react_reloading. simpl.
      rewrite plugin_loads_app. unfold plugin_loads. simpl.
      destruct (decide (a' = a)) as [-> | Hne].
      * rewrite bool_decide_eq_true_2 by done.
        rewrite (bool_decide_eq_false_2 _ Er).
        rewrite list_lookup_alter_eq, El. simpl. rewrite Es. lia.
      * rewrite bool_decide_eq_false_2 by done.
        rewrite list_lookup_alter_ne by done. simpl. lia.
  - unfold clone_begin.
    destruct (ready w a') as [s' |] eqn:E; [| lia].
    constructing.
    unfold plugins_unset. rewrite !plugin_slot_unfold. simpl.
    rewrite fmap_app. simpl.
    destruct (decide (a = List.length (sessions w))) as [-> | Hne].
    + rewrite (bool_decide_eq_true_2 (_ ∈ _ ++ _))
        by (apply elem_of_app; right; by apply list_elem_of_singleton).
      rewrite (lookup_ge_None_2 (sessions w)) by lia.
      case_bool_decide; simpl; lia.
    + assert (a ∈ (reloading w).*2 ++ [List.length (sessions w)] ↔
              a ∈ (reloading w).*2) as Hiff
        by (rewrite elem_of_app, list_elem_of_singleton; tauto).
      rewrite (bool_decide_ext _ _ Hiff). case_bool_decide; [lia |].
      destruct (decide (a < List.length (sessions w))).
      * rewrite lookup_app_l by done. lia.
      * rewrite (lookup_ge_None_2 (sessions w)) by lia.
        rewrite lookup_ge_None_2; [simpl; lia |]. rewrite length_app. simpl. lia.
  - unfold clone_end.
    destruct (list_find _ (reloading w)) as [[i [o c']] |] eqn:Ef; [| lia].
    destruct (sessions w !! o) as [this |] eqn:Eo; [| lia].
    pose proof (list_find_snd _ _ _ _ Ef) as Hi. simpl in Hi.
    destruct (decide (a = c)) as [-> | Hne].
    + simpl. pose proof (plugins_unset_le (with_reloading (delete i)
        (with_sessions (λ ss, alter (push_clone c) o
           (alter (λ cloneSession, set_manager_promise
                     (_jupyterSessionManagerPromise this) (set_store st cloneSession))
              c ss)) w)) c).
      unfold plugins_unset at 2. rewrite plugin_slot_unfold.
      rewrite bool_decide_eq_true_2; [simpl in *; lia |].
      apply list_elem_of_fmap. exists (o, c). split; [done |].
      by eapply list_elem_of_lookup_2.
    + unfold plugins_unset. rewrite !plugin_slot_unfold. simpl.
      rewrite (bool_decide_ext _ _ (elem_of_snd_delete _ _ _ _ _ Hi Hne)).
      rewrite !lookup_alter_bind by done. lia.
  - unfold clone_abort.
    destruct (list_find _ (reloading w)) as [[i [o c']] |] eqn:Ef; [| lia].
    pose proof (list_find_snd _ _ _ _ Ef) as Hi. simpl in Hi.
    destruct (decide (a = c)) as [-> | Hne].
    + simpl. pose proof (plugins_unset_le (with_reloading (delete i) w) c).
      unfold plugins_unset at 2. rewrite plugin_slot_unfold.
      rewrite bool_decide_eq_true_2; [simpl in *; lia |].
      apply list_elem_of_fmap. exists (o, c). split; [done |].
      by eapply list_elem_of_lookup_2.
    + unfold plugins_unset. rewrite !plugin_slot_unfold. simpl.
      rewrite (bool_decide_ext _ _ (elem_of_snd_delete _ _ _ _ _ Hi Hne)). lia.
  - unfold dispose.
    destruct (ready w a') as [s' |] eqn:E; [| simpl; lia].
    destruct (_jupyterSessionManagerPromise s') as [p |] eqn:Es; simpl; [| lia].
    rewrite react_events.
    unfold plugins_unset. rewrite !plugin_slot_unfold. simpl.
    rewrite react_sessions, react_reloading.
    rewrite lookup_alter_bind by done. lia.
  - unfold settle_acquire.
    destruct (promises w !! p) as [[[a' | a' | p'] [] rs] |]; try lia.
    destruct (sessions w !! a') as [this |]; [| lia].
    destruct (Acquire.createJupyterSessionManager _ _ _ _) as [[m | e |] eff];
      [| | lia]; simpl; rewrite plugin_loads_app, plugin_loads_log, settle_events;
      unfold plugins_unset; rewrite !plugin_slot_unfold; simpl;
      rewrite settle_sessions, settle_reloading; lia.
  - unfold settle_plugins.
    destruct (promises w !! p) as [[[a' | a' | p'] [] rs] |]; try lia.
    rewrite settle_events. unfold plugins_unset. rewrite !plugin_slot_unfold.
    rewrite settle_sessions, settle_reloading. lia.
  - destruct (jobs w) as [| [r st] js]; [lia |].
    unfold run_job.
    destruct r as [| a' q | q]; [destruct st as [| [[m |] | reg] | e] | destruct st as [| [m | reg] | e] |];
      simpl; rewrite ?plugin_loads_app, ?settle_events; simpl;
      unfold plugins_unset; rewrite !plugin_slot_unfold; simpl;
      rewrite ?settle_sessions, ?settle_reloading; simpl;
      rewrite ?lookup_alter_bind by done; unfold plugin_loads; simpl; lia.
Qed.

Lemma plugin_loads_run (ops : list Op) : ∀ (w : World) a,
  plugin_loads a (events (run ops w)) + plugins_unset (run ops w) a ≤
  plugin_loads a (events w) + plugins_unset w a.
Proof.
  induction ops as [| op ops IH]; intros w a; [done |].
  rewrite run_cons.
  pose proof (IH (step w op) a). pose proof (plugin_loads_step w op a). lia.
Qed.

(** *** Events are only added; sessions keep their logger and limiter *)

Lemma events_step (w : World) (op : Op) :
  ∃ evs, events (step w op) = events w ++ evs.
Proof.
  assert (∃ evs, events w = events w ++ evs) as Hsame
    by (exists []; by rewrite app_nil_r).
  destruct op as [lg lm | a' f | a' | a' | a' | c st | c | a' | p sv env fuel | p r |];
    simpl.
  - by constructing.
  - by destruct (ready w a').
  - unfold jupyterSessionManager. destruct (ready w a') as [s' |]; [| done].
    destruct (_jupyterSessionManagerPromise s'); simpl; [by eexists |].
    rewrite <- app_assoc. by eexists.
  - unfold loadPlugins. destruct (ready w a') as [s' |]; [| done].
    destruct (_pluginPromise s'); simpl; rewrite react_events; simpl;
      rewrite <- ?app_assoc; by eexists.
  - unfold clone_begin. destruct (ready w a'); [| done]. by constructing.
  - unfold clone_end. destruct (list_find _ _) as [[i [o c']] |]; [| done].
    by destruct (sessions w !! o).
  - unfold clone_abort. by destruct (list_find _ _) as [[i [o c']] |].
  - unfold dispose. destruct (ready w a') as [s' |]; [| done].
    destruct (_jupyterSessionManagerPromise s'); simpl; [| done].
    by rewrite react_events.
  - unfold settle_acquire.
    destruct (promises w !! p) as [[[a' | a' | p'] [] rs] |]; try done.
    destruct (sessions w !! a') as [this |]; [| done].
    destruct (Acquire.createJupyterSessionManager _ _ _ _) as [[m | e |] eff];
      [| | done]; simpl; rewrite settle_events; by eexists.
  - unfold settle_plugins.
    destruct (promises w !! p) as [[[a' | a' | p'] [] rs] |]; try done.
    by rewrite settle_events.
  - destruct (jobs w) as [| [r st] js]; [done |].
    unfold run_job.
    destruct r as [| a' q | q];
      [destruct st as [| [[m |] | reg] | e] | destruct st as [| [m | reg] | e] |];
      simpl; rewrite ?settle_events; simpl; try done. by eexists.
Qed.

Lemma events_run (ops : list Op) : ∀ w : World,
  ∃ evs, events (run ops w) = events w ++ evs.
Proof.
  induction ops as [| op ops IH]; intros w.
  - exists []. by rewrite app_nil_r.
  - rewrite run_cons. destruct (IH (step w op)) as (evs2 & ->).
    destruct (events_step w op) as (evs1 & ->). rewrite <- app_assoc. by eexists.
Qed.

Lemma acquisitions_mono (ops : list Op) (w : World) a :
  acquisitions a (events w) ≤ acquisitions a (events (run ops w)).
Proof.
  destruct (events_run ops w) as (evs & ->). rewrite acquisitions_app. lia.
Qed.

(** No step changes the logger or the limiter of a session, or makes a
    session go away. *)
Lemma session_step (w : World) (op : Op) c cs :
  sessions w !! c = Some cs →
  ∃ cs', sessions (step w op) !! c = Some cs' ∧
         logger cs' = logger cs ∧ doiLimiter cs' = doiLimiter cs.
Proof.
  intros Hc.
  assert (∀ (f : Session → Session) a,
            (∀ s, logger (f s) = logger s ∧ doiLimiter (f s) = doiLimiter s) →
            ∃ cs', alter f a (sessions w) !! c = Some cs' ∧
                   logger cs' = logger cs ∧ doiLimiter cs' = doiLimiter cs) as Halter.
  { intros f a Hf. rewrite (lookup_alter_fwd _ _ _ _ _ Hc). eexists. split; [done |].
    destruct (decide (a = c)); [apply Hf | done]. }
  destruct op as [lg lm | a' f | a' | a' | a' | c' st | c' | a' | p sv env fuel | p r |];
    simpl.
  - constructing. simpl. exists cs. by rewrite (lookup_app_l_Some _ _ _ _ Hc).
  - destruct (ready w a'); simpl; [by apply Halter | eauto].
  - unfold jupyterSessionManager. destruct (ready w a') as [s' |]; [| eauto].
    destruct (_jupyterSessionManagerPromise s'); simpl; [eauto | by apply Halter].
  - unfold loadPlugins. destruct (ready w a') as [s' |]; [| eauto].
    destruct (_pluginPromise s'); simpl; rewrite react_sessions; simpl;
      [eauto | by apply Halter].
  - unfold clone_begin. destruct (ready w a'); simpl; [| eauto].
    constructing. simpl. exists cs. by rewrite (lookup_app_l_Some _ _ _ _ Hc).
  - unfold clone_end. destruct (list_find _ _) as [[i [o c'']] |]; [| eauto].
    destruct (sessions w !! o) as [this |]; simpl; [| eauto].
    erewrite lookup_alter_fwd; [| by apply lookup_alter_fwd].
    eexists. split; [done |]. by destruct (decide (o = c)), (decide (c' = c)).
  - unfold clone_abort. destruct (list_find _ _) as [[i [o c'']] |]; eauto.
  - unfold dispose. destruct (ready w a') as [s' |]; [| eauto].
    destruct (_jupyterSessionManagerPromise s'); simpl; [| eauto].
    rewrite react_sessions. by apply Halter.
  - unfold settle_acquire.
    destruct (promises w !! p) as [[[a' | a' | p'] [] rs] |]; eauto.
    destruct (sessions w !! a') as [this |]; [| eauto].
    destruct (Acquire.createJupyterSessionManager _ _ _ _) as [[m | e |] eff];
      [| | eauto]; simpl; rewrite settle_sessions; eauto.
  - unfold settle_plugins.
    destruct (promises w !! p) as [[[a' | a' | p'] [] rs] |]; eauto.
    rewrite settle_sessions. eauto.
  - destruct (jobs w) as [| [r st] js]; [eauto |].
    unfold run_job.
    destruct r as [| a' q | q];
      [destruct st as [| [[m |] | reg] | e] | destruct st as [| [m | reg] | e] |];
      simpl; rewrite ?settle_sessions; simpl; eauto.
Qed.

Lemma session_run (ops : list Op) : ∀ (w : World) c cs,
  sessions w !! c = Some cs →
  ∃ cs', sessions (run ops w) !! c = Some cs' ∧
         logger cs' = logger cs ∧ doiLimiter cs' = doiLimiter cs.
Proof.
  induction ops as [| op ops IH]; intros w c cs Hc; [eauto |].
  rewrite run_cons. destruct (session_step w op c cs Hc) as (cs1 & H1 & Hl & Hd).
  destruct (IH _ _ _ H1) as (cs2 & ? & ? & ?). exists cs2.
  repeat split; congruence.
Qed.

(** A clone stays under way until its own reload ends, and a session that
    callers hold stays one. *)
Lemma reloading_step (w : World) (op : Op) o c :
  (o, c) ∈ reloading w → is_reload_end c op = false →
  (o, c) ∈ reloading (step w op).
Proof.
  intros Hin Hop.
  assert (∀ c' i e, c' ≠ c → list_find (λ e, e.2 = c') (reloading w) = Some (i, e) →
                    (o, c) ∈ delete i (reloading w)) as Hdel.
  { intros c' i e Hne (Hi & He & _)%list_find_Some. simpl in He.
    apply list_elem_of_lookup in Hin as [j Hj].
    assert (j ≠ i) by (intros ->; rewrite Hi in Hj; injection Hj as ->; done).
    destruct (decide (j < i)).
    - apply (list_elem_of_lookup_2 _ j). by rewrite list_lookup_delete_lt.
    - apply (list_elem_of_lookup_2 _ (pred j)). rewrite list_lookup_delete_ge by lia.
      by replace (S (pred j)) with j by lia. }
  destruct op as [lg lm | a' f | a' | a' | a' | c' st | c' | a' | p sv env fuel | p r |];
    simpl in *.
  - by constructing.
  - by destruct (ready w a').
  - unfold jupyterSessionManager. destruct (ready w a') as [s' |]; [| done].
    by destruct (_jupyterSessionManagerPromise s').
  - unfold loadPlugins. destruct (ready w a') as [s' |]; [| done].
    destruct (_pluginPromise s'); simpl; by rewrite react_reloading.
  - unfold clone_begin. destruct (ready w a'); simpl; [| done].
    constructing. simpl. apply elem_of_app. auto.
  - apply bool_decide_eq_false in Hop. unfold clone_end.
    destruct (list_find _ _) as [[i [o' c'']] |] eqn:Ef; [| done].
    destruct (sessions w !! o') as [this |]; simpl; [| done]. by eapply Hdel.
  - apply bool_decide_eq_false in Hop. unfold clone_abort.
    destruct (list_find _ _) as [[i [o' c'']] |] eqn:Ef; [| done]. by eapply Hdel.
  - unfold dispose. destruct (ready w a') as [s' |]; [| done].
    destruct (_jupyterSessionManagerPromise s'); simpl; [| done].
    by rewrite react_reloading.
  - unfold settle_acquire.
    destruct (promises w !! p) as [[[a' | a' | p'] [] rs] |]; try done.
    destruct (sessions w !! a') as [this |]; [| done].
    destruct (Acquire.createJupyterSessionManager _ _ _ _) as [[m | e |] eff];
      [| | done]; simpl; by rewrite settle_reloading.
  - unfold settle_plugins.
    destruct (promises w !! p) as [[[a' | a' | p'] [] rs] |]; try done.
    by rewrite settle_reloading.
  - destruct (jobs w) as [| [r st] js]; [done |].
    unfold run_job.
    destruct r as [| a' q | q];
      [destruct st as [| [[m |] | reg] | e] | destruct st as [| [m | reg] | e] |];
      simpl; rewrite ?settle_reloading; simpl; done.
Qed.

Lemma reloading_run (ops : list Op) : ∀ (w : World) o c,
  (o, c) ∈ reloading w →
  Forall (λ op, is_reload_end c op = false) ops →
  (o, c) ∈ reloading (run ops w).
Proof.
  induction ops as [| op ops IH]; intros w o c Hin Hall; [done |].
  apply Forall_cons in Hall as [Hop Hall]. rewrite run_cons.
  apply IH; [| done]. by apply reloading_step.
Qed.

Lemma ready_step (w : World) (op : Op) a s :
  ready w a = Some s → ∃ s', ready (step w op) a = Some s'.
Proof.
  intros Ha. pose proof (ready_lookup _ _ _ Ha) as Hl.
  pose proof (ready_not_reloading _ _ _ Ha) as Hr.
  destruct (session_step w op a s Hl) as (s' & Hs' & _).
  exists s'. unfold ready. rewrite bool_decide_eq_false_2; [done |].
  intros ([o c] & Hc & Hin)%list_elem_of_fmap. simpl in Hc. subst c.
  apply Hr.
  assert (∀ i, a ∈ (delete i (reloading w)).*2 → a ∈ (reloading w).*2) as Hdel.
  { intros i (e & -> & He)%list_elem_of_fmap. apply list_elem_of_fmap.
    exists e. split; [done |]. by eapply list_elem_of_delete_inv. }
  assert (a ∈ (reloading (step w op)).*2) as Hin'.
  { apply list_elem_of_fmap. by exists (o, a). }
  clear Hin Hs'.
  destruct op as [lg lm | a' f | a' | a' | a' | c' st | c' | a' | p sv env fuel | p r |];
    simpl in *.
  - unfold construct in Hin'. by destruct (proxy_agent_of _ _).
  - by destruct (ready w a').
  - unfold jupyterSessionManager in Hin'. destruct (ready w a') as [s1 |]; [| done].
    by destruct (_jupyterSessionManagerPromise s1).
  - unfold loadPlugins in Hin'. destruct (ready w a') as [s1 |]; [| done].
    destruct (_pluginPromise s1); simpl in Hin'; by rewrite react_reloading in Hin'.
  - unfold clone_begin in Hin'. destruct (ready w a'); simpl in Hin'; [| done].
    unfold construct in Hin'. destruct (proxy_agent_of _ _); simpl in Hin'; [done |].
    rewrite fmap_app, elem_of_app in Hin'. destruct Hin' as [? | Hx]; [done |].
    simpl in Hx. apply list_elem_of_singleton in Hx.
    apply lookup_lt_Some in Hl. lia.
  - unfold clone_end in Hin'.
    destruct (list_find _ _) as [[i [o' c'']] |]; [| done].
    destruct (sessions w !! o'); simpl in Hin'; [| done]. by eapply Hdel.
  - unfold clone_abort in Hin'.
    destruct (list_find _ _) as [[i [o' c'']] |]; [| done].
    simpl in Hin'. by eapply Hdel.
  - unfold dispose in Hin'. destruct (ready w a') as [s1 |]; [| done].
    destruct (_jupyterSessionManagerPromise s1); simpl in Hin'; [| done].
    by rewrite react_reloading in Hin'.
  - unfold settle_acquire in Hin'.
    destruct (promises w !! p) as [[[a' | a' | p'] [] rs] |]; try done.
    destruct (sessions w !! a') as [this |]; [| done].
    destruct (Acquire.createJupyterSessionManager _ _ _ _) as [[m | e |] eff];
      [| | done]; simpl in Hin'; by rewrite settle_reloading in Hin'.
  - unfold settle_plugins in Hin'.
    destruct (promises w !! p) as [[[a' | a' | p'] [] rs] |]; try done.
    by rewrite settle_reloading in Hin'.
  - destruct (jobs w) as [| [r st] js]; [done |].
    unfold run_job in Hin'.
    destruct r as [| a' q | q];
      [destruct st as [| [[m |] | reg] | e] | destruct st as [| [m | reg] | e] |];
      simpl in Hin'; rewrite ?settle_reloading in Hin'; simpl in Hin'; done.
Qed.

Lemma ready_run (ops : list Op) : ∀ (w : World) a s,
  ready w a = Some s → ∃ s', ready (run ops w) a = Some s'.
Proof.
  induction ops as [| op ops IH]; intros w a s Ha; [eauto |].
  rewrite run_cons. destruct (ready_step w op a s Ha) as (s1 & H1). eauto.
Qed.

(** *** Teardown callbacks: each one scheduled runs at most once *)

Lemma count_rdispose_app rs1 rs2 :
  count_rdispose (rs1 ++ rs2) = count_rdispose rs1 + count_rdispose rs2.
Proof. unfold count_rdispose. by rewrite List.filter_app, length_app. Qed.

Lemma count_rdispose_jobs (rs : list Reaction) (st : PState) :
  count_rdispose ((λ r, (r, st)) <$> rs).*1 = count_rdispose rs.
Proof.
  rewrite <- list_fmap_compose. f_equal. induction rs; simpl; [done | by f_equal].
Qed.

Lemma count_rdispose_insert (ps : list Promise) p pp new :
  ps !! p = Some pp →
  count_rdispose (<[p := new]> ps ≫= reactions) + count_rdispose (reactions pp) =
  count_rdispose (ps ≫= reactions) + count_rdispose (reactions new).
Proof.
  intros Hp. pose proof (lookup_lt_Some _ _ _ Hp) as Hlt.
  rewrite insert_take_drop by done.
  rewrite <- (take_drop_middle ps p pp Hp) at 3.
  rewrite !bind_app, !bind_cons, !count_rdispose_app. lia.
Qed.

Lemma scheduled_alloc k (w : World) : scheduled (alloc k w) = scheduled w.
Proof.
  unfold scheduled. simpl. rewrite bind_app, count_rdispose_app. simpl.
  unfold count_rdispose at 2. simpl. lia.
Qed.

Lemma scheduled_settle p st (w : World) : scheduled (settle p st w) = scheduled w.
Proof.
  destruct (settle_cases p st w) as [(pp & Hp & _ & Hps & Hjs) | [-> _]]; [| done].
  unfold scheduled. rewrite Hps, Hjs, fmap_app, count_rdispose_app, count_rdispose_jobs.
  pose proof (count_rdispose_insert (promises w) p pp
                {| kind := kind pp; state := st; reactions := [] |} Hp) as H.
  simpl in H. unfold count_rdispose at 4 in H. simpl in H. lia.
Qed.

Lemma scheduled_react p r (w : World) :
  scheduled (react p r w) ≤ scheduled w + (if is_rdispose r then 1 else 0) ∧
  (is_Some (promises w !! p) →
   scheduled (react p r w) = scheduled w + (if is_rdispose r then 1 else 0)).
Proof.
  assert (count_rdispose [r] = if is_rdispose r then 1 else 0) as Hr.
  { unfold count_rdispose. simpl. by destruct (is_rdispose r). }
  destruct (react_cases p r w)
    as [(pp & Hp & _ & Hps & Hjs) | [(pp & Hp & _ & Hps & Hjs) | [Hn ->]]].
  - unfold scheduled. rewrite Hps, Hjs.
    pose proof (count_rdispose_insert (promises w) p pp
                  {| kind := kind pp; state := Pending;
                     reactions := reactions pp ++ [r] |} Hp) as H.
    simpl in H. rewrite count_rdispose_app, Hr in H. lia.
  - unfold scheduled. rewrite Hps, Hjs, fmap_app, count_rdispose_app. simpl.
    rewrite Hr. lia.
  - split; [lia |]. rewrite Hn. by intros [? ?].
Qed.

(** Teardowns that ran and teardowns that wait: only [dispose()] adds to
    their sum, and by one. *)
Lemma teardowns_step (w : World) (op : Op) :
  teardowns (events (step w op)) + scheduled (step w op) ≤
  teardowns (events w) + scheduled w + (if is_any_dispose_call op then 1 else 0).
Proof.
  destruct op as [lg lm | a' f | a' | a' | a' | c st | c | a' | p sv env fuel | p r |];
    simpl.
  - unfold construct. destruct (proxy_agent_of _ _); unfold scheduled; simpl; lia.
  - destruct (ready w a'); unfold scheduled; simpl; lia.
  - unfold jupyterSessionManager. destruct (ready w a') as [s' |]; [| lia].
    destruct (_jupyterSessionManagerPromise s'); simpl.
    + rewrite teardowns_app. unfold scheduled, teardowns. simpl. lia.
    + rewrite !teardowns_app.
      pose proof (scheduled_alloc (KAcquire a') w) as H.
      unfold scheduled, teardowns in *. simpl in *. lia.
  - unfold loadPlugins. destruct (ready w a') as [s' |]; [| lia].
    destruct (_pluginPromise s') as [p |]; simpl.
    + rewrite teardowns_app, react_events. simpl.
      pose proof (scheduled_react p (RReturn (List.length (promises w)))
                    (alloc (KFollows p) w)) as [H _].
      rewrite scheduled_alloc in H.
      unfold scheduled, teardowns in *. simpl in *. lia.
    + rewrite teardowns_app, react_events. simpl. rewrite teardowns_app.
      match goal with |- context [react ?p ?r ?w0] =>
        pose proof (scheduled_react p r w0) as [H _] end.
      rewrite scheduled_alloc in H.
      pose proof (scheduled_alloc (KLoadPlugins a') w) as H'.
      unfold scheduled, teardowns in *. simpl in *. lia.
  - unfold clone_begin, construct.
    destruct (ready w a'); [| lia].
    destruct (proxy_agent_of _ _); unfold scheduled; simpl; lia.
  - unfold clone_end. destruct (list_find _ _) as [[i [o c']] |]; [| lia].
    destruct (sessions w !! o); unfold scheduled; simpl; lia.
  - unfold clone_abort. destruct (list_find _ _) as [[i [o c']] |];
      unfold scheduled; simpl; lia.
  - unfold dispose. destruct (ready w a') as [s' |]; [| simpl; lia].
    destruct (_jupyterSessionManagerPromise s') as [p |]; simpl; [| lia].
    rewrite react_events. pose proof (scheduled_react p RDispose w) as [H _].
    unfold scheduled in *. simpl in *. lia.
  - unfold settle_acquire.
    destruct (promises w !! p) as [[[a' | a' | p'] [] rs] |]; try lia.
    destruct (sessions w !! a') as [this |]; [| lia].
    destruct (Acquire.createJupyterSessionManager _ _ _ _) as [[m | e |] eff];
      [| | lia]; simpl; rewrite teardowns_app, teardowns_log, settle_events;
      match goal with |- context [settle ?p ?st ?w0] =>
        pose proof (scheduled_settle p st w0) as H end;
      unfold scheduled in *; simpl in *; lia.
  - unfold settle_plugins.
    destruct (promises w !! p) as [[[a' | a' | p'] [] rs] |]; try lia.
    rewrite settle_events, scheduled_settle. lia.
  - destruct (jobs w) as [| [r st] js] eqn:Ej; [lia |].
    assert (scheduled (with_jobs (λ _, js) w) + (if is_rdispose r then 1 else 0) =
            scheduled w) as Hpop.
    { unfold scheduled. simpl. rewrite Ej. rewrite fmap_cons. simpl.
      unfold count_rdispose. simpl. destruct (is_rdispose r); simpl; lia. }
    unfold run_job.
    destruct r as [| a' q | q];
      [destruct st as [| [[m |] | reg] | e] | destruct st as [| [m | reg] | e] |];
      simpl in *; rewrite ?teardowns_app, ?settle_events; simpl;
      rewrite ?settle_with_sessions;
      try match goal with |- context [settle ?p ?st ?w0] =>
        pose proof (scheduled_settle p st w0) as H end;
      unfold scheduled, teardowns in *; simpl in *; lia.
Qed.

Lemma teardowns_run (ops : list Op) : ∀ w : World,
  Forall (λ op, is_any_dispose_call op = false) ops →
  teardowns (events (run ops w)) + scheduled (run ops w) ≤
  teardowns (events w) + scheduled w.
Proof.
  induction ops as [| op ops IH]; intros w Hall; [done |].
  apply Forall_cons in Hall as [Hop Hall]. rewrite run_cons.
  pose proof (IH (step w op) Hall). pose proof (teardowns_step w op).
  rewrite Hop in *. lia.
Qed.

(** *** Along a run *)

Lemma returned_run (ops : list Op) : ∀ (w : World) a,
  (∀ p, EvManagerReturned a p ∈ events w → manager_slot w a = Some p) →
  disposals a ops = 0 →
  ∀ p, EvManagerReturned a p ∈ events (run ops w) → manager_slot (run ops w) a = Some p.
Proof.
  induction ops as [| op ops IH]; intros w a Hw Hd; [done |].
  rewrite disposals_cons in Hd. rewrite run_cons.
  assert (is_dispose_call a op = false) as Hop
    by (destruct (is_dispose_call a op); [lia | done]).
  apply IH; [| lia]. intros p [Hold | Hnew]%returned_step; [| done].
  by apply manager_slot_step; [apply Hw |].
Qed.

Lemma started_run (ops : list Op) : ∀ (w : World) a,
  (∀ p, EvAcquire a p ∈ events w → manager_slot w a = Some p) →
  disposals a ops = 0 →
  ∀ p, EvAcquire a p ∈ events (run ops w) → manager_slot (run ops w) a = Some p.
Proof.
  induction ops as [| op ops IH]; intros w a Hw Hd; [done |].
  rewrite disposals_cons in Hd. rewrite run_cons.
  assert (is_dispose_call a op = false) as Hop
    by (destruct (is_dispose_call a op); [lia | done]).
  apply IH; [| lia]. intros p [Hold | Hnew]%started_step; [| done].
  by apply manager_slot_step; [apply Hw |].
Qed.

Lemma returned_run_slot (ops : list Op) : ∀ (w : World) a p0,
  manager_slot w a = Some p0 →
  disposals a ops = 0 →
  ∀ p, EvManagerReturned a p ∈ events (run ops w) →
       EvManagerReturned a p ∈ events w ∨ p = p0.
Proof.
  induction ops as [| op ops IH]; intros w a p0 Hs Hd p Hin; [auto |].
  rewrite disposals_cons in Hd. rewrite run_cons in Hin.
  assert (is_dispose_call a op = false) as Hop
    by (destruct (is_dispose_call a op); [lia | done]).
  pose proof (manager_slot_step w op a p0 Hs Hop) as Hs'.
  destruct (IH _ _ _ Hs' ltac:(lia) _ Hin) as [Hin' | ?]; [| auto].
  apply returned_step in Hin' as [? | Hnew]; [auto |]. right. congruence.
Qed.

Lemma follows_outcome (w : World) q p :
  follows w q p →
  ∃ sp sq, pstate w p = Some sp ∧ pstate w q = Some sq ∧
           (sq ≠ Pending → sq = sp) ∧ (jobs w = [] → sq = sp).
Proof.
  intros (pq & pp & a & Hq & Hp & _ & _ & Hst).
  exists (state pp), (state pq). unfold pstate. rewrite Hq, Hp.
  repeat split.
  - intros Hs. destruct (state pq); [done | done ..].
  - intros Hj. destruct (state pq); [| done ..].
    destruct Hst as [[-> _] | [_ (r & Hin & _)]]; [done |].
    rewrite Hj in Hin. by apply elem_of_nil in Hin.
Qed.

Lemma unset_empty proxy a : unset (empty_world proxy : World) a = 1.
Proof. done. Qed.

Lemma plugins_unset_empty proxy a : plugins_unset (empty_world proxy : World) a = 1.
Proof. done. Qed.

(** The promise of an acquisition handed to a caller is never rejected. *)
Lemma manager_promise_not_rejected (w : World) a p :
  wf_heap w → EvManagerReturned a p ∈ events w →
  ∃ st, pstate w p = Some st ∧ ∀ e, st ≠ Rejected e.
Proof.
  intros [Hp Hs] Hin.
  destruct (wf_manager_returned _ Hs _ _ Hin) as (pp & a' & Hpp & Hk).
  exists (state pp). unfold pstate. rewrite Hpp. split; [done |].
  intros e. by eapply (wf_acquired _ Hp).
Qed.

(** C1, as the code has it: in every run that starts with nothing, for
    every session [a]: as long as [dispose()] is not called on [a],
    [createJupyterSessionManager] runs at most once on [a], the promise of
    that call is the promise of the slot, and every call of
    [jupyterSessionManager()] on [a] is handed the promise of the slot, so
    all callers hold the same promise, that of the one call when it was
    made on [a]; the factory of the plugins runs at most once for [a], and
    the promise of every call of [loadPlugins()] on [a] has the outcome of
    the promise of the slot once it is settled, and at the latest when the
    job queue is empty; and a settled promise keeps its outcome whatever
    runs afterwards. A call of [jupyterSessionManager()] on a session that
    callers hold calls the factory exactly when the slot is unset, and
    otherwise changes nothing and hands out the promise of the slot; a
    call of [loadPlugins()] calls the factory of the plugins exactly when
    its slot is unset, and with a settled promise in the slot hands out a
    promise that has the same outcome after the next job. Once a slot is
    set, whatever runs afterwards calls its factory no more: for the
    plugins always, for the backend as long as [dispose()] is not called on
    the session. *)
Theorem memoized_once (proxy : option string) (ops : list Op) (a : nat) :
  let w := run ops (empty_world proxy) in
  (disposals a ops = 0 →
   acquisitions a (events w) ≤ 1 ∧
   (∀ p, EvManagerReturned a p ∈ events w → manager_slot w a = Some p) ∧
   (∀ p p', EvManagerReturned a p ∈ events w →
            EvManagerReturned a p' ∈ events w → p = p')) ∧
  plugin_loads a (events w) ≤ 1 ∧
  (∀ q, EvPluginsReturned a q ∈ events w →
     ∃ s p sp sq, sessions w !! a = Some s ∧ _pluginPromise s = Some p ∧
                  pstate w p = Some sp ∧ pstate w q = Some sq ∧
                  (sq ≠ Pending → sq = sp) ∧ (jobs w = [] → sq = sp)) ∧
  (∀ p st ops', pstate w p = Some st → st ≠ Pending →
                pstate (run ops' w) p = Some st) ∧
  (disposals a ops = 0 →
   ∀ p, EvAcquire a p ∈ events w →
        manager_slot w a = Some p ∧
        ∀ p', EvManagerReturned a p' ∈ events w → p' = p) ∧
  (∀ this, ready w a = Some this →
     match _jupyterSessionManagerPromise this with
     | Some p => step w (CallJupyterSessionManager a) = emit [EvManagerReturned a p] w
     | None =>
         let p := List.length (promises w) in
         events (step w (CallJupyterSessionManager a)) =
           events w ++ [EvAcquire a p; EvManagerReturned a p] ∧
         manager_slot (step w (CallJupyterSessionManager a)) a = Some p
     end ∧
     match _pluginPromise this with
     | Some p =>
         let q := List.length (promises w) in
         events (step w (CallLoadPlugins a)) = events w ++ [EvPluginsReturned a q] ∧
         plugin_slot (step w (CallLoadPlugins a)) a = Some p ∧
         ∀ st, pstate w p = Some st → st ≠ Pending → jobs w = [] →
               pstate (run [CallLoadPlugins a; Tick] w) q = Some st
     | None =>
         let p := List.length (promises w) in
         events (step w (CallLoadPlugins a)) =
           events w ++ [EvLoadPlugins a p; EvPluginsReturned a (S p)] ∧
         plugin_slot (step w (CallLoadPlugins a)) a = Some p
     end) ∧
  (∀ ops' p, manager_slot w a = Some p → disposals a ops' = 0 →
     acquisitions a (events (run ops' w)) = acquisitions a (events w) ∧
     manager_slot (run ops' w) a = Some p) ∧
  (∀ ops' p, plugin_slot w a = Some p →
     plugin_loads a (events (run ops' w)) = plugin_loads a (events w)).
Proof.
  intros w. subst w.
  assert (disposals a ops = 0 →
          ∀ p, EvManagerReturned a p ∈ events (run ops (empty_world proxy)) →
               manager_slot (run ops (empty_world proxy)) a = Some p) as Hret.
  { intros Hd. apply returned_run; [| done].
    simpl. intros p Hin. by apply elem_of_nil in Hin. }
  split; [| split; [| split; [| split; [| split; [| split; [| split]]]]]].
  - intros Hd.
    pose proof (acquisitions_run ops (empty_world proxy) a) as Hacq.
    rewrite Hd, unset_empty in Hacq. simpl in Hacq.
    split; [unfold acquisitions in *; simpl in *; lia |]. split; [by apply Hret |].
    intros p p' H1 H2. apply (Hret Hd) in H1, H2. congruence.
  - pose proof (plugin_loads_run ops (empty_world proxy) a) as Hl.
    rewrite plugins_unset_empty in Hl. unfold plugin_loads in *. simpl in *. lia.
  - intros q Hin.
    pose proof (wf_run ops _ (wf_empty proxy)) as [Hp Hs].
    destruct (wf_plugins_returned _ Hs _ _ Hin) as (s & p & pq & Ha & Hps & Hq & Hk).
    destruct (follows_outcome _ _ _ (wf_follows _ Hp _ _ _ Hq Hk))
      as (sp & sq & ? & ? & ? & ?).
    exists s, p, sp, sq. done.
  - intros p st ops'. apply pstate_run.
  - intros Hd p Hin.
    assert (manager_slot (run ops (empty_world proxy)) a = Some p) as Hslot.
    { revert p Hin. apply started_run; [| done].
      simpl. intros p Hin. by apply elem_of_nil in Hin. }
    split; [done |]. intros p' Hin'. apply (Hret Hd) in Hin'. congruence.
  - set (w := run ops (empty_world proxy)). intros this Hr.
    pose proof (ready_lookup _ _ _ Hr) as Hl.
    pose proof (ready_not_reloading _ _ _ Hr) as Hnr.
    split.
    + simpl. unfold jupyterSessionManager. rewrite Hr.
      destruct (_jupyterSessionManagerPromise this) as [p |] eqn:Es; [done |].
      simpl. split; [by rewrite <- app_assoc |].
      rewrite manager_slot_unfold. simpl.
      rewrite bool_decide_eq_false_2 by done.
      by rewrite list_lookup_alter_eq, Hl.
    + simpl. unfold loadPlugins. rewrite Hr.
      destruct (_pluginPromise this) as [p |] eqn:Es; simpl.
      * rewrite react_events. split; [done |]. split.
        { rewrite plugin_slot_unfold. simpl.
          rewrite react_sessions, react_reloading. simpl.
          rewrite bool_decide_eq_false_2 by done. by rewrite Hl. }
        intros st Hp Hst Hj. unfold pstate in Hp.
        destruct (promises w !! p) as [pp |] eqn:Epp; [| done].
        simpl in Hp. injection Hp as Hp.
        unfold Heap.run. simpl.
        unfold react. simpl. rewrite (lookup_app_l_Some _ _ _ _ Epp), Hp.
        destruct st as [| v | e]; [done | |]; simpl; rewrite Hj; simpl;
          unfold settle; simpl;
          rewrite list_lookup_middle by done; simpl;
          unfold pstate; simpl;
          by rewrite list_lookup_insert_eq
            by (rewrite length_app; simpl; lia).
      * rewrite react_events. simpl. rewrite length_app. simpl.
        rewrite <- app_assoc. simpl. rewrite Nat.add_1_r. split; [done |].
        rewrite plugin_slot_unfold. simpl.
        rewrite react_sessions, react_reloading. simpl.
        rewrite bool_decide_eq_false_2 by done.
        by rewrite list_lookup_alter_eq, Hl.
  - intros ops' p Hs Hd.
    pose proof (acquisitions_run ops' (run ops (empty_world proxy)) a) as Hacq.
    pose proof (acquisitions_mono ops' (run ops (empty_world proxy)) a).
    unfold unset in Hacq at 2. rewrite Hs, Hd in Hacq.
    split; [lia | by apply manager_slot_run].
  - intros ops' p Hs.
    pose proof (plugin_loads_run ops' (run ops (empty_world proxy)) a) as Hl.
    unfold plugins_unset in Hl at 2. rewrite Hs in Hl.
    destruct (events_run ops' (run ops (empty_world proxy))) as (evs & Hev).
    rewrite Hev, plugin_loads_app in *. lia.
Qed.

(** C7, as the code has it: along every run, [createJupyterSessionManager]
    is called on a session at most once more than [dispose()] is (not at
    all before the first [dispose()] when the slot is set at the start);
    and while [dispose()] is not called on the session, a slot that is set,
    settled or not, stays as it is and no acquisition runs on the
    session. *)
Theorem acquisitions_bounded (w : World) (ops : list Op) (a : nat) :
  acquisitions a (events (run ops w)) ≤
    acquisitions a (events w) + unset w a + disposals a ops ∧
  (∀ p, manager_slot w a = Some p → disposals a ops = 0 →
        acquisitions a (events (run ops w)) = acquisitions a (events w) ∧
        manager_slot (run ops w) a = Some p).
Proof.
  pose proof (acquisitions_run ops w a) as Hacq. split; [lia |].
  intros p Hs Hd. pose proof (acquisitions_mono ops w a).
  unfold unset in Hacq at 2. rewrite Hs, Hd in Hacq.
  split; [lia | by apply manager_slot_run].
Qed.

(** *** [clone()] *)

Lemma reloading_origin (rl : list (nat * nat)) o1 o2 c :
  NoDup rl.*2 → (o1, c) ∈ rl → (o2, c) ∈ rl → o1 = o2.
Proof.
  intros Hnd [i Hi]%list_elem_of_lookup [j Hj]%list_elem_of_lookup.
  assert (i = j) as ->.
  { eapply (NoDup_lookup _ _ _ c); [exact Hnd | |].
    - by rewrite list_lookup_fmap, Hi.
    - by rewrite list_lookup_fmap, Hj. }
  congruence.
Qed.

Lemma not_elem_of_delete_snd (rl : list (nat * nat)) i o c :
  NoDup rl.*2 → rl !! i = Some (o, c) → c ∉ (delete i rl).*2.
Proof.
  intros Hnd Hi. rewrite <- (take_drop_middle rl i (o, c)) in Hnd by done.
  rewrite fmap_app, fmap_cons in Hnd. simpl in Hnd.
  apply NoDup_app in Hnd as (_ & Hdisj & Hnd). apply NoDup_cons in Hnd as [Hc _].
  rewrite delete_take_drop, fmap_app, elem_of_app.
  intros [Hin | Hin]; [| done]. apply (Hdisj _ Hin). apply elem_of_cons. auto.
Qed.

(** C4, as the code has it: [clone()] on a session [a] that callers hold
    makes a session [c] with the logger and the limiter of [a], and runs no acquisition, neither
    when it starts nor when it goes on after the reload; whatever happens
    while the clone reloads, afterwards the clone has the store its own
    reload left, the origin has its session unchanged but for the clone
    recorded last in [_clones], and the slot of the clone is the slot the
    origin has at that moment. When that slot holds a promise [p], then as
    long as [dispose()] is not called on the clone no acquisition runs on
    the clone, its slot stays [p], every [jupyterSessionManager()] on the
    clone is handed [p], and a value [p] is fulfilled with stays. *)
Theorem clone_shares (w : World) (a : nat) (this : Session) (ops ops' : list Op)
    (st : RootState) :
  wf w →
  ready w a = Some this →
  let c := List.length (sessions w) in
  Forall (λ op, is_reload_end c op = false) ops →
  let w1 := step w (CallClone a) in
  let w2 := run ops w1 in
  let w3 := step w2 (ReloadDone c st) in
  let w4 := run ops' w3 in
  events w1 = events w ∧ events w3 = events w2 ∧ ready w1 c = None ∧
  ∃ origin cloneSession,
    ready w2 a = Some origin ∧ ready w3 c = Some cloneSession ∧
    logger cloneSession = logger this ∧
    doiLimiter cloneSession = doiLimiter this ∧
    store cloneSession = st ∧
    _jupyterSessionManagerPromise cloneSession =
      _jupyterSessionManagerPromise origin ∧
    sessions w3 !! a = Some (push_clone c origin) ∧
    (∀ p, _jupyterSessionManagerPromise origin = Some p →
          disposals c ops' = 0 →
          acquisitions c (events w4) = acquisitions c (events w3) ∧
          manager_slot w4 c = Some p ∧
          (∀ p', EvManagerReturned c p' ∈ events w4 →
                 EvManagerReturned c p' ∈ events w3 ∨ p' = p) ∧
          (∀ v, pstate w3 p = Some (Fulfilled v) →
                pstate w4 p = Some (Fulfilled v))).
Proof.
  intros [Hwf Henv] Ha c Hops w1 w2 w3 w4.
  pose proof (ready_lookup _ _ _ Ha) as Hal.
  pose proof (Henv _ _ Hal) as Hagent.
  pose proof (lookup_lt_Some _ _ _ Hal) as Hlt. fold c in Hlt.
  assert (wf_heap w1) as Hwf1 by (by apply wf_step).
  assert (wf_heap w2) as Hwf2 by (by apply wf_run).
  assert (events w1 = events w) as He1.
  { subst w1. simpl. unfold clone_begin, construct. by rewrite Ha, Hagent. }
  assert ((a, c) ∈ reloading w1) as Hin1.
  { subst w1. simpl. unfold clone_begin, construct. rewrite Ha, Hagent. simpl.
    apply elem_of_app. right. by apply list_elem_of_singleton. }
  assert (∃ cs, sessions w1 !! c = Some cs ∧ logger cs = logger this ∧
                doiLimiter cs = doiLimiter this) as (cs1 & Hc1 & Hl1 & Hd1).
  { subst w1. simpl. unfold clone_begin, construct. rewrite Ha, Hagent. simpl.
    eexists. rewrite lookup_app_r, Nat.sub_diag by done. done. }
  assert (ready w1 c = None) as Hnr.
  { unfold ready. rewrite bool_decide_eq_true_2; [done |].
    apply list_elem_of_fmap. by exists (a, c). }
  destruct (ready_step w (CallClone a) a this Ha) as (s1 & Ha1). fold w1 in Ha1.
  destruct (ready_run ops w1 a s1 Ha1) as (origin & Ha2). fold w2 in Ha2.
  pose proof (ready_lookup _ _ _ Ha2) as Hal2.
  pose proof (ready_not_reloading _ _ _ Ha2) as Har2.
  pose proof (reloading_run ops w1 a c Hin1 Hops) as Hin2. fold w2 in Hin2.
  destruct (session_run ops w1 c cs1 Hc1) as (cs2 & Hc2 & Hl2 & Hd2). fold w2 in Hc2.
  destruct Hwf2 as [Hp2 Hs2].
  assert (a ≠ c) as Hac.
  { intros ->. apply Har2. apply list_elem_of_fmap. by exists (c, c). }
  assert (∃ i, list_find (λ e, e.2 = c) (reloading w2) = Some (i, (a, c)) ∧
               reloading w2 !! i = Some (a, c)) as (i & Hfind & Hi).
  { destruct (list_find (λ e, e.2 = c) (reloading w2)) as [[i [o c']] |] eqn:Ef.
    - pose proof (list_find_snd _ _ _ _ Ef) as Hi. simpl in Hi.
      apply list_find_Some in Ef as (_ & Hc' & _). simpl in Hc'. subst c'.
      assert (o = a) as ->.
      { eapply reloading_origin; [apply (wf_reloading_once _ Hs2) | | done].
        by eapply list_elem_of_lookup_2. }
      eauto.
    - apply list_find_None in Ef. rewrite Forall_forall in Ef.
      by destruct (Ef _ Hin2). }
  set (cloneSession := set_manager_promise (_jupyterSessionManagerPromise origin)
                         (set_store st cs2)).
  assert (w3 = with_reloading (delete i)
            (with_sessions (λ ss, alter (push_clone c) a
               (alter (λ cloneSession, set_manager_promise
                         (_jupyterSessionManagerPromise origin)
                         (set_store st cloneSession)) c ss)) w2)) as Hw3.
  { subst w3. simpl. unfold clone_end. by rewrite Hfind, Hal2. }
  assert (ready w3 c = Some cloneSession) as Hc3.
  { rewrite Hw3. unfold ready. simpl.
    rewrite bool_decide_eq_false_2
      by (eapply not_elem_of_delete_snd; [apply (wf_reloading_once _ Hs2) | done]).
    rewrite list_lookup_alter_ne by done. by rewrite list_lookup_alter_eq, Hc2. }
  split; [done |]. split; [by rewrite Hw3 |]. split; [done |].
  exists origin, cloneSession.
  split; [done |]. split; [done |].
  split; [simpl; congruence |]. split; [simpl; congruence |].
  split; [done |]. split; [done |]. split.
  { rewrite Hw3. simpl. rewrite list_lookup_alter_eq.
    rewrite list_lookup_alter_ne by done. by rewrite Hal2. }
  intros p Hp Hdis. split; [| split; [| split]].
  - pose proof (acquisitions_run ops' w3 c) as Hacq.
    pose proof (acquisitions_mono ops' w3 c) as Hmono.
    assert (unset w3 c = 0) as Hu.
    { unfold unset, manager_slot. rewrite Hc3. simpl. by rewrite Hp. }
    rewrite Hu, Hdis in Hacq. fold w4 in Hacq, Hmono. lia.
  - apply manager_slot_run; [| done]. unfold manager_slot. by rewrite Hc3.
  - apply returned_run_slot; [| done]. unfold manager_slot. by rewrite Hc3.
  - intros v Hv. by apply pstate_run.
Qed.

(** C3: whatever the services do and however long the run, the promise of
    [createJupyterSessionManager] is never rejected; when the body of the
    [try] throws at any stage, the exception is logged as an error after
    what was logged before it and the result is [undefined]; and in every
    run that starts with nothing, a promise handed to a caller of
    [jupyterSessionManager()] is pending or fulfilled, never rejected. *)
Theorem acquisition_never_rejects (sv : Acquire.Services St) (fuel : nat)
    (env : Acquire.Env) (src : string) (proxy : option string) (ops : list Op) :
  let r := Acquire.createJupyterSessionManager sv fuel env src in
  (∀ e, r.1 ≠ Acquire.Throws e) ∧
  (∀ e eff,
     Acquire.acquire sv fuel env src {| Acquire.log := []; Acquire.repo := None |} =
       (Acquire.Throws e, eff) →
     r = (Acquire.Returns None,
          {| Acquire.log := Acquire.log eff ++ [LError Acquire.unable_msg e];
             Acquire.repo := Acquire.repo eff |})) ∧
  (∀ a p, EvManagerReturned a p ∈ events (run ops (empty_world proxy)) →
     ∃ st, pstate (run ops (empty_world proxy)) p = Some st ∧ ∀ e, st ≠ Rejected e).
Proof.
  simpl. split; [| split].
  - intros e. apply AcquireProps.createJupyterSessionManager_catches.
  - apply AcquireProps.createJupyterSessionManager_outcome.
  - intros a p. apply manager_promise_not_rejected, wf_run, wf_empty.
Qed.

(** *** [dispose()] *)

(** **** The managers of a run *)

Lemma built_pending : built Pending.
Proof. by intros m. Qed.

Lemma built_plugins reg : built (Fulfilled (VPlugins reg)).
Proof. by intros m. Qed.

Lemma built_rejected e : built (Rejected e).
Proof. by intros m. Qed.

Lemma built_undefined : built (Fulfilled (VManager None)).
Proof. by intros m. Qed.

Lemma wf_managers_proper (w w' : World) :
  promises w' = promises w → jobs w' = jobs w → events w' = events w →
  wf_managers w → wf_managers w'.
Proof. intros Hp Hj He [H1 H2 H3]. split; rewrite ?Hp, ?Hj, ?He; done. Qed.

Lemma wf_managers_alloc k (w : World) : wf_managers w → wf_managers (alloc k w).
Proof.
  intros [H1 H2 H3]. split; simpl; [| done ..].
  intros p pp [[_ ?] | [_ <-]]%lookup_snoc_Some; [eauto |]. apply built_pending.
Qed.

Lemma wf_managers_emit evs (w : World) :
  (∀ m, EvDisposeManager m ∈ evs → Acquire.lifetime_tied m) →
  wf_managers w → wf_managers (emit evs w).
Proof.
  intros Hevs [H1 H2 H3]. split; simpl; [done .. |].
  intros m [? | ?]%elem_of_app; auto.
Qed.

Lemma wf_managers_pop j js (w : World) :
  jobs w = j :: js → wf_managers w → wf_managers (with_jobs (λ _, js) w).
Proof.
  intros Hj [H1 H2 H3]. split; simpl; [done | | done].
  intros r st Hin. apply (H2 r). rewrite Hj. by right.
Qed.

Lemma wf_managers_settle p st (w : World) :
  built st → wf_managers w → wf_managers (settle p st w).
Proof.
  intros Hst Hw.
  destruct (settle_cases p st w) as [(pp & Hp & Hs & Hps & Hjs) | [-> _]]; [| done].
  destruct Hw as [H1 H2 H3]. split.
  - intros q pq. rewrite Hps. destruct (decide (p = q)) as [<- | Hne].
    + rewrite list_lookup_insert_eq by (by eapply lookup_lt_Some).
      by intros [= <-].
    + rewrite list_lookup_insert_ne by done. apply H1.
  - intros r st'. rewrite Hjs.
    intros [? | (r' & [= _ ->] & _)%list_elem_of_fmap]%elem_of_app; eauto.
  - by rewrite settle_events.
Qed.

Lemma wf_managers_react p r (w : World) : wf_managers w → wf_managers (react p r w).
Proof.
  intros [H1 H2 H3].
  destruct (react_cases p r w)
    as [(pp & Hp & Hs & Hps & Hjs) | [(pp & Hp & Hs & Hps & Hjs) | [_ ->]]]; [| | done].
  - split.
    + intros q pq. rewrite Hps. destruct (decide (p = q)) as [<- | Hne].
      * rewrite list_lookup_insert_eq by (by eapply lookup_lt_Some).
        intros [= <-]. apply built_pending.
      * rewrite list_lookup_insert_ne by done. apply H1.
    + by rewrite Hjs.
    + by rewrite react_events.
  - split.
    + by rewrite Hps.
    + intros r' st. rewrite Hjs.
      intros [? | [= _ ->]%list_elem_of_singleton]%elem_of_app; eauto.
    + by rewrite react_events.
Qed.

(** Every step keeps the managers of the world those that acquisition
    built: a promise of an acquisition is fulfilled with the manager that
    [createJupyterSessionManager] returns, and the reactions hand it on as
    it is. *)
Lemma wf_managers_step (w : World) (op : Op) : wf_managers w → wf_managers (step w op).
Proof.
  intros Hw.
  assert (∀ evs : list Event,
            (∀ m, EvDisposeManager m ∈ evs → False) →
            ∀ m, EvDisposeManager m ∈ evs → Acquire.lifetime_tied m) as Hnone.
  { intros evs H m Hin. by destruct (H m Hin). }
  destruct op as [lg lm | a' f | a' | a' | a' | c st | c | a' | q sv env fuel | q r |];
    simpl.
  - unfold construct. by destruct (proxy_agent_of _ _); apply (wf_managers_proper w).
  - destruct (ready w a'); [| done]. by apply (wf_managers_proper w).
  - unfold jupyterSessionManager. destruct (ready w a') as [s' |]; [| done].
    destruct (_jupyterSessionManagerPromise s'); simpl.
    + apply wf_managers_emit; [| done]. apply Hnone.
      by intros m ?%list_elem_of_singleton.
    + apply wf_managers_emit;
        [apply Hnone; by intros m ?%list_elem_of_singleton |].
      eapply (wf_managers_proper (emit _ (alloc (KAcquire a') w))); [done .. |].
      apply wf_managers_emit;
        [apply Hnone; by intros m ?%list_elem_of_singleton |].
      by apply wf_managers_alloc.
  - unfold loadPlugins. destruct (ready w a') as [s' |]; [| done].
    destruct (_pluginPromise s') as [p' |]; simpl.
    + apply wf_managers_emit;
        [apply Hnone; by intros m ?%list_elem_of_singleton |].
      by apply wf_managers_react, wf_managers_alloc.
    + apply wf_managers_emit;
        [apply Hnone; by intros m ?%list_elem_of_singleton |].
      apply wf_managers_react, wf_managers_alloc.
      eapply (wf_managers_proper (emit _ (alloc (KLoadPlugins a') w))); [done .. |].
      apply wf_managers_emit;
        [apply Hnone; by intros m ?%list_elem_of_singleton |].
      by apply wf_managers_alloc.
  - unfold clone_begin. destruct (ready w a'); [| done].
    unfold construct. by destruct (proxy_agent_of _ _); apply (wf_managers_proper w).
  - unfold clone_end. destruct (list_find _ _) as [[i [o c']] |]; [| done].
    destruct (sessions w !! o); [| done]. by apply (wf_managers_proper w).
  - unfold clone_abort. destruct (list_find _ _) as [[i [o c']] |]; [| done].
    by apply (wf_managers_proper w).
  - unfold dispose. destruct (ready w a') as [s' |]; [| done].
    destruct (_jupyterSessionManagerPromise s') as [p' |]; simpl; [| done].
    eapply (wf_managers_proper (react p' RDispose w));
      [done .. | by apply wf_managers_react].
  - unfold settle_acquire.
    destruct (promises w !! q) as [[[a' | a' | p'] [] rs] |]; try done.
    destruct (sessions w !! a') as [this |]; [| done].
    destruct (Acquire.createJupyterSessionManager _ _ _ _) as [[m | e |] eff] eqn:Hc;
      [| | done].
    + apply wf_managers_emit.
      { apply Hnone. by intros m' (l & ? & _)%list_elem_of_fmap. }
      apply wf_managers_settle; [| done].
      intros m' [= ->]. by eapply AcquireProps.created_manager_tied.
    + apply wf_managers_emit.
      { apply Hnone. by intros m' (l & ? & _)%list_elem_of_fmap. }
      apply wf_managers_settle; [apply built_rejected | done].
  - unfold settle_plugins.
    destruct (promises w !! q) as [[[a' | a' | p'] [] rs] |]; try done.
    apply wf_managers_settle; [| done].
    destruct r; [apply built_rejected | apply built_plugins].
  - destruct (jobs w) as [| [r st] js] eqn:Ej; [done |].
    pose proof (wf_managers_pop _ _ _ Ej Hw) as Hw'.
    assert (built st) as Hst.
    { apply (wf_queued _ Hw r). rewrite Ej. by left. }
    unfold run_job.
    destruct r as [| a' q | q];
      [destruct st as [| [[m |] | reg] | e] | destruct st as [| [m | reg] | e] |];
      try done; try (by apply wf_managers_settle).
    + apply wf_managers_emit; [| done].
      intros m' [= ->]%list_elem_of_singleton. by apply Hst.
    + apply wf_managers_settle; [done |].
      by eapply (wf_managers_proper (with_jobs (λ _, js) w)).
Qed.

Lemma wf_managers_run (ops : list Op) : ∀ w : World,
  wf_managers w → wf_managers (run ops w).
Proof.
  induction ops as [| op ops IH]; intros w Hw; [done |].
  rewrite run_cons. by apply IH, wf_managers_step.
Qed.

Lemma wf_managers_empty proxy : wf_managers (empty_world proxy : World).
Proof.
  split; simpl.
  - intros p pp Hl. by rewrite lookup_nil in Hl.
  - intros r st Hin. by apply elem_of_nil in Hin.
  - intros m Hin. by apply elem_of_nil in Hin.
Qed.

Lemma ready_dispose (w : World) a this p :
  ready w a = Some this → _jupyterSessionManagerPromise this = Some p →
  ready (dispose a w).2 a = Some (set_manager_promise None this).
Proof.
  intros Ha Hs. unfold dispose. rewrite Ha, Hs. simpl.
  unfold ready in *. simpl. rewrite react_sessions, react_reloading.
  case_bool_decide; [done |]. by rewrite list_lookup_alter_eq, Ha.
Qed.

(** C6: [dispose()] raises nothing; a second call in sequence changes
    nothing; the first call adds no event by itself and schedules the
    release of the manager once when the slot holds a promise (nothing
    when the slot is unset); whatever runs after the two calls, short of
    further calls of [dispose()], [manager.dispose()] runs at most once
    more than it had and was already scheduled to; with the slot fulfilled
    with a manager and the job queue empty, the two calls and the next job
    make exactly one call of [manager.dispose()]. A manager made by
    acquisition is built over the settings that the strategy which fired
    obtained, its kernel manager over the same, and its [disposed] handler
    disposes of that kernel manager and then of the service these
    settings own, if any; and in a world of a run, every manager that is
    ever torn down, after the two calls as before, is such a manager. *)
Theorem dispose_idempotent (w : World) (a : nat) :
  let w1 := (dispose a w).2 in
  let w2 := (dispose a w1).2 in
  (dispose a w).1 = None ∧ (dispose a w1).1 = None ∧
  w2 = w1 ∧
  events w1 = events w ∧
  scheduled w1 ≤ scheduled w + 1 ∧
  (∀ p, manager_slot w a = Some p → is_Some (promises w !! p) →
        scheduled w1 = scheduled w + 1 ∧ manager_slot w1 a = None) ∧
  (manager_slot w a = None → w1 = w) ∧
  (∀ ops, Forall (λ op, is_any_dispose_call op = false) ops →
          teardowns (events (run ops w2)) ≤ teardowns (events w) + scheduled w + 1) ∧
  (∀ p m, manager_slot w a = Some p →
          pstate w p = Some (Fulfilled (VManager (Some m))) → jobs w = [] →
          events (step w2 Tick) = events w ++ [EvDisposeManager m]) ∧
  (∀ (sv : Acquire.Services St) fuel env src m eff,
     Acquire.createJupyterSessionManager sv fuel env src = (Acquire.Returns (Some m), eff) →
     ∃ partial,
       Acquire.acquire_settings sv fuel env src
           {| Acquire.log := []; Acquire.repo := None |} =
         (Acquire.Returns partial, eff) ∧
       Acquire.serverSettings m = {| Acquire.made_from := partial |} ∧
       Acquire.km_settings (Acquire.kernelManager m) = Acquire.serverSettings m ∧
       Acquire.on_disposed m =
         Acquire.DisposeKernelManager (Acquire.kernelManager m) ::
         match partial ≫= Acquire.dispose with
         | Some service => [Acquire.DisposeServer service]
         | None => []
         end) ∧
  (reachable w →
   ∀ ops m, EvDisposeManager m ∈ events (run ops w2) →
     Acquire.km_settings (Acquire.kernelManager m) = Acquire.serverSettings m ∧
     Acquire.on_disposed m =
       Acquire.DisposeKernelManager (Acquire.kernelManager m) ::
       match Acquire.made_from (Acquire.serverSettings m) ≫= Acquire.dispose with
       | Some service => [Acquire.DisposeServer service]
       | None => []
       end).
Proof.
  intros w1 w2.
  assert ((dispose a w).1 = None) as Hn1.
  { unfold dispose. destruct (ready w a) as [this |]; [| done].
    by destruct (_jupyterSessionManagerPromise this). }
  assert ((dispose a w1).1 = None) as Hn2.
  { unfold dispose. destruct (ready w1 a) as [this |]; [| done].
    by destruct (_jupyterSessionManagerPromise this). }
  assert (w2 = w1) as H21.
  { subst w2 w1. unfold dispose at 1.
    destruct (ready w a) as [this |] eqn:Ha.
    - destruct (_jupyterSessionManagerPromise this) as [p |] eqn:Hs.
      + by rewrite (ready_dispose w a this p Ha Hs).
      + unfold dispose. rewrite Ha, Hs. simpl. by rewrite Ha, Hs.
    - unfold dispose. rewrite Ha. simpl. by rewrite Ha. }
  assert (events w1 = events w) as He.
  { subst w1. unfold dispose. destruct (ready w a) as [this |]; [| done].
    destruct (_jupyterSessionManagerPromise this); simpl; [| done].
    by rewrite react_events. }
  assert (scheduled w1 ≤ scheduled w + 1) as Hle.
  { pose proof (teardowns_step w (CallDispose a)) as H. simpl in H.
    fold w1 in H. rewrite He in H. lia. }
  split; [done |]. split; [done |]. split; [done |]. split; [done |].
  split; [done |]. split; [| split; [| split; [| split; [| split]]]].
  - intros p Hs Hp. unfold manager_slot in Hs.
    destruct (ready w a) as [this |] eqn:Ha; [| done]. simpl in Hs. split.
    + subst w1. unfold dispose. rewrite Ha, Hs. simpl.
      destruct (scheduled_react p RDispose w) as [_ H]. specialize (H Hp).
      unfold scheduled in *. simpl in *. lia.
    + subst w1. unfold manager_slot. by rewrite (ready_dispose w a this p Ha Hs).
  - intros Hs. subst w1. unfold dispose, manager_slot in *.
    destruct (ready w a) as [this |]; [| done]. simpl in Hs. by rewrite Hs.
  - intros ops Hops. rewrite H21.
    pose proof (teardowns_run ops w1 Hops). rewrite He in *. lia.
  - intros p m Hs Hp Hj. rewrite H21. subst w1. unfold manager_slot in Hs.
    destruct (ready w a) as [this |] eqn:Ha; [| done]. simpl in Hs.
    unfold dispose. rewrite Ha, Hs. simpl.
    unfold pstate in Hp. destruct (promises w !! p) as [pp |] eqn:Epp; [| done].
    simpl in Hp. injection Hp as Hp.
    unfold react. rewrite Epp, Hp. simpl. by rewrite Hj.
  - intros sv fuel env src m eff Hc.
    destruct (AcquireProps.created_manager_settings sv fuel env src m eff Hc)
      as (partial & Hs & _ & ->).
    by exists partial.
  - intros (proxy & ops0 & Hw) ops m Hin.
    assert (wf_managers (run ops w2)) as Hm.
    { apply wf_managers_run. subst w2 w1.
      apply (wf_managers_step _ (CallDispose a)), (wf_managers_step _ (CallDispose a)).
      rewrite Hw. apply wf_managers_run, wf_managers_empty. }
    pose proof (wf_torn_down _ Hm m Hin) as Ht. unfold Acquire.lifetime_tied in Ht.
    by rewrite Ht.
Qed.

(** *** [getAllWarnings] *)

Variable selectFileWarningsByRule : RootState → string → list Warnings.Warning.


End WithStore.

End HeapProps.

(** ** The properties at the samples *)

Module Examples.
Import Heap Samples.

(** Three calls of [jupyterSessionManager()] around the end of the
    acquisition: one acquisition, and its promise handed to all three
    callers; a fourth call changes nothing but to hand it out again. *)
Lemma memoized_once_witness :
  let ops := [New None None; CallJupyterSessionManager 0;
              CallJupyterSessionManager 0; acquired 0;
              CallJupyterSessionManager 0] in
  let w := run ops empty in
  disposals 0 ops = 0 ∧ acquisitions 0 (events w) = 1 ∧
  events w !! 0 = Some (EvAcquire 0 0) ∧
  manager_slot w 0 = Some 0 ∧
  (∀ p, EvManagerReturned 0 p ∈ events w → p = 0) ∧
  (∃ m, pstate w 0 = Some (Fulfilled (VManager (Some m)))) ∧
  step w (CallJupyterSessionManager 0) = emit [EvManagerReturned 0 0] w.
Proof.
  intros ops w.
  pose proof (HeapProps.memoized_once parse_url [] no_path no_path resolve None ops 0)
    as (_ & _ & _ & _ & Hstarted & Hcall & _).
  assert (EvAcquire 0 0 ∈ events w) as Hin
    by (apply list_elem_of_lookup; by exists 0).
  destruct (Hstarted eq_refl 0 Hin) as [Hslot Hsame].
  split; [reflexivity |]. split; [reflexivity |]. split; [reflexivity |].
  split; [exact Hslot |]. split; [exact Hsame |]. split; [by eexists |].
  destruct (ready w 0) as [this |] eqn:Hr; [| discriminate Hr].
  destruct (Hcall this Hr) as [Hmanager _].
  injection Hr as <-. exact Hmanager.
Defined.

(** After the backend of a session has resolved, [dispose()] and one more
    call of [jupyterSessionManager()]: the factory runs a second time, and
    the second caller is handed another promise, still pending, while that
    of the first caller is fulfilled. *)
Lemma memoized_not_across_dispose :
  let ops := [New None None; CallJupyterSessionManager 0; acquired 0;
              CallDispose 0; CallJupyterSessionManager 0] in
  let w := run ops empty in
  acquisitions 0 (events w) = 2 ∧
  List.filter (λ ev, if ev is EvLog _ then false else true) (events w) =
    [EvAcquire 0 0; EvManagerReturned 0 0; EvAcquire 0 1; EvManagerReturned 0 1] ∧
  (∃ m, pstate w 0 = Some (Fulfilled (VManager (Some m)))) ∧
  pstate w 1 = Some Pending.
Proof. repeat split. by eexists. Qed.

(** Calls of [loadPlugins()] before and after the plugins are there. *)
Example loadPlugins_once :
  let w := run [New None None; CallLoadPlugins 0; CallLoadPlugins 0;
                SettlePlugins 0 (inr (mkPlugin 1)); Tick; Tick;
                CallLoadPlugins 0; Tick] empty in
  plugin_loads 0 (events w) = 1 ∧
  pstate w 1 = Some (Fulfilled (VPlugins (mkPlugin 1))) ∧
  pstate w 2 = Some (Fulfilled (VPlugins (mkPlugin 1))) ∧
  pstate w 3 = Some (Fulfilled (VPlugins (mkPlugin 1))).
Proof. repeat split. Qed.

(** The failed build of the samples is caught. *)
Lemma acquisition_never_rejects_witness :
  Acquire.createJupyterSessionManager (list_stream [waiting; failed] id) 5 binder_env "." =
  (Acquire.Returns None,
   {| Acquire.log := Acquire.console_lines [waiting; failed] ++
                     [LError Acquire.unable_msg Acquire.build_failed];
      Acquire.repo := Some [] |}).
Proof.
  exact (proj1 (proj2 (HeapProps.acquisition_never_rejects parse_url [] no_path no_path resolve
           (list_stream [waiting; failed] id) 5 binder_env "." None []))
           Acquire.build_failed
           {| Acquire.log := Acquire.console_lines [waiting; failed];
              Acquire.repo := Some [] |} eq_refl).
Defined.

(** A session whose backend is resolved is cloned: the clone holds the
    promise of the origin and its calls start no acquisition. *)
Lemma clone_shares_witness :
  let w := run [New None None; CallJupyterSessionManager 0; acquired 0] empty in
  let w3 := run [CallClone 0; ReloadDone 1 [missing_doi]] w in
  let w4 := run [CallJupyterSessionManager 1; CallJupyterSessionManager 1] w3 in
  wf parse_url w ∧ manager_slot w 0 = Some 0 ∧
  acquisitions 1 (events w4) = acquisitions 1 (events w3) ∧
  manager_slot w4 1 = Some 0.
Proof.
  intros w w3 w4.
  assert (wf parse_url w) as Hwf by apply HeapProps.wf_all_run, HeapProps.wf_all_empty.
  split; [exact Hwf |]. split; [reflexivity |].
  destruct (HeapProps.clone_shares (St := list Acquire.BuildPhaseEvent)
              parse_url [] no_path no_path resolve w 0 _ []
              [CallJupyterSessionManager 1; CallJupyterSessionManager 1]
              [missing_doi] Hwf eq_refl (Forall_nil_2 _))
    as (_ & _ & _ & origin & cloneSession & Ho & _ & _ & _ & _ & _ & _ & Hp).
  injection Ho as <-.
  destruct (Hp 0 eq_refl eq_refl) as (Hacq & Hslot & _). split; [exact Hacq | exact Hslot].
Defined.

(** A clone made before the origin asks for the backend has an unset slot
    of its own: the origin acquires and settles, and the clone acquires
    again. *)
Lemma clone_of_unstarted_origin_acquires :
  let w := run [New None None; CallClone 0; ReloadDone 1 [];
                CallJupyterSessionManager 0; acquired 0;
                CallJupyterSessionManager 1] empty in
  acquisitions 0 (events w) = 1 ∧
  (∃ m, pstate w 0 = Some (Fulfilled (VManager (Some m)))) ∧
  acquisitions 1 (events w) = 1 ∧
  manager_slot w 0 = Some 0 ∧ manager_slot w 1 = Some 1.
Proof. repeat split. by eexists. Qed.

(** The hierarchy of the samples: three reports of one warning, one of
    them with its fields in another order, and one other warning. *)
Example getAllWarnings_two_entries :
  getAllWarnings select hierarchy 0 "doi-link-valid" = [missing_doi; bad_doi].
Proof. reflexivity. Qed.


(** Two calls of [dispose()] on a session whose backend is a server that
    acquisition launched, and the job they leave: one call of
    [manager.dispose()], on the manager whose handler disposes of the
    kernel manager and of the launched server. *)
Lemma dispose_idempotent_witness :
  let w := Heap.run (St := unit) parse_url [] no_path no_path resolve
             [New None None; CallJupyterSessionManager 0;
              SettleAcquire 0 (Fixtures.local_services None) local_env 0]
             (empty_world None) in
  let m := Acquire.manager_of (Some Fixtures.spawned) in
  let w' := Heap.run (St := unit) parse_url [] no_path no_path resolve
              [CallDispose 0; CallDispose 0; Tick] w in
  manager_slot w 0 = Some 0 ∧
  events w' = events w ++ [EvDisposeManager m] ∧
  teardowns (events w') = 1 ∧
  Acquire.on_disposed m =
    [Acquire.DisposeKernelManager (Acquire.kernelManager m); Acquire.DisposeServer 1].
Proof.
  intros w m w'.
  pose proof (HeapProps.dispose_idempotent (St := unit)
                parse_url [] no_path no_path resolve w 0)
    as (_ & _ & _ & _ & _ & _ & _ & _ & Htick & _ & Htied).
  assert (events w' = events w ++ [EvDisposeManager m]) as Hev
    by exact (Htick 0 m eq_refl eq_refl eq_refl).
  split; [reflexivity |]. split; [exact Hev |]. split; [reflexivity |].
  assert (EvDisposeManager m ∈ events w') as Hin.
  { rewrite Hev. apply elem_of_app. right. by apply list_elem_of_singleton. }
  exact (proj2 (Htied (ex_intro _ None (ex_intro _ _ eq_refl)) [Tick] m Hin)).
Defined.

(** After the backend of a session has resolved, [dispose()] and
    [jupyterSessionManager()] in turn: an acquisition each time. *)
Lemma dispose_then_acquire_again :
  let w1 := run [New None None; CallJupyterSessionManager 0; acquired 0] empty in
  let w2 := run [CallDispose 0; CallJupyterSessionManager 0; acquired 1;
                 CallDispose 0; CallJupyterSessionManager 0] w1 in
  (∃ m, pstate w1 0 = Some (Fulfilled (VManager (Some m)))) ∧
  acquisitions 0 (events w1) = 1 ∧
  acquisitions 0 (events w2) = 3.
Proof. repeat split. by eexists. Qed.

(** Calls and a clone on a session whose slot is set. *)
Lemma acquisitions_bounded_witness :
  let w := run [New None None; CallJupyterSessionManager 0; acquired 0] empty in
  let ops := [CallJupyterSessionManager 0; CallClone 0; ReloadDone 1 [];
              CallJupyterSessionManager 0] in
  manager_slot w 0 = Some 0 ∧ disposals 0 ops = 0 ∧
  acquisitions 0 (events (run ops w)) = acquisitions 0 (events w).
Proof.
  intros w ops. split; [reflexivity |]. split; [reflexivity |].
  exact (proj1 (proj2 (HeapProps.acquisitions_bounded parse_url [] no_path no_path resolve w ops 0)
                  0 eq_refl eq_refl)).
Defined.

End Examples.

(** ** More of [fetch]: the invalid address, the stall diagnostic and the
    outcome *)

Module FetchTrace.
Import Fetch.

Section WithURLParser.

Variable parse_url : string -> option URL.

(** When the constructor of [URL] throws, the call is over before
    anything else happens: the promise is rejected, nothing is logged, no
    timer is set and [nodeFetch] is not called, whatever comes later. *)
Theorem fetch_invalid_url (proxyAgent : option Agent) (url : RequestInfo)
    (init : option RequestInit) (sched : list Event) :
  parse_url (url_source url) = None →
  let st := fetch parse_url proxyAgent url init sched in
  (∃ e, outcome st = Rejected e) ∧ log st = [] ∧ calls st = [] ∧ timer st = NotArmed.
Proof.
  intros Hu. simpl. unfold fetch, fetch_begin. rewrite Hu.
  induction sched as [| ev sched IH] using rev_ind.
  - simpl. eauto.
  - rewrite foldl_app. simpl.
    destruct IH as ((e & Ho) & Hl & Hc & Ht).
    destruct ev; simpl; rewrite ?Ht, ?Ho; eauto.
Qed.

(** The state of a call once the timer has fired: nothing is logged any
    more. *)
Lemma fetch_fired_log url (sched : list Event) : ∀ st : FetchState,
  timer st = Fired → log (foldl (fetch_step url) st sched) = log st.
Proof.
  induction sched as [| ev sched IH]; intros st Ht; [done |].
  simpl. rewrite IH.
  - destruct ev; simpl; [by rewrite Ht | by destruct (outcome st) ..].
  - destruct ev; simpl; [by rewrite Ht | by destruct (outcome st) ..].
Qed.

(** Without a tick of the timer nothing is logged. *)
Lemma fetch_quiet_log url (sched : list Event) : ∀ st : FetchState,
  TimerFires ∉ sched → log (foldl (fetch_step url) st sched) = log st.
Proof.
  induction sched as [| ev sched IH]; intros st Hn; [done |].
  apply not_elem_of_cons in Hn as [Hne Hn]. simpl. rewrite IH by done.
  destruct ev; simpl; [done | by destruct (outcome st) ..].
Qed.

(** The first tick of the timer in a schedule, if there is one. *)
Lemma first_tick (sched : list Event) :
  TimerFires ∉ sched ∨
  ∃ pre post, sched = pre ++ TimerFires :: post ∧ TimerFires ∉ pre.
Proof.
  induction sched as [| ev sched IH]; [left; apply not_elem_of_nil |].
  destruct ev.
  - right. exists [], sched. split; [done | apply not_elem_of_nil].
  - destruct IH as [Hn | (pre & post & -> & Hn)].
    + left. by apply not_elem_of_cons.
    + right. exists (NetResolves r :: pre), post. split; [done |].
      by apply not_elem_of_cons.
  - destruct IH as [Hn | (pre & post & -> & Hn)].
    + left. by apply not_elem_of_cons.
    + right. exists (NetRejects e :: pre), post. split; [done |].
      by apply not_elem_of_cons.
Qed.

(** A call whose promise is settled, or whose flag is set, keeps the flag
    it has. *)
Lemma fetch_done_kept url (sched : list Event) : ∀ st : FetchState,
  outcome st ≠ Pending ∨ done st = true →
  TimerFires ∉ sched →
  done (foldl (fetch_step url) st sched) = done st ∧
  timer (foldl (fetch_step url) st sched) = timer st.
Proof.
  induction sched as [| ev sched IH]; intros st Hs Hn; [done |].
  apply not_elem_of_cons in Hn as [Hne Hn]. simpl.
  destruct ev; [done | |]; simpl; destruct (outcome st) eqn:Eo.
  - destruct Hs as [Hs | Hs]; [done |].
    destruct (IH {| log := log st; done := true; timer := timer st;
                    calls := calls st; outcome := Resolved r |}) as [H1 H2];
      [by left | done |]. by rewrite H1, H2.
  - apply IH; [rewrite Eo; by left | done].
  - apply IH; [rewrite Eo; by left | done].
  - destruct (IH {| log := log st; done := done st; timer := timer st;
                    calls := calls st; outcome := Rejected e |}) as [H1 H2];
      [by left | done |]. by rewrite H1, H2.
  - apply IH; [rewrite Eo; by left | done].
  - apply IH; [rewrite Eo; by left | done].
Qed.

(** The stall diagnostic, for a call whose address parses: it is logged
    when the timer fires unless a response came first, that is, unless the
    first event of the call is the response. It is the last line of the
    log then, and it is logged once, however often the timer is said to
    fire. *)
Theorem fetch_stall_diagnostic (proxyAgent : option Agent) (url : RequestInfo)
    (init : option RequestInit) (u : URL) (sched : list Event) :
  parse_url (url_source url) = Some u →
  let st := fetch parse_url proxyAgent url init sched in
  let begun := fetch_begin parse_url proxyAgent url init in
  let fires := TimerFires ∈ sched ∧ ∀ r rest, sched ≠ NetResolves r :: rest in
  (fires → log st = log begun ++ [LInfo (waiting_msg url)]) ∧
  (¬ fires → log st = log begun).
Proof.
  intros Hu st begun fires. subst st fires. unfold fetch. fold begun.
  assert (timer begun = Armed ∧ done begun = false ∧ outcome begun = Pending)
    as (Ht & Hd & Ho).
  { subst begun. by rewrite (FetchProps.fetch_begin_parsed _ _ _ _ _ Hu). }
  clearbody begun.
  destruct sched as [| ev sched].
  { split; [intros [Hin _]; by apply elem_of_nil in Hin | done]. }
  destruct ev.
  - (* the timer fires first *)
    split; [| intros Hn; exfalso; apply Hn; split; [by left | done]].
    intros _. simpl. rewrite Ht, Hd. by rewrite fetch_fired_log.
  - (* the response comes first *)
    split; [intros [_ Hn]; by destruct (Hn r sched) |]. intros _.
    simpl. rewrite Ho.
    set (st1 := {| log := log begun; done := true; timer := timer begun;
                   calls := calls begun; outcome := Resolved r |}).
    assert (∀ sched (st : FetchState), done st = true →
              log (foldl (fetch_step url) st sched) = log st) as Hsilent.
    { clear. induction sched as [| ev sched IH]; intros st Hd; [done |].
      simpl. rewrite IH.
      - destruct ev; simpl; [destruct (timer st); simpl; by rewrite ?Hd |
                             by destruct (outcome st) ..].
      - destruct ev; simpl; [by destruct (timer st) |
                             by destruct (outcome st) ..]. }
    by rewrite Hsilent.
  - (* a rejection comes first *)
    simpl. rewrite Ho.
    set (st1 := {| log := log begun; done := done begun; timer := timer begun;
                   calls := calls begun; outcome := Rejected e |}).
    destruct (first_tick sched) as [Hnin | (pre' & post' & -> & Hn)].
    + split; [intros [Hin _]; apply elem_of_cons in Hin as [? | ?]; done |].
      intros _. by rewrite fetch_quiet_log.
    + split; [| intros Hf; exfalso; apply Hf; split; [| done]].
      * intros _. rewrite foldl_app. simpl.
        destruct (fetch_done_kept url pre' st1) as [Hd1 Ht1]; [by left | done |].
        rewrite Ht1, Hd1. simpl. rewrite Ht, Hd.
        rewrite fetch_fired_log by done. simpl.
        by rewrite fetch_quiet_log.
      * right. apply elem_of_app. right. by left.
Qed.

(** The promise of [fetch] is settled by the first answer of [nodeFetch]
    and by it alone: it resolves with that very response, or is rejected
    with that very error, and is pending as long as there is none. *)
Theorem fetch_outcome (proxyAgent : option Agent) (url : RequestInfo)
    (init : option RequestInit) (u : URL) (pre post : list Event) :
  parse_url (url_source url) = Some u →
  Forall (λ ev, ev = TimerFires) pre →
  outcome (fetch parse_url proxyAgent url init pre) = Pending ∧
  (∀ r, outcome (fetch parse_url proxyAgent url init (pre ++ NetResolves r :: post)) =
        Resolved r) ∧
  (∀ e, outcome (fetch parse_url proxyAgent url init (pre ++ NetRejects e :: post)) =
        Rejected e).
Proof.
  intros Hu Hpre.
  assert (outcome (fetch parse_url proxyAgent url init pre) = Pending) as Hp.
  { unfold fetch. induction pre as [| ev pre IH] using rev_ind.
    - simpl. by rewrite (FetchProps.fetch_begin_parsed _ _ _ _ _ Hu).
    - apply Forall_app in Hpre as [Hpre Hev]. apply Forall_singleton in Hev as ->.
      rewrite foldl_app. simpl. specialize (IH Hpre).
      by destruct (timer (foldl (fetch_step url) _ pre)). }
  assert (∀ sched (st : FetchState), outcome st ≠ Pending →
            outcome (foldl (fetch_step url) st sched) = outcome st) as Hkept.
  { clear. induction sched as [| ev sched IH]; intros st Hs; [done |].
    simpl. rewrite IH.
    - destruct ev; simpl;
        [by destruct (timer st) | destruct (outcome st) eqn:E; simpl; congruence ..].
    - destruct ev; simpl;
        [by destruct (timer st) | destruct (outcome st) eqn:E; simpl; congruence ..]. }
  split; [done |]. unfold fetch in *. split.
  - intros r. rewrite foldl_app. simpl. rewrite Hp. by rewrite Hkept.
  - intros e. rewrite foldl_app. simpl. rewrite Hp. by rewrite Hkept.
Qed.

End WithURLParser.

(** An address without a scheme, with a proxy configured. *)
Lemma fetch_invalid_url_witness :
  Samples.parse_url "mystmd.org" = None ∧
  let st := fetch Samples.parse_url (Some Samples.proxy) (ReqString "mystmd.org") None
              [TimerFires; NetRejects (JsError "ENOTFOUND")] in
  (∃ e, outcome st = Rejected e) ∧ log st = [] ∧ calls st = [] ∧ timer st = NotArmed.
Proof.
  split; [reflexivity |].
  apply (fetch_invalid_url Samples.parse_url). reflexivity.
Defined.

(** A rejection, and then the timer, twice. *)
Lemma fetch_stall_diagnostic_witness :
  Samples.parse_url "https://api.mystmd.org/" =
    Some {| href := "https://api.mystmd.org/"; hostname := "api.mystmd.org" |} ∧
  log (fetch Samples.parse_url None (ReqString "https://api.mystmd.org/") None
         [NetRejects (JsError "ETIMEDOUT"); TimerFires; TimerFires]) =
  [LDebug "Fetching: https://api.mystmd.org/";
   LInfo (waiting_msg (ReqString "https://api.mystmd.org/"))].
Proof.
  split; [reflexivity |].
  apply (fetch_stall_diagnostic Samples.parse_url None
           (ReqString "https://api.mystmd.org/") None _ _ eq_refl).
  split; [right; left | discriminate].
Defined.

(** The timer, then a response, then the timer again. *)
Lemma fetch_outcome_witness :
  Samples.parse_url "https://api.mystmd.org/" =
    Some {| href := "https://api.mystmd.org/"; hostname := "api.mystmd.org" |} ∧
  outcome (fetch Samples.parse_url None (ReqString "https://api.mystmd.org/") None
             [TimerFires; NetResolves (mkResponse 1); TimerFires]) =
  Resolved (mkResponse 1).
Proof.
  split; [reflexivity |].
  apply (fetch_outcome Samples.parse_url None (ReqString "https://api.mystmd.org/") None
           _ [TimerFires] [TimerFires] eq_refl).
  by apply Forall_singleton.
Defined.

End FetchTrace.

(** ** More of [createJupyterSessionManager]: which strategy fires, and
    what the log says about the outcome *)

Module AcquireStrategies.
Import Acquire Logs.

Lemma no_error_snoc lg l :
  no_error lg → (∀ msg e, l ≠ LError msg e) → no_error (lg ++ [l]).
Proof.
  intros Hlg Hl msg e Hin. apply elem_of_app in Hin as [Hin | Hin].
  - by apply (Hlg msg e).
  - apply list_elem_of_singleton in Hin. by apply (Hl msg e).
Qed.

Section WithServices.

Context {St : Type} (sv : Services St).

(** The loop over the build stream logs to the console only. *)
Lemma consume_no_error (fuel : nat) : ∀ s partial eff r eff',
  consume sv fuel s partial eff = (r, eff') →
  no_error (log eff) → no_error (log eff').
Proof.
  induction fuel as [| fuel IH]; intros s partial eff r eff' Hc Hn; simpl in Hc.
  - by inversion Hc; subst.
  - destruct (binder_next sv s) as [data s' | | e].
    + unfold bind, set_repo in Hc. simpl in Hc.
      destruct (console_line data) as [line |]; [| by inversion Hc; subst].
      unfold emit in Hc. simpl in Hc.
      destruct (String.eqb (phase data) "ready").
      * simpl in Hc. eapply IH; [exact Hc |]. simpl. by apply no_error_snoc.
      * destruct (String.eqb (phase data) "failed").
        -- inversion Hc; subst. simpl. by apply no_error_snoc.
        -- eapply IH; [exact Hc |]. simpl. by apply no_error_snoc.
    + by inversion Hc; subst.
    + by inversion Hc; subst.
Qed.

Lemma acquire_settings_no_error fuel env src r eff :
  acquire_settings sv fuel env src {| log := []; repo := None |} = (r, eff) →
  no_error (log eff).
Proof.
  assert (no_error []) as Hnil by (intros ? ?; apply not_elem_of_nil).
  unfold acquire_settings. intros Ha.
  destruct (BINDER_REPO_SPEC env) as [spec |].
  - unfold bind, lift in Ha. destruct (binder_open sv spec) as [e | s0]; simpl in Ha.
    + by inversion Ha; subst.
    + eapply consume_no_error; [exact Ha | done].
  - destruct (JUPYTER_BASE_URL env) as [base |].
    + by inversion Ha; subst.
    + unfold bind, lift in Ha.
      destruct (findExistingJupyterServer sv) as [e | [found |]]; simpl in Ha.
      * by inversion Ha; subst.
      * inversion Ha; subst. simpl.
        intros msg e Hin. apply list_elem_of_singleton in Hin. discriminate.
      * destruct (launchJupyterServer sv src) as [e | launched]; simpl in Ha;
          inversion Ha; subst; simpl;
          intros msg e' Hin; apply list_elem_of_singleton in Hin; discriminate.
Qed.

Lemma build_manager_log partial eff r eff' :
  build_manager sv partial eff = (r, eff') → eff' = eff.
Proof.
  unfold build_manager, bind, guard. intros Hb.
  destruct (makeSettings_throws sv partial); simpl in Hb; [by inversion Hb |].
  destruct (newKernelManager_throws sv _); simpl in Hb; [by inversion Hb |].
  destruct (newSessionManager_throws sv _ _); simpl in Hb; by inversion Hb.
Qed.

Lemma acquire_no_error fuel env src r eff :
  acquire sv fuel env src {| log := []; repo := None |} = (r, eff) →
  no_error (log eff) ∧ r ≠ Returns None.
Proof.
  unfold acquire. unfold bind at 1. intros Ha.
  destruct (acquire_settings sv fuel env src _) as [[partial | e |] eff1] eqn:Es.
  - pose proof (acquire_settings_no_error _ _ _ _ _ Es) as Hn.
    unfold bind in Ha.
    destruct (build_manager sv partial eff1) as [[m | e |] eff2] eqn:Eb;
      pose proof (build_manager_log _ _ _ _ Eb) as ->;
      inversion Ha; subst; done.
  - inversion Ha; subst. split; [| done]. by eapply acquire_settings_no_error.
  - inversion Ha; subst. split; [| done]. by eapply acquire_settings_no_error.
Qed.

(** The outcome "unavailable" and the error line go together: the call
    returns [undefined] exactly when its log has an error line, and then
    that line is the last one, it is the only one, and it carries the
    message of the [catch] block. A call that returns a handle logs no
    error. *)
Theorem unavailable_iff_error_logged (fuel : nat) (env : Env) (src : string) :
  let res := createJupyterSessionManager sv fuel env src in
  (res.1 = Returns None ↔ ∃ msg e, LError msg e ∈ log res.2) ∧
  (res.1 = Returns None →
   ∃ pre e, log res.2 = pre ++ [LError unable_msg e] ∧ no_error pre).
Proof.
  simpl. pose proof (AcquireProps.createJupyterSessionManager_outcome sv fuel env src)
    as [Hthrow Hret]. simpl in Hthrow, Hret.
  destruct (acquire sv fuel env src {| log := []; repo := None |})
    as [[m | e |] eff] eqn:Ea.
  - rewrite (Hret _ _ eq_refl). simpl.
    destruct (acquire_no_error _ _ _ _ _ Ea) as [Hn Hm].
    split; [split |].
    + intros [= ->]. done.
    + intros (msg & e & Hin). by destruct (Hn msg e).
    + intros [= ->]. done.
  - rewrite (Hthrow _ _ eq_refl). simpl.
    destruct (acquire_no_error _ _ _ _ _ Ea) as [Hn _].
    split; [split |].
    + intros _. exists unable_msg, e. apply elem_of_app. right. by left.
    + done.
    + intros _. by exists (log eff), e.
  - destruct (acquire_no_error _ _ _ _ _ Ea) as [Hn _].
    unfold createJupyterSessionManager, try_catch. rewrite Ea. simpl.
    split; [split |]; [done | | done].
    intros (msg & e & Hin). by destruct (Hn msg e).
Qed.

(** The strategy of the environment: with no repository to build and
    [JUPYTER_BASE_URL] set, the handle is built over that address and
    [JUPYTER_TOKEN] (also when the token is not set), nothing is logged,
    the build stream is not opened, and neither discovery nor spawn has a
    say. Disposing the handle disposes its kernel manager and nothing
    else. *)
Theorem env_settings_strategy (fuel : nat) (env : Env) (src base : string) :
  BINDER_REPO_SPEC env = None →
  JUPYTER_BASE_URL env = Some base →
  let partial := Some {| baseUrl := Some base; token := JUPYTER_TOKEN env;
                         appUrl := None; dispose := None |} in
  constructs sv partial →
  createJupyterSessionManager sv fuel env src =
    (Returns (Some (manager_of partial)), {| log := []; repo := None |}) ∧
  on_disposed (manager_of partial) =
    [DisposeKernelManager (kernelManager (manager_of partial))].
Proof.
  intros Hb Hj partial Hc. split; [| done].
  unfold createJupyterSessionManager, try_catch, acquire, acquire_settings.
  rewrite Hb, Hj. unfold bind at 1. simpl.
  unfold bind. by rewrite (AcquireProps.build_manager_constructs sv _ _ Hc).
Qed.

(** Discovery: with neither variable set, a running server that is found
    is used as it is; the line about it is the only one logged, and no
    server is spawned, whatever a spawn would have given. *)
Theorem existing_server_used (fuel : nat) (env : Env) (src : string)
    (found : JupyterServerSettings) :
  BINDER_REPO_SPEC env = None →
  JUPYTER_BASE_URL env = None →
  findExistingJupyterServer sv = inr (Some found) →
  constructs sv (Some found) →
  createJupyterSessionManager sv fuel env src =
    (Returns (Some (manager_of (Some found))),
     {| log := [LDebug ("Found existing server on: "
                        +:+ default "undefined" (appUrl found))];
        repo := None |}).
Proof.
  intros Hb Hj Hf Hc.
  unfold createJupyterSessionManager, try_catch, acquire, acquire_settings.
  rewrite Hb, Hj, Hf. unfold bind at 1. simpl.
  unfold bind. by rewrite (AcquireProps.build_manager_constructs sv _ _ Hc).
Qed.

Lemma launch_result (fuel : nat) (env : Env) (src : string)
    (launched : JupyterServerSettings) :
  BINDER_REPO_SPEC env = None →
  JUPYTER_BASE_URL env = None →
  findExistingJupyterServer sv = inr None →
  launchJupyterServer sv src = inr launched →
  constructs sv (Some launched) →
  createJupyterSessionManager sv fuel env src =
    (Returns (Some (manager_of (Some launched))),
     {| log := [LDebug ("Launching jupyter server on " +:+ src)]; repo := None |}).
Proof.
  intros Hb Hj Hf Hl Hc.
  unfold createJupyterSessionManager, try_catch, acquire, acquire_settings.
  rewrite Hb, Hj, Hf. unfold bind at 1. simpl. rewrite Hl. simpl.
  unfold bind. by rewrite (AcquireProps.build_manager_constructs sv _ _ Hc).
Qed.

(** Spawn: with neither variable set and no running server, a server is
    launched on the source path of the session, after the line that says
    so; the handle is built over the settings of the launch, and disposing
    the handle disposes the kernel manager and then the spawned server,
    when the launch gave the means to. *)
Theorem spawned_server_owned (fuel : nat) (env : Env) (src : string)
    (launched : JupyterServerSettings) :
  BINDER_REPO_SPEC env = None →
  JUPYTER_BASE_URL env = None →
  findExistingJupyterServer sv = inr None →
  launchJupyterServer sv src = inr launched →
  constructs sv (Some launched) →
  let manager := manager_of (Some launched) in
  createJupyterSessionManager sv fuel env src =
    (Returns (Some manager),
     {| log := [LDebug ("Launching jupyter server on " +:+ src)]; repo := None |}) ∧
  (∀ service, dispose launched = Some service →
     on_disposed manager =
       [DisposeKernelManager (kernelManager manager); DisposeServer service]) ∧
  (dispose launched = None →
     on_disposed manager = [DisposeKernelManager (kernelManager manager)]).
Proof.
  intros Hb Hj Hf Hl Hc manager. split; [| split].
  - by apply launch_result.
  - intros service Hd. subst manager. unfold manager_of. simpl. by rewrite Hd.
  - intros Hd. subst manager. unfold manager_of. simpl. by rewrite Hd.
Qed.

(** A build stream that ends without a [ready] and without a [failed]
    event, every event it delivered carrying its message: the loop ends
    with no settings, and the handle is built over the settings
    [makeSettings(undefined)] makes. The outcome is a handle, not
    "unavailable", and no error is logged. (An event without message
    would have made the loop throw.) *)
Theorem stream_ends_without_ready (fuel : nat) (env : Env) (src spec : string)
    (s0 s1 : St) (pre : list BuildPhaseEvent) :
  BINDER_REPO_SPEC env = Some spec →
  binder_open sv spec = inr s0 →
  yields sv s0 pre s1 →
  Forall other_phase pre →
  Forall has_message pre →
  binder_next sv s1 = Finished →
  constructs sv None →
  List.length pre + 1 ≤ fuel →
  createJupyterSessionManager sv fuel env src =
    (Returns (Some (manager_of None)),
     {| log := console_lines pre; repo := Some s1 |}).
Proof.
  intros Hb Ho Hy Hpre Hmsg Hfin Hc Hfuel.
  unfold createJupyterSessionManager, try_catch, acquire. unfold bind at 1.
  rewrite (AcquireProps.acquire_settings_binder sv _ _ _ _ _ Hb Ho).
  replace fuel with (List.length pre + S (fuel - List.length pre - 1)) by lia.
  rewrite (AcquireProps.consume_others sv _ _ _ _ _ _ Hy Hpre Hmsg). simpl.
  rewrite Hfin. unfold ret. unfold bind.
  by rewrite (AcquireProps.build_manager_constructs sv _ _ Hc).
Qed.

End WithServices.

(** What the remote-build strategy obtains. *)
Lemma acquire_settings_remote {St : Type} (sv : Services St) fuel env src spec eff :
  BINDER_REPO_SPEC env = Some spec →
  acquire_settings sv fuel env src eff =
  match binder_open sv spec with
  | inl e => (Throws e, eff)
  | inr s0 => consume sv fuel s0 None {| log := log eff; repo := Some s0 |}
  end.
Proof.
  intros Hb. unfold acquire_settings. rewrite Hb.
  unfold bind, lift. by destruct (binder_open sv spec).
Qed.

(** The loop over the build stream asks the stream, and nothing else. *)
Lemma consume_ext {St : Type} (sv sv' : Services St) (fuel : nat) :
  (∀ s, binder_next sv s = binder_next sv' s) →
  (∀ s, binder_close sv s = binder_close sv' s) →
  ∀ s partial eff, consume sv fuel s partial eff = consume sv' fuel s partial eff.
Proof.
  intros Hn Hc. induction fuel as [| fuel IH]; intros s partial eff; [done |].
  simpl. rewrite <- Hn. destruct (binder_next sv s) as [data s' | |]; [| done ..].
  unfold bind. simpl. rewrite <- Hc.
  destruct (console_line data) as [line |]; [| done]. simpl.
  destruct (String.eqb (phase data) "ready"); [apply IH |].
  destruct (String.eqb (phase data) "failed"); [done | apply IH].
Qed.

(** The remote build comes first: when [BINDER_REPO_SPEC] is set, the
    outcome and the log are those of the build stream and of the
    constructors alone. [JUPYTER_BASE_URL] and [JUPYTER_TOKEN], a running
    server, what a spawn would give and the source path have no say. *)
Theorem binder_strategy_first {St : Type} (sv sv' : Services St) (fuel : nat)
    (env env' : Env) (src src' spec : string) :
  BINDER_REPO_SPEC env = Some spec →
  BINDER_REPO_SPEC env' = Some spec →
  binder_open sv spec = binder_open sv' spec →
  (∀ s, binder_next sv s = binder_next sv' s) →
  (∀ s, binder_close sv s = binder_close sv' s) →
  (∀ partial, makeSettings_throws sv partial = makeSettings_throws sv' partial) →
  (∀ settings, newKernelManager_throws sv settings = newKernelManager_throws sv' settings) →
  (∀ km settings, newSessionManager_throws sv km settings =
                  newSessionManager_throws sv' km settings) →
  createJupyterSessionManager sv fuel env src =
  createJupyterSessionManager sv' fuel env' src'.
Proof.
  intros Hb Hb' Ho Hn Hc Hm Hk Hs.
  assert (∀ partial eff, build_manager sv partial eff = build_manager sv' partial eff)
    as Hbuild.
  { intros partial eff. unfold build_manager. by rewrite Hm, Hk, Hs. }
  assert (∀ eff, acquire sv fuel env src eff = acquire sv' fuel env' src' eff) as Ha.
  { intros eff. unfold acquire, bind.
    rewrite (acquire_settings_remote sv _ _ _ _ _ Hb).
    rewrite (acquire_settings_remote sv' _ _ _ _ _ Hb'). rewrite <- Ho.
    destruct (binder_open sv spec) as [e | s0]; [done |].
    rewrite <- (consume_ext sv sv' fuel Hn Hc).
    destruct (consume sv fuel s0 None _) as [[partial | e |] eff1]; [| done ..].
    by rewrite Hbuild. }
  unfold createJupyterSessionManager, try_catch. by rewrite Ha.
Qed.

End AcquireStrategies.

(** ** The order of the fields of a warning *)

Module CanonicalOrder.
Import Warnings Sorting SortProps.

(** The order in which the fields of a warning were set does not matter:
    two warnings with the same fields and values, in whatever order, have
    the same canonical form, provided no two entries [[key, value]] of the
    warning print as the same string. Of two such warnings
    [getAllWarnings] returns the first one only. *)
Theorem canonical_field_order (w w' : Warning) :
  w ≡ₚ w' →
  NoDup (to_string ∘ entry <$> w) →
  canonical w = canonical w' ∧ collect [[w]; [w']] = [w].
Proof.
  intros Hp Hnd.
  assert (canonical w = canonical w') as Hc.
  { unfold canonical. f_equal. f_equal. f_equal. apply sort_permutation.
    - by rewrite Hp.
    - by rewrite <- list_fmap_compose. }
  split; [done |].
  unfold collect. simpl. unfold visit at 2. simpl.
  unfold visit. simpl. rewrite <- Hc.
  unfold includes. by rewrite bool_decide_eq_true_2 by (by left).
Qed.

(** The fields of a warning in reverse. *)
Lemma canonical_field_order_witness :
  canonical Samples.missing_doi = canonical Samples.missing_doi_reordered ∧
  collect [[Samples.missing_doi]; [Samples.missing_doi_reordered]] = [Samples.missing_doi].
Proof.
  apply canonical_field_order.
  - unfold Samples.missing_doi, Samples.missing_doi_reordered.
    change (reverse [("file", JStr "index.md"); ("ruleId", JStr "doi-link-valid");
                     ("kind", JStr "warn"); ("message", JStr "DOI not found")]
            ≡ₚ [("file", JStr "index.md"); ("ruleId", JStr "doi-link-valid");
                ("kind", JStr "warn"); ("message", JStr "DOI not found")]).
    apply reverse_Permutation.
  - apply (bool_decide_unpack _). vm_compute. exact I.
Defined.

End CanonicalOrder.

Module LineageProps.
Import Heap Lineage.

Section WithStore.

Context {RootState St : Type}.
Variable parse_url : string → option Fetch.URL.
Variable initial_state : RootState.
Variable selectCurrentSitePath : RootState → option string.
Variable selectCurrentProjectPath : RootState → option string.
Variable path_resolve : string → string.

Local Abbreviation World := (@Heap.World RootState).
Local Abbreviation Session := (@Heap.Session RootState).
Local Abbreviation Op := (@Heap.Op RootState St).
Local Abbreviation step :=
  (@Heap.step RootState St parse_url initial_state selectCurrentSitePath
     selectCurrentProjectPath path_resolve).
Local Abbreviation run :=
  (@Heap.run RootState St parse_url initial_state selectCurrentSitePath
     selectCurrentProjectPath path_resolve).
Local Abbreviation reachable :=
  (@Heap.reachable RootState St parse_url initial_state selectCurrentSitePath
     selectCurrentProjectPath path_resolve).
Local Abbreviation fresh := (@Lineage.fresh RootState initial_state).
Local Abbreviation wf_lineage := (@Lineage.wf_lineage RootState initial_state).

(** *** What a step does to the sessions and to the clones under way *)

Lemma step_shape (w : World) (op : Op) :
  (sessions (step w op) = sessions w ∧ reloading (step w op) = reloading w) ∨
  (∃ a this (f : Session → Session),
     ready w a = Some this ∧ (∀ s, _clones (f s) = _clones s) ∧
     (∀ s, plugins (f s) = plugins s) ∧
     ((∀ s, _pluginPromise (f s) = _pluginPromise s) ∨
      (_pluginPromise this = None ∧
       ∀ s, _pluginPromise (f s) = Some (List.length (promises w)))) ∧
     sessions (step w op) = alter f a (sessions w) ∧
     reloading (step w op) = reloading w) ∨
  (∃ a q reg js,
     jobs w = (RAssignPlugins a q, Fulfilled (VPlugins reg)) :: js ∧
     sessions (step w op) = alter (set_plugins (Some reg)) a (sessions w) ∧
     reloading (step w op) = reloading w) ∨
  (∃ s, fresh s ∧ sessions (step w op) = sessions w ++ [s] ∧
        (reloading (step w op) = reloading w ∨
         ∃ a this, ready w a = Some this ∧
           reloading (step w op) = reloading w ++ [(a, List.length (sessions w))])) ∨
  (∃ c st i a this,
     op = ReloadDone c st ∧ reloading w !! i = Some (a, c) ∧
     sessions w !! a = Some this ∧
     sessions (step w op) =
       alter (push_clone c) a
         (alter (λ cloneSession,
                   set_manager_promise (_jupyterSessionManagerPromise this)
                     (set_store st cloneSession)) c (sessions w)) ∧
     reloading (step w op) = delete i (reloading w)) ∨
  (∃ i, sessions (step w op) = sessions w ∧
        reloading (step w op) = delete i (reloading w)).
Proof.
  destruct op as [lg lm | a' f | a' | a' | a' | c' st | c' | a' | p sv env fuel | p r |];
    simpl.
  - unfold construct. destruct (proxy_agent_of _ _); simpl; [by left |].
    do 3 right. left. eexists. split; [| split; [reflexivity | by left]]. done.
  - destruct (ready w a') as [this |] eqn:Er; [| by left].
    right. left. exists a', this, (λ s, set_store (f (store s)) s).
    split; [done |]. split; [done |]. split; [done |]. split; [by left | done].
  - unfold jupyterSessionManager. destruct (ready w a') as [this |] eqn:Er; [| by left].
    destruct (_jupyterSessionManagerPromise this); simpl; [by left |].
    right. left. exists a', this, (set_manager_promise (Some (List.length (promises w)))).
    split; [done |]. split; [done |]. split; [done |]. split; [by left | done].
  - unfold loadPlugins. destruct (ready w a') as [this |] eqn:Er; [| by left].
    destruct (_pluginPromise this) eqn:Ep; simpl;
      rewrite HeapProps.react_sessions, HeapProps.react_reloading; simpl; [by left |].
    right. left. exists a', this, (set_plugin_promise (Some (List.length (promises w)))).
    split; [done |]. split; [done |]. split; [done |]. split; [by right | done].
  - unfold clone_begin. destruct (ready w a') as [this |] eqn:Er; [| by left].
    unfold construct. destruct (proxy_agent_of _ _); simpl; [by left |].
    do 3 right. left. eexists. split; [| split; [reflexivity |]]; [done |].
    right. by exists a', this.
  - unfold clone_end.
    destruct (list_find _ _) as [[i [o c'']] |] eqn:Ef; [| by left].
    pose proof (HeapProps.list_find_snd _ _ _ _ Ef) as Hi. simpl in Hi.
    destruct (sessions w !! o) as [this |] eqn:Eo; simpl; [| by left].
    do 4 right. left. by exists c', st, i, o, this.
  - unfold clone_abort.
    destruct (list_find _ _) as [[i [o c'']] |] eqn:Ef; [| by left].
    do 5 right. by exists i.
  - unfold dispose. destruct (ready w a') as [this |] eqn:Er; [| by left].
    destruct (_jupyterSessionManagerPromise this); simpl; [| by left].
    rewrite HeapProps.react_sessions, HeapProps.react_reloading.
    right. left. exists a', this, (set_manager_promise None).
    split; [done |]. split; [done |]. split; [done |]. split; [by left | done].
  - left. unfold settle_acquire.
    destruct (promises w !! p) as [[[a' | a' | p'] [] rs] |]; try done.
    destruct (sessions w !! a') as [this |]; [| done].
    destruct (Acquire.createJupyterSessionManager _ _ _ _) as [[m | e |] eff];
      [| | done]; simpl;
      by rewrite HeapProps.settle_sessions, HeapProps.settle_reloading.
  - left. unfold settle_plugins.
    destruct (promises w !! p) as [[[a' | a' | p'] [] rs] |]; try done.
    by rewrite HeapProps.settle_sessions, HeapProps.settle_reloading.
  - destruct (jobs w) as [| [r st] js] eqn:Ej; [by left |].
    unfold run_job.
    destruct r as [| a' q | q];
      [destruct st as [| [[m |] | reg] | e] | destruct st as [| [m | reg] | e] |];
      simpl; rewrite ?HeapProps.settle_sessions, ?HeapProps.settle_reloading; simpl;
      try (by left).
    right. right. left. by exists a', q, reg, js.
Qed.


(** *** Who waits for the plugins *)

Lemma assigning_proper (w w' : World) a q :
  promises w' = promises w → (∀ j, j ∈ jobs w' → j ∈ jobs w) →
  assigning w' a q → assigning w a q.
Proof.
  intros Hp Hj [(p & pp & Hl & Hin) | (st & Hin)].
  - left. exists p, pp. by rewrite <- Hp.
  - right. exists st. by apply Hj.
Qed.

Lemma assigning_emit (w : World) evs a q : assigning (emit evs w) a q → assigning w a q.
Proof. by apply assigning_proper. Qed.

Lemma assigning_with_sessions (w : World) f a q :
  assigning (with_sessions f w) a q → assigning w a q.
Proof. by apply assigning_proper. Qed.

Lemma assigning_alloc (w : World) k a q :
  assigning (alloc k w) a q → assigning w a q.
Proof.
  intros [(p & pp & Hl & Hin) | (st & Hin)]; [| right; by exists st].
  simpl in Hl. apply lookup_snoc_Some in Hl as [[_ Hl] | [_ <-]].
  - left. by exists p, pp.
  - by apply elem_of_nil in Hin.
Qed.

Lemma assigning_settle (w : World) p st a q :
  assigning (settle p st w) a q → assigning w a q.
Proof.
  destruct (HeapProps.settle_cases p st w)
    as [(pp & Hp & Hpend & Hps & Hjs) | [-> _]]; [| done].
  intros [(p' & pp' & Hl & Hin) | (st' & Hin)].
  - rewrite Hps in Hl. destruct (decide (p = p')) as [<- | Hne].
    + rewrite list_lookup_insert_eq in Hl by (by eapply lookup_lt_Some).
      injection Hl as <-. by apply elem_of_nil in Hin.
    + rewrite list_lookup_insert_ne in Hl by done. left. by exists p', pp'.
  - rewrite Hjs in Hin. apply elem_of_app in Hin as [Hin | Hin].
    + right. by exists st'.
    + apply list_elem_of_fmap in Hin as (r & Heq & Hr). inversion Heq; subst.
      left. by exists p, pp.
Qed.

Lemma assigning_react (w : World) p r a q :
  assigning (react p r w) a q → assigning w a q ∨ r = RAssignPlugins a q.
Proof.
  destruct (HeapProps.react_cases p r w)
    as [(pp & Hp & Hpend & Hps & Hjs) | [(pp & Hp & Hset & Hps & Hjs) | [_ ->]]];
    [| | by left].
  - intros [(p' & pp' & Hl & Hin) | (st' & Hin)].
    + rewrite Hps in Hl. destruct (decide (p = p')) as [<- | Hne].
      * rewrite list_lookup_insert_eq in Hl by (by eapply lookup_lt_Some).
        injection Hl as <-. simpl in Hin. apply elem_of_app in Hin as [Hin | Hin].
        -- left. left. by exists p, pp.
        -- apply list_elem_of_singleton in Hin. by right.
      * rewrite list_lookup_insert_ne in Hl by done. left. left. by exists p', pp'.
    + rewrite Hjs in Hin. left. right. by exists st'.
  - intros [(p' & pp' & Hl & Hin) | (st' & Hin)].
    + rewrite Hps in Hl. left. left. by exists p', pp'.
    + rewrite Hjs in Hin. apply elem_of_app in Hin as [Hin | Hin].
      * left. right. by exists st'.
      * apply list_elem_of_singleton in Hin. injection Hin as <- _. by right.
Qed.

(** A call of [loadPlugins] that waits after a step waited before it, or
    was made by the step on a session that callers hold. *)
Lemma assigning_step (w : World) (op : Op) a q :
  assigning (step w op) a q →
  assigning w a q ∨
  ((∃ this, ready w a = Some this) ∧ EvPluginsReturned a q ∈ events (step w op)).
Proof.
  destruct op as [lg lm | a' f | a' | a' | a' | c' st | c' | a' | p sv env fuel | p r |];
    simpl.
  - unfold construct. destruct (proxy_agent_of _ _);
      intros H; left; revert H; by apply assigning_proper.
  - destruct (ready w a'); [| by left].
    intros H. left. revert H. by apply assigning_proper.
  - unfold jupyterSessionManager. destruct (ready w a') as [this |]; [| by left].
    destruct (_jupyterSessionManagerPromise this); simpl.
    + intros H. left. revert H. by apply assigning_proper.
    + intros H. left. apply (assigning_alloc w (KAcquire a')).
      revert H. by apply assigning_proper.
  - unfold loadPlugins. destruct (ready w a') as [this |] eqn:Er; [| by left].
    destruct (_pluginPromise this) as [p |]; simpl.
    + intros H. apply assigning_emit, assigning_react in H as [H | [=]].
      left. by eapply assigning_alloc.
    + intros H. apply assigning_emit, assigning_react in H as [H | [= <- <-]].
      * left. apply assigning_alloc, assigning_with_sessions, assigning_emit in H.
        by eapply assigning_alloc.
      * right. split; [by exists this |].
        rewrite length_app. simpl. apply elem_of_app. right. by left.
  - unfold clone_begin. destruct (ready w a'); [| by left].
    unfold construct. destruct (proxy_agent_of _ _);
      intros H; left; revert H; by apply assigning_proper.
  - unfold clone_end. destruct (list_find _ _) as [[i [o c'']] |]; [| by left].
    destruct (sessions w !! o); [| by left].
    intros H. left. revert H. by apply assigning_proper.
  - unfold clone_abort. destruct (list_find _ _) as [[i [o c'']] |]; [| by left].
    intros H. left. revert H. by apply assigning_proper.
  - unfold dispose. destruct (ready w a') as [this |]; [| by left].
    destruct (_jupyterSessionManagerPromise this) as [p |]; simpl; [| by left].
    intros H. apply assigning_with_sessions, assigning_react in H as [H | [=]].
    by left.
  - unfold settle_acquire.
    destruct (promises w !! p) as [[[a' | a' | p'] [] rs] |]; try (by left).
    destruct (sessions w !! a') as [this |]; [| by left].
    destruct (Acquire.createJupyterSessionManager _ _ _ _) as [[m | e |] eff];
      [| | by left]; intros H; left;
      apply assigning_emit in H; by eapply assigning_settle.
  - unfold settle_plugins.
    destruct (promises w !! p) as [[[a' | a' | p'] [] rs] |]; try (by left).
    intros H. left. by eapply assigning_settle.
  - destruct (jobs w) as [| [r st] js] eqn:Ej; [by left |].
    assert (∀ w' : World, promises w' = promises w → jobs w' = js →
              assigning w' a q → assigning w a q) as Hpop.
    { intros w' Hp Hj. apply assigning_proper; [done |].
      intros j Hin. rewrite Hj in Hin. rewrite Ej. by right. }
    unfold run_job.
    destruct r as [| a' q' | q'];
      [destruct st as [| [[m |] | reg] | e] | destruct st as [| [m | reg] | e] |];
      simpl; intros H; left;
      try (revert H; by apply Hpop);
      (apply assigning_settle in H; revert H; by apply Hpop).
Qed.


(** *** The invariant of the clones *)

Lemma snd_delete_inv (rl : list (nat * nat)) i c :
  c ∈ (delete i rl).*2 → c ∈ rl.*2.
Proof.
  intros Hin. apply list_elem_of_fmap in Hin as (e & -> & Hin).
  apply list_elem_of_fmap. exists e. split; [done |]. by eapply list_elem_of_delete_inv.
Qed.

Lemma snd_elem_of (rl : list (nat * nat)) o c : (o, c) ∈ rl → c ∈ rl.*2.
Proof. intros Hin. apply list_elem_of_fmap. by exists (o, c). Qed.

Lemma fresh_clones (s : Session) : fresh s → _clones s = [].
Proof. by intros (_ & _ & _ & _ & ?). Qed.

Lemma wf_lineage_step (w : World) (op : Op) :
  wf_heap w → wf_lineage w → wf_lineage (step w op).
Proof.
  intros [_ Hwf] [Hcl Hfr Has].
  pose proof (wf_reloading_once _ Hwf) as Hnd.
  pose proof (wf_reloading _ Hwf) as Hrl.
  assert (∀ a q, assigning (step w op) a q →
            a < List.length (sessions w) ∧ a ∉ (reloading w).*2) as Has'.
  { intros a q H. apply assigning_step in H as [H | [[this H] _]]; [by eapply Has |].
    split; [eapply lookup_lt_Some, HeapProps.ready_lookup, H |
            eapply HeapProps.ready_not_reloading, H]. }
  destruct (step_shape w op)
    as [[Hs Hr] | [(a0 & this & f & Hrd & Hf & _ & _ & Hs & Hr) |
       [(a0 & q0 & reg & js & Hj & Hs & Hr) |
       [(s0 & Hfresh & Hs & Hr) |
       [(c0 & st & i & a0 & this & -> & Hi & Ha0 & Hs & Hr) | (i & Hs & Hr)]]]]].
  - (* nothing changes *)
    split.
    + intros a s c. rewrite Hs, Hr. apply Hcl.
    + intros o c. rewrite Hs, Hr. apply Hfr.
    + intros a q H. rewrite Hs, Hr. by eapply Has'.
  - (* a field of a session that callers hold *)
    pose proof (HeapProps.ready_not_reloading _ _ _ Hrd) as Hn0.
    split.
    + intros a s c Hl Hc. rewrite Hs in Hl. rewrite Hs, Hr, length_alter.
      apply HeapProps.lookup_alter_inv in Hl as (s1 & Hl & ->).
      apply (Hcl a s1 c Hl). by destruct (decide (a0 = a)); [rewrite Hf in Hc |].
    + intros o c Hin. rewrite Hr in Hin. rewrite Hs.
      destruct (Hfr o c Hin) as (cs & Hl & Hc). exists cs. split; [| done].
      rewrite list_lookup_alter_ne; [done |].
      intros ->. apply Hn0. by eapply snd_elem_of.
    + intros a q H. rewrite Hs, Hr, length_alter. by eapply Has'.
  - (* the plugins arrive *)
    assert (a0 ∉ (reloading w).*2) as Hn0.
    { eapply (Has a0 q0). right. exists (Fulfilled (VPlugins reg)). rewrite Hj. by left. }
    split.
    + intros a s c Hl Hc. rewrite Hs in Hl. rewrite Hs, Hr, length_alter.
      apply HeapProps.lookup_alter_inv in Hl as (s1 & Hl & ->).
      apply (Hcl a s1 c Hl). by destruct (decide (a0 = a)).
    + intros o c Hin. rewrite Hr in Hin. rewrite Hs.
      destruct (Hfr o c Hin) as (cs & Hl & Hc). exists cs. split; [| done].
      rewrite list_lookup_alter_ne; [done |].
      intros ->. apply Hn0. by eapply snd_elem_of.
    + intros a q H. rewrite Hs, Hr, length_alter. by eapply Has'.
  - (* a new session *)
    assert (∀ c, c < List.length (sessions w) → c ∉ (reloading w).*2 →
              c ∉ (reloading (step w op)).*2) as Hkeep.
    { intros c Hlt Hn. destruct Hr as [-> | (a0 & this & _ & ->)]; [done |].
      rewrite fmap_app, elem_of_app. intros [? | Hin]; [done |].
      apply list_elem_of_singleton in Hin. simpl in Hin. lia. }
    split.
    + intros a s c Hl Hc. rewrite Hs in Hl. rewrite Hs, length_app. simpl.
      apply lookup_snoc_Some in Hl as [[_ Hl] | [_ <-]].
      * destruct (Hcl a s c Hl Hc) as [Hlt Hn]. split; [lia | by apply Hkeep].
      * rewrite (fresh_clones _ Hfresh) in Hc. by apply elem_of_nil in Hc.
    + intros o c Hin. rewrite Hs.
      assert ((o, c) ∈ reloading w ∨ c = List.length (sessions w)) as [Hold | ->].
      { destruct Hr as [Hr | (a0 & this & _ & Hr)]; rewrite Hr in Hin; [by left |].
        apply elem_of_app in Hin as [? | Hin]; [by left |].
        apply list_elem_of_singleton in Hin. injection Hin as _ ->. by right. }
      * destruct (Hfr o c Hold) as (cs & Hl & Hc). exists cs. split; [| done].
        by apply lookup_app_l_Some.
      * exists s0. split; [| done]. by apply list_lookup_middle.
    + intros a q H. destruct (Has' a q H) as [Hlt Hn].
      rewrite Hs, length_app. simpl. split; [lia | by apply Hkeep].
  - (* the reload of a clone ends *)
    assert ((a0, c0) ∈ reloading w) as Hin0 by (by eapply list_elem_of_lookup_2).
    destruct (Hrl _ _ Hin0) as (Hc0 & _ & Hn0).
    pose proof (HeapProps.not_elem_of_delete_snd _ _ _ _ Hnd Hi) as Hgone.
    split.
    + intros a s c Hl Hc. rewrite Hs in Hl. rewrite Hs, Hr, !length_alter.
      apply HeapProps.lookup_alter_inv in Hl as (s1 & Hl & ->).
      apply HeapProps.lookup_alter_inv in Hl as (s2 & Hl & ->).
      assert (c ∈ _clones s2 ∨ c = c0) as [Hold | ->].
      { destruct (decide (a0 = a)), (decide (c0 = a)); simpl in Hc;
          rewrite ?elem_of_app, ?list_elem_of_singleton in Hc; tauto. }
      * destruct (Hcl a s2 c Hl Hold) as [Hlt Hn]. split; [done |].
        intros Hd. apply Hn. by eapply snd_delete_inv.
      * done.
    + intros o c Hin. rewrite Hr in Hin. rewrite Hs.
      assert (c ≠ c0) as Hne.
      { intros ->. apply Hgone. by eapply snd_elem_of. }
      apply list_elem_of_delete_inv in Hin.
      destruct (Hfr o c Hin) as (cs & Hl & Hc). exists cs. split; [| done].
      rewrite list_lookup_alter_ne, list_lookup_alter_ne; [done | done |].
      intros ->. apply Hn0. by eapply snd_elem_of.
    + intros a q H. destruct (Has' a q H) as [Hlt Hn].
      rewrite Hs, Hr, !length_alter. split; [done |].
      intros Hd. apply Hn. by eapply snd_delete_inv.
  - (* the reload of a clone fails *)
    split.
    + intros a s c Hl Hc. rewrite Hs in Hl. rewrite Hs, Hr.
      destruct (Hcl a s c Hl Hc) as [Hlt Hn]. split; [done |].
      intros Hd. apply Hn. by eapply snd_delete_inv.
    + intros o c Hin. rewrite Hr in Hin. rewrite Hs.
      apply list_elem_of_delete_inv in Hin. by eapply Hfr.
    + intros a q H. destruct (Has' a q H) as [Hlt Hn]. rewrite Hs, Hr.
      split; [done |]. intros Hd. apply Hn. by eapply snd_delete_inv.
Qed.

Lemma wf_lineage_empty proxy : wf_lineage (empty_world proxy).
Proof.
  split.
  - intros a s c Hl. simpl in Hl. by rewrite lookup_nil in Hl.
  - intros o c Hin. by apply elem_of_nil in Hin.
  - intros a q [(p & pp & Hl & _) | (st & Hin)].
    + simpl in Hl. by rewrite lookup_nil in Hl.
    + by apply elem_of_nil in Hin.
Qed.

Lemma wf_lineage_run (ops : list Op) : ∀ w : World,
  wf_heap w → wf_lineage w → wf_lineage (run ops w).
Proof.
  induction ops as [| op ops IH]; intros w Hwf Hl; [done |].
  rewrite HeapProps.run_cons. apply IH.
  - by apply HeapProps.wf_step.
  - by apply wf_lineage_step.
Qed.

Lemma reachable_lineage (w : World) : reachable w → wf_lineage w.
Proof.
  intros (proxy & ops & ->).
  apply wf_lineage_run; [apply HeapProps.wf_empty | apply wf_lineage_empty].
Qed.


(** *** The end of a clone's reload *)

Lemma clone_end_shape (w : World) (o c : nat) (st : RootState) :
  wf_heap w → wf_lineage w → (o, c) ∈ reloading w →
  ∃ i origin cs,
    reloading w !! i = Some (o, c) ∧
    sessions w !! o = Some origin ∧ sessions w !! c = Some cs ∧ fresh cs ∧
    o ≠ c ∧ (o ∉ (reloading w).*2) ∧ (c ∉ (delete i (reloading w)).*2) ∧
    step w (ReloadDone c st) =
      with_reloading (delete i)
        (with_sessions
           (λ ss, alter (push_clone c) o
              (alter (λ cloneSession,
                        set_manager_promise (_jupyterSessionManagerPromise origin)
                          (set_store st cloneSession)) c ss)) w).
Proof.
  intros [_ Hwf] Hlin Hin.
  pose proof (wf_reloading_once _ Hwf) as Hnd.
  destruct (wf_reloading _ Hwf _ _ Hin) as (Hc & Ho & Hno).
  destruct (wf_reloading_fresh _ _ Hlin _ _ Hin) as (cs & Hcs & Hfresh).
  destruct (lookup_lt_is_Some_2 _ _ Ho) as [origin Horigin].
  assert (∃ i, list_find (λ e, e.2 = c) (reloading w) = Some (i, (o, c)) ∧
               reloading w !! i = Some (o, c)) as (i & Hfind & Hi).
  { destruct (list_find (λ e, e.2 = c) (reloading w)) as [[i [o' c']] |] eqn:Ef.
    - pose proof (HeapProps.list_find_snd _ _ _ _ Ef) as Hi. simpl in Hi.
      apply list_find_Some in Ef as (_ & Hc' & _). simpl in Hc'. subst c'.
      assert (o' = o) as ->.
      { eapply HeapProps.reloading_origin; [exact Hnd | | exact Hin].
        by eapply list_elem_of_lookup_2. }
      eauto.
    - apply list_find_None in Ef. rewrite Forall_forall in Ef.
      by destruct (Ef _ Hin). }
  exists i, origin, cs. split; [done |]. split; [done |]. split; [done |].
  split; [done |]. split.
  { intros ->. apply Hno. by eapply snd_elem_of. }
  split; [done |]. split.
  { by eapply HeapProps.not_elem_of_delete_snd. }
  simpl. unfold clone_end. by rewrite Hfind, Horigin.
Qed.

(** A clone does not take over the plugins of its origin. Whatever went
    on while it reloaded, the clone that [clone()] hands out has no plugin
    promise, no plugins and no clones of its own, whether or not the
    origin has loaded its plugins; the first [loadPlugins()] on the clone
    calls the factory for the clone. *)
Theorem clone_loads_own_plugins (w : World) (o c : nat) (st : RootState) :
  reachable w →
  (o, c) ∈ reloading w →
  let w' := step w (ReloadDone c st) in
  ∃ cloneSession,
    ready w' c = Some cloneSession ∧
    _pluginPromise cloneSession = None ∧ plugins cloneSession = None ∧
    _clones cloneSession = [] ∧
    events (step w' (CallLoadPlugins c)) =
      events w' ++ [EvLoadPlugins c (List.length (promises w'));
                    EvPluginsReturned c (S (List.length (promises w')))].
Proof.
  intros Hreach Hin w'.
  pose proof (HeapProps.reachable_wf _ _ _ _ _ _ Hreach) as Hwf.
  pose proof (reachable_lineage _ Hreach) as Hlin.
  destruct (clone_end_shape w o c st Hwf Hlin Hin)
    as (i & origin & cs & Hi & Ho & Hc & (Hst & Hslot & Hpp & Hpl & Hcl) & Hne & Hno & Hgone & Hw').
  fold w' in Hw'.
  set (cloneSession := set_manager_promise (_jupyterSessionManagerPromise origin)
                         (set_store st cs)).
  assert (ready w' c = Some cloneSession) as Hready.
  { rewrite Hw'. unfold ready. simpl. rewrite bool_decide_eq_false_2 by done.
    rewrite list_lookup_alter_ne by done. by rewrite list_lookup_alter_eq, Hc. }
  exists cloneSession. split; [done |]. split; [done |]. split; [done |].
  split; [done |].
  simpl. unfold loadPlugins. rewrite Hready. simpl. rewrite Hpp. simpl.
  rewrite HeapProps.react_events. simpl.
  rewrite length_app. simpl. rewrite <- app_assoc. simpl.
  by replace (List.length (promises w') + 1) with (S (List.length (promises w'))) by lia.
Qed.


(** *** [getAllWarnings] and the clones *)

Variable selectFileWarningsByRule : RootState → string → list Warnings.Warning.

Local Abbreviation getAllWarnings := (Heap.getAllWarnings selectFileWarningsByRule).
Local Abbreviation visited_warnings := (Lineage.visited_warnings selectFileWarningsByRule).

Lemma getAllWarnings_visited (w : World) a ruleId :
  getAllWarnings w a ruleId = Warnings.collect (visited_warnings w a ruleId).
Proof. done. Qed.

(** The warnings of the clones of a list, for two heaps whose sessions of
    the list have the same stores. *)
Lemma clones_warnings_ext (ss ss' : list Session) (cl : list nat) ruleId :
  (∀ c, c ∈ cl → store <$> ss' !! c = store <$> ss !! c) →
  (λ session : Session, selectFileWarningsByRule (store session) ruleId)
    <$> omap (λ c, ss' !! c) cl =
  (λ session : Session, selectFileWarningsByRule (store session) ruleId)
    <$> omap (λ c, ss !! c) cl.
Proof.
  induction cl as [| c cl IH]; intros Hcl; [done |].
  pose proof (Hcl c ltac:(by left)) as Hc.
  assert (∀ c', c' ∈ cl → store <$> ss' !! c' = store <$> ss !! c') as Hcl'
    by (intros c' Hc'; apply Hcl; by right).
  specialize (IH Hcl'). csimpl.
  destruct (ss' !! c) as [s' |], (ss !! c) as [s |]; csimpl in *; try done.
  injection Hc as ->. by rewrite IH.
Qed.

(** The deduplication goes on from where it is: the warnings returned for
    some sessions come first among those returned for these sessions and
    more. *)
Lemma collect_prefix (l l' : list (list Warnings.Warning)) :
  Warnings.collect l `prefix_of` Warnings.collect (l ++ l').
Proof.
  rewrite !WarningsProps.collect_concat, concat_app, foldl_app.
  generalize (foldl Warnings.visit ([], []) (List.concat l)). intros acc.
  generalize (List.concat l'). clear. intros all. revert acc.
  induction all as [| x all IH]; intros acc; [done |].
  simpl. etrans; [| apply IH].
  unfold Warnings.visit. destruct (includes acc.1 _); [done |].
  simpl. by apply prefix_app_r.
Qed.

(** When the reload of a clone ends, the clone is visited last: the
    warnings of its store come after those of the origin and of the
    earlier clones, so that what [getAllWarnings] returned for the origin
    before stays in front. For the other sessions nothing changes. *)
Theorem clone_extends_warnings (w : World) (o c : nat) (st : RootState)
    (ruleId : string) :
  reachable w →
  (o, c) ∈ reloading w →
  let w' := step w (ReloadDone c st) in
  visited_warnings w' o ruleId =
    visited_warnings w o ruleId ++ [selectFileWarningsByRule st ruleId] ∧
  getAllWarnings w o ruleId `prefix_of` getAllWarnings w' o ruleId ∧
  (∀ b, b ≠ o → b ≠ c → getAllWarnings w' b ruleId = getAllWarnings w b ruleId).
Proof.
  intros Hreach Hin w'.
  pose proof (HeapProps.reachable_wf _ _ _ _ _ _ Hreach) as Hwf.
  pose proof (reachable_lineage _ Hreach) as Hlin.
  destruct (clone_end_shape w o c st Hwf Hlin Hin)
    as (i & origin & cs & Hi & Ho & Hc & Hfresh & Hne & Hno & Hgone & Hw').
  fold w' in Hw'.
  assert (∀ b, b ≠ c → store <$> sessions w' !! b = store <$> sessions w !! b) as Hstore.
  { intros b Hb. rewrite Hw'. simpl.
    destruct (decide (o = b)) as [<- | Hob].
    - rewrite list_lookup_alter_eq, list_lookup_alter_ne by done. by rewrite Ho.
    - by rewrite !list_lookup_alter_ne. }
  assert (∀ b s, sessions w !! b = Some s → c ∉ _clones s) as Hnotin.
  { intros b s Hb Hcl. destruct (wf_clones_recorded _ _ Hlin b s c Hb Hcl) as [_ Hn].
    apply Hn. by eapply snd_elem_of. }
  assert (visited_warnings w' o ruleId =
            visited_warnings w o ruleId ++ [selectFileWarningsByRule st ruleId]) as Hv.
  { unfold Lineage.visited_warnings, visited.
    assert (sessions w' !! o = Some (push_clone c origin)) as ->.
    { rewrite Hw'. simpl. rewrite list_lookup_alter_eq.
      rewrite list_lookup_alter_ne by done. by rewrite Ho. }
    rewrite Ho. simpl. f_equal. rewrite omap_app, fmap_app. f_equal.
    - apply clones_warnings_ext. intros c' Hc'. apply Hstore.
      intros ->. by apply (Hnotin o origin).
    - simpl. rewrite Hw'. simpl. rewrite list_lookup_alter_ne by done.
      by rewrite list_lookup_alter_eq, Hc. }
  split; [done |]. split.
  - rewrite !getAllWarnings_visited, Hv. apply collect_prefix.
  - intros b Hbo Hbc. rewrite !getAllWarnings_visited. f_equal.
    unfold Lineage.visited_warnings, visited.
    assert (sessions w' !! b = sessions w !! b) as ->.
    { rewrite Hw'. simpl. by rewrite !list_lookup_alter_ne. }
    destruct (sessions w !! b) as [s |] eqn:Eb; [| done].
    simpl. f_equal. apply clones_warnings_ext. intros c' Hc'. apply Hstore.
    intros ->. by apply (Hnotin b s).
Qed.

(** A clone that has not finished its reload is not visited, and one
    whose reload failed never is: for a session that exists,
    [getAllWarnings] returns the same before [clone()] is called on any
    session, while the clone reloads, and after the reload has failed. *)
Theorem clone_under_way_unseen (w : World) (a b c : nat) (s : Session)
    (ruleId : string) :
  reachable w →
  sessions w !! b = Some s →
  getAllWarnings (step w (CallClone a)) b ruleId = getAllWarnings w b ruleId ∧
  getAllWarnings (step w (ReloadFails c)) b ruleId = getAllWarnings w b ruleId.
Proof.
  intros Hreach Hb.
  pose proof (reachable_lineage _ Hreach) as Hlin.
  split.
  - rewrite !getAllWarnings_visited. f_equal.
    unfold Lineage.visited_warnings, visited. simpl. unfold clone_begin.
    destruct (ready w a) as [this |]; [| done].
    unfold construct. destruct (proxy_agent_of _ _); simpl; [done |].
    rewrite (lookup_app_l_Some _ _ _ _ Hb), Hb. simpl. f_equal.
    apply clones_warnings_ext. intros c' Hc'.
    destruct (wf_clones_recorded _ _ Hlin b s c' Hb Hc') as [Hlt _].
    by rewrite lookup_app_l.
  - rewrite !getAllWarnings_visited. f_equal.
    unfold Lineage.visited_warnings, visited. simpl. unfold clone_abort.
    by destruct (list_find _ _) as [[i e] |].
Qed.


(** *** Nothing is acquired, loaded or torn down unasked *)

Lemma on_demand_step (w : World) (op : Op) a :
  acquisitions a (events (step w op)) ≤
    acquisitions a (events w) + (if is_manager_call a op then 1 else 0) ∧
  plugin_loads a (events (step w op)) ≤
    plugin_loads a (events w) + (if is_load_call a op then 1 else 0).
Proof.
  destruct op as [lg lm | a' f | a' | a' | a' | c' st | c' | a' | p sv env fuel | p r |];
    simpl.
  - unfold construct. destruct (proxy_agent_of _ _); simpl; lia.
  - destruct (ready w a'); simpl; lia.
  - unfold jupyterSessionManager. destruct (ready w a') as [this |]; [| lia].
    destruct (_jupyterSessionManagerPromise this); simpl;
      rewrite ?HeapProps.acquisitions_app, ?HeapProps.plugin_loads_app;
      unfold acquisitions, plugin_loads; simpl;
      repeat case_bool_decide; simpl; lia.
  - unfold loadPlugins. destruct (ready w a') as [this |]; [| lia].
    destruct (_pluginPromise this); simpl; rewrite HeapProps.react_events; simpl;
      rewrite ?HeapProps.acquisitions_app, ?HeapProps.plugin_loads_app;
      unfold acquisitions, plugin_loads; simpl;
      repeat case_bool_decide; simpl; lia.
  - unfold clone_begin, construct. destruct (ready w a'); simpl; [| lia].
    destruct (proxy_agent_of _ _); simpl; lia.
  - unfold clone_end. destruct (list_find _ _) as [[i [o c'']] |]; [| lia].
    destruct (sessions w !! o); simpl; lia.
  - unfold clone_abort. destruct (list_find _ _) as [[i [o c'']] |]; simpl; lia.
  - unfold dispose. destruct (ready w a') as [this |]; [| simpl; lia].
    destruct (_jupyterSessionManagerPromise this); simpl; [| lia].
    rewrite HeapProps.react_events. lia.
  - unfold settle_acquire.
    destruct (promises w !! p) as [[[a' | a' | p'] [] rs] |]; try lia.
    destruct (sessions w !! a') as [this |]; [| lia].
    destruct (Acquire.createJupyterSessionManager _ _ _ _) as [[m | e |] eff];
      [| | lia]; simpl;
      rewrite HeapProps.settle_events, HeapProps.acquisitions_app,
        HeapProps.plugin_loads_app, HeapProps.acquisitions_log,
        HeapProps.plugin_loads_log; lia.
  - unfold settle_plugins.
    destruct (promises w !! p) as [[[a' | a' | p'] [] rs] |]; try lia.
    rewrite HeapProps.settle_events. lia.
  - destruct (jobs w) as [| [r st] js]; [lia |].
    unfold run_job.
    destruct r as [| a' q | q];
      [destruct st as [| [[m |] | reg] | e] | destruct st as [| [m | reg] | e] |];
      simpl; rewrite ?HeapProps.settle_events; simpl;
      rewrite ?HeapProps.acquisitions_app, ?HeapProps.plugin_loads_app;
      unfold acquisitions, plugin_loads; simpl; lia.
Qed.

(** Acquisition and the loading of plugins are lazy: along every run,
    [createJupyterSessionManager] is called on a session at most as often
    as [jupyterSessionManager()] is called on it, and the plugin factory at
    most as often as [loadPlugins()]. The constructor, [clone()],
    [dispose()], writes to the store and the event loop start neither. *)
Theorem acquisition_on_demand (w : World) (ops : list Op) (a : nat) :
  acquisitions a (events (run ops w)) ≤ acquisitions a (events w) + manager_calls a ops ∧
  plugin_loads a (events (run ops w)) ≤ plugin_loads a (events w) + load_calls a ops.
Proof.
  revert w. induction ops as [| op ops IH]; intros w; [simpl; lia |].
  rewrite HeapProps.run_cons. destruct (IH (step w op)) as [IH1 IH2].
  destruct (on_demand_step w op a) as [H1 H2].
  unfold manager_calls, load_calls in *. simpl.
  destruct (is_manager_call a op), (is_load_call a op); simpl; lia.
Qed.

(** Teardown answers [dispose()] and nothing else: along every run from
    nothing, [manager.dispose()] has run, or is still to run, at most as
    often as [dispose()] was called, over all sessions. *)
Theorem teardown_on_dispose (proxy : option string) (ops : list Op) :
  let w := run ops (empty_world proxy) in
  teardowns (events w) + scheduled w ≤ dispose_calls ops.
Proof.
  simpl.
  assert (∀ w : World,
            teardowns (events (run ops w)) + scheduled (run ops w) ≤
            teardowns (events w) + scheduled w + dispose_calls ops) as Hgen.
  { induction ops as [| op ops IH]; intros w; [simpl; lia |].
    rewrite HeapProps.run_cons. specialize (IH (step w op)).
    pose proof (HeapProps.teardowns_step parse_url initial_state selectCurrentSitePath
                  selectCurrentProjectPath path_resolve w op) as Hs.
    unfold dispose_calls in *. simpl.
    destruct (is_any_dispose_call op); simpl; lia. }
  specialize (Hgen (empty_world proxy)). simpl in Hgen. exact Hgen.
Qed.


(** *** [dispose()] and the sessions that share a manager *)

Lemma manager_slot_ready (w : World) a p :
  manager_slot w a = Some p →
  ∃ this, ready w a = Some this ∧ _jupyterSessionManagerPromise this = Some p.
Proof.
  unfold manager_slot. destruct (ready w a) as [this |]; [| done].
  simpl. intros H. by exists this.
Qed.

(** [dispose()] on a session whose slot holds a settled promise. *)
Lemma dispose_settled (w : World) a p st :
  manager_slot w a = Some p → pstate w p = Some st → st ≠ Pending →
  (dispose a w).2 =
    with_sessions (alter (set_manager_promise None) a)
      (with_jobs (λ js, js ++ [(RDispose, st)]) w).
Proof.
  intros (this & Hr & Hp)%manager_slot_ready Hst Hne.
  unfold dispose. rewrite Hr, Hp. simpl. f_equal.
  unfold pstate in Hst. unfold react.
  destruct (promises w !! p) as [pp |]; [| done]. injection Hst as <-.
  by destruct (state pp).
Qed.

(** [dispose()] knows of no other session. When two sessions hold the
    same resolved promise, as an origin and its clone do, [dispose()] on
    one of them tears the manager down and clears the slot of that session
    only: the other session keeps the promise in its slot, and its next
    [jupyterSessionManager()] is answered from the slot, with the manager
    that has been torn down, and without a new acquisition. *)
Theorem dispose_leaves_sharers (w : World) (a c p : nat) (m : Acquire.SessionManager) :
  a ≠ c →
  manager_slot w a = Some p →
  manager_slot w c = Some p →
  pstate w p = Some (Fulfilled (VManager (Some m))) →
  jobs w = [] →
  let w' := run [CallDispose c; Tick] w in
  events w' = events w ++ [EvDisposeManager m] ∧
  manager_slot w' c = None ∧
  manager_slot w' a = Some p ∧
  pstate w' p = Some (Fulfilled (VManager (Some m))) ∧
  events (step w' (CallJupyterSessionManager a)) = events w' ++ [EvManagerReturned a p].
Proof.
  intros Hac Ha Hc Hp Hj w'.
  assert (w' = emit [EvDisposeManager m]
                 (with_jobs (λ _, [])
                    (with_sessions (alter (set_manager_promise None) c)
                       (with_jobs (λ js, js ++ [(RDispose, Fulfilled (VManager (Some m)))]) w))))
    as Hw'.
  { subst w'. unfold Heap.run. simpl.
    rewrite (dispose_settled w c p _ Hc Hp) by done. simpl. by rewrite Hj. }
  assert (manager_slot w' a = Some p) as Ha'.
  { rewrite Hw'. rewrite HeapProps.manager_slot_unfold. simpl.
    rewrite HeapProps.manager_slot_unfold in Ha.
    destruct (bool_decide _); [done |]. by rewrite list_lookup_alter_ne. }
  split; [by rewrite Hw' |]. split; [| split; [done | split]].
  - rewrite Hw'. rewrite HeapProps.manager_slot_unfold. simpl.
    rewrite HeapProps.manager_slot_unfold in Hc.
    destruct (bool_decide _); [done |].
    rewrite list_lookup_alter_eq. by destruct (sessions w !! c).
  - by rewrite Hw'.
  - apply manager_slot_ready in Ha' as (this & Hr & Hs).
    simpl. unfold jupyterSessionManager. by rewrite Hr, Hs.
Qed.

(** [dispose()] while the acquisition is still under way: the slot is
    cleared at once and nothing is torn down yet; when the acquisition
    ends, the manager it obtained is torn down in the next turn of the
    event loop, and when it ends as "unavailable" there is nothing to tear
    down. *)
Theorem dispose_while_pending (w : World) (a p a0 : nat) (s0 : Session)
    (sv : Acquire.Services St) (env : Acquire.Env) (fuel : nat)
    (manager : option Acquire.SessionManager) (eff : Acquire.Effects St) :
  manager_slot w a = Some p →
  promises w !! p = Some {| kind := KAcquire a0; state := Pending; reactions := [] |} →
  jobs w = [] →
  sessions w !! a0 = Some s0 →
  Acquire.createJupyterSessionManager sv fuel env
    (Heap.sourcePath selectCurrentSitePath selectCurrentProjectPath path_resolve s0) =
    (Acquire.Returns manager, eff) →
  let w1 := step w (CallDispose a) in
  let w3 := run [SettleAcquire p sv env fuel; Tick] w1 in
  manager_slot w1 a = None ∧ events w1 = events w ∧
  events w3 = events w ++ (EvLog <$> Acquire.log eff) ++
              match manager with Some m => [EvDisposeManager m] | None => [] end ∧
  pstate w3 p = Some (Fulfilled (VManager manager)) ∧
  jobs w3 = [].
Proof.
  intros Ha Hp Hj Ha0 Hacq w1 w3.
  destruct (manager_slot_ready _ _ _ Ha) as (this & Hr & Hs).
  pose proof (HeapProps.ready_lookup _ _ _ Hr) as Hl.
  set (pp := {| kind := KAcquire a0; state := Pending; reactions := [RDispose] |}).
  assert (w1 = with_sessions (alter (set_manager_promise None) a)
                 (with_promises (λ ps, <[p := pp]> ps) w)) as Hw1.
  { subst w1. simpl. unfold dispose. rewrite Hr, Hs. simpl.
    unfold react. by rewrite Hp. }
  assert (p < List.length (promises w)) as Hlt by (by eapply lookup_lt_Some).
  assert (∃ s1, sessions w1 !! a0 = Some s1 ∧ store s1 = store s0) as (s1 & Hs1 & Hst).
  { rewrite Hw1. simpl.
    rewrite (HeapProps.lookup_alter_fwd _ _ _ _ _ Ha0). eexists. split; [done |].
    by destruct (decide (a = a0)). }
  split; [| split; [by rewrite Hw1 |]].
  { rewrite Hw1, HeapProps.manager_slot_unfold. simpl.
    unfold ready in Hr. destruct (bool_decide _); [done |].
    by rewrite list_lookup_alter_eq, Hr. }
  assert (step w1 (SettleAcquire p sv env fuel) =
            emit (EvLog <$> Acquire.log eff)
              (with_jobs (λ js, js ++ [(RDispose, Fulfilled (VManager manager))])
                 (with_promises
                    (λ ps, <[p := {| kind := KAcquire a0;
                                     state := Fulfilled (VManager manager);
                                     reactions := [] |}]> ps) w1))) as Hw2.
  { simpl. unfold settle_acquire.
    assert (promises w1 !! p = Some pp) as Hpp.
    { rewrite Hw1. simpl. by rewrite list_lookup_insert_eq. }
    rewrite Hpp. simpl. rewrite Hs1.
    unfold Heap.sourcePath in *. rewrite Hst, Hacq.
    unfold settle. by rewrite Hpp. }
  assert (w3 = step (step w1 (SettleAcquire p sv env fuel)) Tick) as -> by done.
  rewrite Hw2.
  assert (jobs w1 = []) as Hj1 by (by rewrite Hw1).
  simpl. rewrite Hj1. simpl.
  destruct manager as [m |]; simpl.
  - split; [| split; [| done]].
    + rewrite Hw1. simpl. by rewrite <- app_assoc.
    + unfold pstate. simpl. rewrite list_lookup_insert_eq; [done |].
      rewrite Hw1. simpl. by rewrite length_insert.
  - split; [| split; [| done]].
    + rewrite Hw1. simpl. by rewrite app_nil_r.
    + unfold pstate. simpl. rewrite list_lookup_insert_eq; [done |].
      rewrite Hw1. simpl. by rewrite length_insert.
Qed.


(** *** The plugins of a session *)

Local Abbreviation wf_plugins := (@Lineage.wf_plugins RootState).

(** A plugin promise, once in its slot, stays there. *)
Lemma plugin_promise_step (w : World) (op : Op) a s p :
  sessions w !! a = Some s → _pluginPromise s = Some p →
  ∃ s', sessions (step w op) !! a = Some s' ∧ _pluginPromise s' = Some p.
Proof.
  intros Ha Hp.
  destruct (step_shape w op)
    as [[Hs Hr] | [(a0 & this & f & Hrd & _ & _ & Hf & Hs & Hr) |
       [(a0 & q0 & reg & js & Hj & Hs & Hr) |
       [(s0 & Hfresh & Hs & Hr) |
       [(c0 & st & i & a0 & this & -> & Hi & Ha0 & Hs & Hr) | (i & Hs & Hr)]]]]];
    rewrite Hs.
  - by exists s.
  - rewrite (HeapProps.lookup_alter_fwd _ _ _ _ _ Ha). eexists. split; [done |].
    destruct (decide (a0 = a)) as [-> | _]; [| done].
    destruct Hf as [Hf | [Hnone _]]; [by rewrite Hf |].
    apply HeapProps.ready_lookup in Hrd. congruence.
  - rewrite (HeapProps.lookup_alter_fwd _ _ _ _ _ Ha). eexists. split; [done |].
    by destruct (decide (a0 = a)).
  - exists s. split; [by apply lookup_app_l_Some | done].
  - erewrite HeapProps.lookup_alter_fwd; [| by apply HeapProps.lookup_alter_fwd].
    eexists. split; [done |]. by destruct (decide (a0 = a)), (decide (c0 = a)).
  - by exists s.
Qed.

Lemma plugin_promise_run (ops : list Op) : ∀ (w : World) a s p,
  sessions w !! a = Some s → _pluginPromise s = Some p →
  ∃ s', sessions (run ops w) !! a = Some s' ∧ _pluginPromise s' = Some p.
Proof.
  induction ops as [| op ops IH]; intros w a s p Ha Hp; [by exists s |].
  rewrite HeapProps.run_cons.
  destruct (plugin_promise_step w op a s p Ha Hp) as (s' & Ha' & Hp'). by eapply IH.
Qed.

(** The job that assigns the plugins of a session carries the state of
    the promise in the slot of that session. *)
Lemma assign_job_state (w : World) a q st :
  wf_heap w → wf_plugins w → (RAssignPlugins a q, st) ∈ jobs w →
  st ≠ Pending ∧
  ∃ s p, sessions w !! a = Some s ∧ _pluginPromise s = Some p ∧ pstate w p = Some st.
Proof.
  intros [Hp Hs] [Hret _] Hin.
  destruct (wf_jobs _ Hp _ _ q Hin eq_refl) as (Hne & pq & p & pp & Hq & Hk & Hpp & Hst).
  split; [done |].
  assert (assigning w a q) as Has by (right; by exists st).
  destruct (wf_plugins_returned _ Hs _ _ (Hret _ _ Has)) as (s & p' & pq' & Hsa & Hslot & Hq' & Hk').
  rewrite Hq in Hq'. injection Hq' as <-. rewrite Hk in Hk'. injection Hk' as <-.
  exists s, p. split; [done |]. split; [done |]. unfold pstate. by rewrite Hpp, <- Hst.
Qed.

Lemma wf_plugins_step (w : World) (op : Op) :
  wf_heap w → wf_plugins w → wf_plugins (step w op).
Proof.
  intros Hwf Hpl. destruct Hpl as [Hret Hld]. split.
  - intros a q H. apply assigning_step in H as [H | [_ H]]; [| done].
    destruct (HeapProps.events_step parse_url initial_state selectCurrentSitePath
                selectCurrentProjectPath path_resolve w op) as [evs ->].
    apply elem_of_app. left. by apply Hret.
  - assert (∀ a s registry, sessions w !! a = Some s → plugins s = Some registry →
              ∃ p, _pluginPromise s = Some p ∧
                   pstate (step w op) p = Some (Fulfilled (VPlugins registry))) as Hold.
    { intros a s registry Ha Hreg. destruct (Hld a s registry Ha Hreg) as (p & Hp & Hst).
      exists p. split; [done |]. by apply HeapProps.pstate_step. }
    intros a s' registry Ha' Hreg.
    destruct (step_shape w op)
      as [[Hs Hr] | [(a0 & this & f & Hrd & _ & Hfp & Hf & Hs & Hr) |
         [(a0 & q0 & reg & js & Hj & Hs & Hr) |
         [(s0 & Hfresh & Hs & Hr) |
         [(c0 & st & i & a0 & this & -> & Hi & Ha0 & Hs & Hr) | (i & Hs & Hr)]]]]];
      rewrite Hs in Ha'.
    + by eapply Hold.
    + apply HeapProps.lookup_alter_inv in Ha' as (s & Ha & ->).
      destruct (decide (a0 = a)) as [-> | _]; [| by eapply Hold].
      rewrite Hfp in Hreg. destruct (Hold a s registry Ha Hreg) as (p & Hp & Hst).
      exists p. split; [| done].
      destruct Hf as [Hf | [Hnone _]]; [by rewrite Hf |].
      apply HeapProps.ready_lookup in Hrd. congruence.
    + apply HeapProps.lookup_alter_inv in Ha' as (s & Ha & ->).
      destruct (decide (a0 = a)) as [-> | _]; [| by eapply Hold].
      simpl in Hreg. injection Hreg as <-.
      destruct (assign_job_state w a q0 (Fulfilled (VPlugins reg)) Hwf
                  (Lineage.Build_wf_plugins _ Hret Hld))
        as (_ & s1 & p & Hs1 & Hp & Hst); [rewrite Hj; by left |].
      rewrite Ha in Hs1. injection Hs1 as <-.
      exists p. split; [done |]. by apply HeapProps.pstate_step.
    + apply lookup_snoc_Some in Ha' as [[_ Ha] | [_ <-]]; [by eapply Hold |].
      destruct Hfresh as (_ & _ & _ & Hnone & _). congruence.
    + apply HeapProps.lookup_alter_inv in Ha' as (s1 & Ha' & ->).
      apply HeapProps.lookup_alter_inv in Ha' as (s2 & Ha & ->).
      destruct (Hold a s2 registry Ha) as (p & Hp & Hst).
      { by destruct (decide (a0 = a)), (decide (c0 = a)). }
      exists p. split; [| done]. by destruct (decide (a0 = a)), (decide (c0 = a)).
    + by eapply Hold.
Qed.

Lemma wf_plugins_empty proxy : wf_plugins (empty_world proxy).
Proof.
  split.
  - intros a q [(p & pp & Hl & _) | (st & Hin)].
    + simpl in Hl. by rewrite lookup_nil in Hl.
    + by apply elem_of_nil in Hin.
  - intros a s registry Hl. simpl in Hl. by rewrite lookup_nil in Hl.
Qed.

Lemma wf_plugins_run (ops : list Op) : ∀ w : World,
  wf_heap w → wf_plugins w → wf_plugins (run ops w).
Proof.
  induction ops as [| op ops IH]; intros w Hwf Hl; [done |].
  rewrite HeapProps.run_cons. apply IH.
  - by apply HeapProps.wf_step.
  - by apply wf_plugins_step.
Qed.

Lemma reachable_plugins (w : World) : reachable w → wf_plugins w.
Proof.
  intros (proxy & ops & ->).
  apply wf_plugins_run; [apply HeapProps.wf_empty | apply wf_plugins_empty].
Qed.

(** The plugins of a session are those its plugin promise was fulfilled
    with, and nothing else ever. When the promise of the factory has been
    rejected, the load is not tried again: whatever is called afterwards,
    the rejected promise stays in the slot, [plugins] stays [undefined],
    and the factory is not called for the session again. *)
Theorem plugins_follow_promise (w : World) (a : nat) (this : Session) :
  reachable w →
  ready w a = Some this →
  (∀ registry, plugins this = Some registry →
     ∃ p, _pluginPromise this = Some p ∧
          pstate w p = Some (Fulfilled (VPlugins registry))) ∧
  (∀ p e ops,
     _pluginPromise this = Some p → pstate w p = Some (Rejected e) →
     let w' := run ops w in
     ∃ this', ready w' a = Some this' ∧ _pluginPromise this' = Some p ∧
              plugins this' = None ∧ pstate w' p = Some (Rejected e) ∧
              plugin_loads a (events w') = plugin_loads a (events w)).
Proof.
  intros Hreach Hr.
  pose proof (HeapProps.ready_lookup _ _ _ Hr) as Ha.
  split.
  { intros registry Hreg.
    by apply (wf_plugins_loaded _ (reachable_plugins _ Hreach) a this registry). }
  intros p e ops Hp Hst w'.
  assert (reachable w') as Hreach' by (by apply HeapProps.reachable_run).
  destruct (HeapProps.ready_run parse_url initial_state selectCurrentSitePath
              selectCurrentProjectPath path_resolve ops w a this Hr) as (this' & Hr').
  fold w' in Hr'.
  pose proof (HeapProps.ready_lookup _ _ _ Hr') as Ha'.
  destruct (plugin_promise_run ops w a this p Ha Hp) as (s' & Hs' & Hp').
  fold w' in Hs'. rewrite Ha' in Hs'. injection Hs' as <-.
  assert (pstate w' p = Some (Rejected e)) as Hst' by (by apply HeapProps.pstate_run).
  exists this'. split; [done |]. split; [done |]. split; [| split; [done |]].
  - destruct (plugins this') as [registry |] eqn:Epl; [| done].
    destruct (wf_plugins_loaded _ (reachable_plugins _ Hreach') a this' registry Ha' Epl)
      as (p' & Hp'' & Hful). congruence.
  - pose proof (HeapProps.plugin_loads_run parse_url initial_state selectCurrentSitePath
                  selectCurrentProjectPath path_resolve ops w a) as Hle.
    fold w' in Hle.
    assert (plugins_unset w a = 0) as Hu.
    { unfold plugins_unset, plugin_slot. rewrite Hr. simpl. by rewrite Hp. }
    destruct (HeapProps.events_run parse_url initial_state selectCurrentSitePath
                selectCurrentProjectPath path_resolve ops w) as [evs Hev].
    fold w' in Hev. rewrite Hev, HeapProps.plugin_loads_app in *. lia.
Qed.


(** *** The proxy agent and the source path of a session *)

(** The proxy agent of a session is made by the constructor of
    [process.env.HTTPS_PROXY] and by nothing else. Along every run the
    variable stays what it was, and every session of the run, clones
    included, has the agent the constructor makes of it: none when the
    variable is unset or empty, and otherwise the agent of the parsed
    address, which prints as the parser normalises it. When the address
    does not parse, the constructor of the agent throws: every [new
    Session] of the run has thrown and will throw, and there is no session
    at all. A session without agent hands the options of every [fetch] to
    the network as the caller gave them; a session with an agent hands,
    for a host that is not local, the options of the caller with that
    agent under them. *)
Theorem proxy_agent_of_environment (proxy : option string) (ops : list Op) :
  let w := run ops (empty_world proxy) in
  HTTPS_PROXY w = proxy ∧
  (∀ a s, sessions w !! a = Some s →
     proxy_agent_of parse_url proxy = inr (proxyAgent s)) ∧
  (∀ e, proxy_agent_of parse_url proxy = inl e →
     sessions w = [] ∧
     ∀ lg lm, (construct parse_url initial_state lg lm w).1 = inl e) ∧
  (∀ addr, proxy = Some addr → addr ≠ EmptyString →
     match parse_url addr with
     | Some u =>
         ∀ a s, sessions w !! a = Some s →
           proxyAgent s = Some (Fetch.HttpsProxyAgent (Fetch.href u)) ∧
           ∀ url init u',
             parse_url (Fetch.url_source url) = Some u' →
             Fetch.hostname u' ∉ Fetch.LOCALHOSTS →
             Fetch.calls (Fetch.fetch_begin parse_url (proxyAgent s) url init) =
               [(url, Some (Fetch.spread_agent
                              (Fetch.HttpsProxyAgent (Fetch.href u)) init))]
     | None =>
         sessions w = [] ∧
         ∀ lg lm, (construct parse_url initial_state lg lm w).1 =
                    inl (JsError "Invalid URL")
     end) ∧
  (proxy = None ∨ proxy = Some EmptyString →
   ∀ a s, sessions w !! a = Some s →
     proxyAgent s = None ∧
     ∀ url init u,
       parse_url (Fetch.url_source url) = Some u →
       Fetch.calls (Fetch.fetch_begin parse_url (proxyAgent s) url init) =
         [(url, init)]).
Proof.
  intros w.
  destruct (HeapProps.wf_env_run parse_url initial_state selectCurrentSitePath
              selectCurrentProjectPath path_resolve ops (empty_world proxy)
              (HeapProps.wf_env_empty parse_url proxy)) as [Henv Hwf].
  fold w in Henv, Hwf. simpl in Henv.
  assert (∀ a s, sessions w !! a = Some s →
            proxy_agent_of parse_url proxy = inr (proxyAgent s)) as Hagent.
  { intros a s Hl. rewrite <- Henv. by eapply Hwf. }
  assert (∀ e, proxy_agent_of parse_url proxy = inl e →
            sessions w = [] ∧
            ∀ lg lm, (construct parse_url initial_state lg lm w).1 = inl e) as Hthrow.
  { intros e He. split.
    - destruct (sessions w) as [| s ss] eqn:Es; [done |].
      specialize (Hagent 0 s eq_refl). congruence.
    - intros lg lm. unfold construct. by rewrite Henv, He. }
  split; [done |]. split; [done |]. split; [done |]. split.
  - intros addr -> Hne. apply String.eqb_neq in Hne.
    destruct (parse_url addr) as [u |] eqn:Hu.
    + intros a s Hl. specialize (Hagent a s Hl). simpl in Hagent.
      rewrite Hne, Hu in Hagent. injection Hagent as Hagent. split; [done |].
      intros url init u' Hu' Hhost.
      rewrite (FetchProps.fetch_begin_parsed _ _ _ _ _ Hu'). simpl.
      rewrite <- Hagent. by rewrite FetchProps.fetch_init_proxied.
    + apply Hthrow. simpl. by rewrite Hne, Hu.
  - intros Hp a s Hl. specialize (Hagent a s Hl).
    assert (proxyAgent s = None) as Hnone.
    { destruct Hp as [-> | ->]; simpl in Hagent; congruence. }
    split; [done |]. intros url init u Hu.
    rewrite (FetchProps.fetch_begin_parsed _ _ _ _ _ Hu). simpl.
    rewrite FetchProps.fetch_init_direct; [done |]. by left.
Qed.

(** Where a server is launched: on the resolved site path of the session
    when its store has one, even an empty one, whatever the project path;
    otherwise on the resolved project path; on the resolved [.] when it has
    neither. The line about the launch names that directory, and the
    promise of the acquisition is fulfilled with the manager of the
    launched server. *)
Theorem launch_on_source_path (w : World) (p a : nat) (this : Session)
    (rs : list Reaction) (sv : Acquire.Services St) (env : Acquire.Env) (fuel : nat)
    (root : string) (launched : Acquire.JupyterServerSettings) :
  promises w !! p = Some {| kind := KAcquire a; state := Pending; reactions := rs |} →
  sessions w !! a = Some this →
  Acquire.BINDER_REPO_SPEC env = None →
  Acquire.JUPYTER_BASE_URL env = None →
  Acquire.findExistingJupyterServer sv = inr None →
  (selectCurrentSitePath (store this) = Some root ∨
   (selectCurrentSitePath (store this) = None ∧
    selectCurrentProjectPath (store this) = Some root) ∨
   (selectCurrentSitePath (store this) = None ∧
    selectCurrentProjectPath (store this) = None ∧ root = ".")) →
  Acquire.launchJupyterServer sv (path_resolve root) = inr launched →
  Acquire.constructs sv (Some launched) →
  let w' := step w (SettleAcquire p sv env fuel) in
  events w' =
    events w ++ [EvLog (LDebug ("Launching jupyter server on " +:+ path_resolve root))] ∧
  pstate w' p = Some (Fulfilled (VManager (Some (Acquire.manager_of (Some launched))))).
Proof.
  intros Hp Ha Hb Hj Hf Hroot Hl Hc w'.
  assert (Heap.sourcePath selectCurrentSitePath selectCurrentProjectPath path_resolve this =
            path_resolve root) as Hsrc.
  { unfold Heap.sourcePath.
    destruct Hroot as [-> | [[-> ->] | (-> & -> & ->)]]; done. }
  pose proof (AcquireStrategies.launch_result sv fuel env (path_resolve root)
                launched Hb Hj Hf Hl Hc) as Hres.
  subst w'. simpl. unfold settle_acquire. rewrite Hp. simpl. rewrite Ha, Hsrc, Hres.
  simpl. rewrite HeapProps.settle_events. split; [done |].
  unfold settle. rewrite Hp. simpl. unfold pstate. simpl.
  rewrite list_lookup_insert_eq; [done |]. by eapply lookup_lt_Some.
Qed.

End WithStore.

End LineageProps.

(** ** The upgrade notice *)

Module UpgradeProps.
Import Upgrade.

Section WithVersion.

Variable sty : Style.
Variable version : string.
Variable MYST_LANG : option string.

Local Abbreviation step := (Upgrade.step sty version MYST_LANG).
Local Abbreviation run := (Upgrade.run sty version MYST_LANG).
Local Abbreviation showUpgradeNotice := (Upgrade.showUpgradeNotice sty version MYST_LANG).
Local Abbreviation notice := (Upgrade.notice sty version MYST_LANG).

Local Abbreviation inv := (Upgrade.shown_once sty version MYST_LANG).

Lemma inv_step (n : Notice) (ev : Event) :
  (_latestVersion n = None ∨ latest_settled n = true) → inv n →
  (_latestVersion (step n ev) = None ∨ latest_settled (step n ev) = true) ∧
  inv (step n ev).
Proof.
  intros Hset Hinv. destruct ev as [latest | |]; simpl.
  - destruct (latest_settled n) eqn:Es; [split; [by right | done] |]. split; [by right |].
    destruct Hset as [Hnone | ?]; [| done].
    destruct Hinv as [[Hsh Hlog] | (Hsh & l & Hl & _)]; [by left | congruence].
  - destruct (latest_settled n) eqn:Es; split; try (by right); done.
  - assert (_latestVersion (showUpgradeNotice n) = _latestVersion n ∧
            latest_settled (showUpgradeNotice n) = latest_settled n) as [Hv Hs].
    { unfold Upgrade.showUpgradeNotice. by destruct (_ || _ || _). }
    rewrite Hv, Hs. split; [done |]. clear Hv Hs.
    unfold Upgrade.showUpgradeNotice.
    destruct Hinv as [[Hsh Hlog] | (Hsh & l & Hl & Hrest)].
    + rewrite Hsh. simpl.
      destruct (_latestVersion n) as [latest |] eqn:El; simpl; [| by left].
      destruct (String.eqb latest EmptyString) eqn:E1; simpl; [by left |].
      destruct (String.eqb version latest) eqn:E2; simpl; [by left |].
      right. split; [done |]. exists latest. simpl.
      apply String.eqb_neq in E1, E2. rewrite Hlog. by repeat split.
    + rewrite Hsh. simpl. right. split; [done |]. by exists l.
Qed.

Lemma inv_run (evs : list Event) : ∀ n : Notice,
  (_latestVersion n = None ∨ latest_settled n = true) → inv n →
  inv (run evs n).
Proof.
  induction evs as [| ev evs IH]; intros n Hset Hinv; [done |].
  simpl. destruct (inv_step n ev Hset Hinv) as [Hset' Hinv']. by apply IH.
Qed.

(** The notice is shown at most once in the life of a session, and only
    for a version that has arrived, is not empty and is not the running
    one: in every state of every run the log is empty, or holds the one
    line about that version, and [_shownUpgrade] says which. *)
Theorem upgrade_notice_once (evs : list Event) :
  let n := run evs constructed in
  List.length (log n) ≤ 1 ∧
  (_shownUpgrade n = true ↔ log n ≠ []) ∧
  (∀ l, l ∈ log n →
     ∃ latest, _latestVersion n = Some latest ∧ latest ≠ EmptyString ∧
               latest ≠ version ∧ l = notice latest).
Proof.
  simpl.
  destruct (inv_run evs constructed) as [[Hsh Hlog] | (Hsh & latest & Hl & H1 & H2 & Hlog)];
    [by left | by left | |]; rewrite Hsh, Hlog.
  - split; [simpl; lia |]. split; [done |]. intros l Hin. by apply elem_of_nil in Hin.
  - split; [simpl; lia |]. split; [done |]. intros l Hin.
    apply list_elem_of_singleton in Hin as ->. by exists latest.
Qed.

(** After the notice has been shown, nothing is logged. *)
Lemma shown_log (evs : list Event) : ∀ n : Notice,
  _shownUpgrade n = true → log (run evs n) = log n.
Proof.
  induction evs as [| ev evs IH]; intros n Hsh; [done |].
  simpl. rewrite IH.
  - destruct ev; simpl; [by destruct (latest_settled n) .. |].
    unfold Upgrade.showUpgradeNotice. by rewrite Hsh.
  - destruct ev; simpl; [by destruct (latest_settled n) .. |].
    unfold Upgrade.showUpgradeNotice. by rewrite Hsh.
Qed.

(** Calls of [showUpgradeNotice()] that come before the latest version has
    arrived show nothing; when a newer version has arrived, the next call
    shows the notice about it, with the command of [pip] when [MYST_LANG]
    is [PYTHON] and that of [npm] otherwise; whatever comes later adds
    nothing. *)
Theorem upgrade_notice_shown (early : nat) (latest : string) (later : list Event) :
  latest ≠ EmptyString →
  latest ≠ version →
  log (run (replicate early CallShowUpgradeNotice ++
            [LatestResolves latest; CallShowUpgradeNotice] ++ later) constructed) =
  [LInfo (logUpdateAvailable sty version latest
            (if bool_decide (MYST_LANG = Some "PYTHON") then PIP_COMMAND else NPM_COMMAND)
            "MystMarkdown")].
Proof.
  intros H1 H2. unfold Upgrade.run. rewrite !foldl_app.
  assert (foldl step constructed (replicate early CallShowUpgradeNotice) = constructed)
    as ->.
  { induction early as [| k IH]; [done |]. by rewrite replicate_S_end, foldl_app, IH. }
  simpl foldl at 2. unfold Upgrade.showUpgradeNotice. simpl.
  apply String.eqb_neq in H1 as ->.
  assert (String.eqb version latest = false) as -> by (apply String.eqb_neq; congruence).
  simpl.
  change (foldl step ?n later) with (run later n).
  rewrite shown_log by done. simpl. unfold Upgrade.upgradeCommand.
  do 3 f_equal. case_bool_decide as Hl.
  - by rewrite Hl.
  - destruct MYST_LANG as [lang |]; [| done].
    destruct (String.eqb lang "PYTHON") eqn:E; [| done].
    apply String.eqb_eq in E. congruence.
Qed.

End WithVersion.

End UpgradeProps.

(** ** More properties at the samples *)

Module StrategyExamples.
Import Acquire Samples Fixtures.

(** The address of a server in the environment, without a token. *)
Lemma env_settings_strategy_witness :
  let partial := Some {| baseUrl := Some "http://localhost:8888/"; token := None;
                         appUrl := None; dispose := None |} in
  createJupyterSessionManager (local_services (Some running)) 0 server_env "." =
    (Returns (Some (manager_of partial)), {| log := []; repo := None |}) ∧
  on_disposed (manager_of partial) =
    [DisposeKernelManager (kernelManager (manager_of partial))].
Proof.
  apply (AcquireStrategies.env_settings_strategy (local_services (Some running)) 0
           server_env "." "http://localhost:8888/");
    first [reflexivity | by repeat split].
Defined.

(** A server is running. *)
Lemma existing_server_used_witness :
  createJupyterSessionManager (local_services (Some running)) 0 local_env "." =
    (Returns (Some (manager_of (Some running))),
     {| log := [LDebug "Found existing server on: http://localhost:8888/?token=abc"];
        repo := None |}).
Proof.
  apply (AcquireStrategies.existing_server_used (local_services (Some running)) 0
           local_env "." running); first [reflexivity | by repeat split].
Defined.

(** No server is running, and one is launched. *)
Lemma spawned_server_owned_witness :
  let manager := manager_of (Some spawned) in
  createJupyterSessionManager (local_services None) 0 local_env "/home/book" =
    (Returns (Some manager),
     {| log := [LDebug "Launching jupyter server on /home/book"]; repo := None |}) ∧
  on_disposed manager = [DisposeKernelManager (kernelManager manager); DisposeServer 1].
Proof.
  destruct (AcquireStrategies.spawned_server_owned (local_services None) 0 local_env
              "/home/book" spawned eq_refl eq_refl eq_refl eq_refl
              (conj eq_refl (conj eq_refl eq_refl))) as (Hc & Hd & _).
  split; [exact Hc | exact (Hd 1 eq_refl)].
Defined.

(** A stream that ends after a line about waiting. *)
Lemma stream_ends_without_ready_witness :
  createJupyterSessionManager (list_stream [waiting] id) 2 binder_env "." =
    (Returns (Some (manager_of None)),
     {| log := console_lines [waiting]; repo := Some [] |}).
Proof.
  apply (AcquireStrategies.stream_ends_without_ready (list_stream [waiting] id) 2
           binder_env "." "gh/executablebooks/thebe-binder-base/HEAD" [waiting] []
           [waiting]);
    first [reflexivity | by exists [] | by apply Forall_singleton
          | by apply Forall_singleton; eexists | by repeat split | simpl; lia].
Defined.

(** An event without message, after a line about waiting:
    [data.message.trim()] throws, and the acquisition comes to no
    backend. *)
Example event_without_message_caught :
  createJupyterSessionManager (list_stream [waiting; silent; ready1] (λ _, []))
    5 binder_env "." =
    (Returns None,
     {| log := console_lines [waiting] ++ [LError unable_msg no_message];
        repo := Some [ready1] |}).
Proof. reflexivity. Qed.

(** A [failed] event after a [ready] one, on a stream that still delivers
    after [close()]: no backend. *)
Example failed_after_ready :
  createJupyterSessionManager (list_stream [ready1; failed] id) 5 binder_env "." =
    (Returns None,
     {| log := console_lines [ready1; failed] ++ [LError unable_msg build_failed];
        repo := Some [] |}).
Proof. reflexivity. Qed.

(** The stream of the samples, with and without a server in the
    environment and one running. *)
Lemma binder_strategy_first_witness :
  createJupyterSessionManager (list_stream [waiting; ready1] (λ _, [])) 5 binder_env "." =
  createJupyterSessionManager stream_and_server 5 both_env "/home/book".
Proof.
  apply (AcquireStrategies.binder_strategy_first
           (list_stream [waiting; ready1] (λ _, [])) stream_and_server 5
           binder_env both_env "." "/home/book"
           "gh/executablebooks/thebe-binder-base/HEAD"); reflexivity.
Defined.

(** *** The upgrade notice *)

(** A newer version arrives after an early call, for the program
    installed with [pip]. *)
Lemma upgrade_notice_shown_witness :
  Upgrade.log
    (Upgrade.run plain "1.1.0" (Some "PYTHON")
       [Upgrade.CallShowUpgradeNotice; Upgrade.LatestResolves "1.2.0";
        Upgrade.CallShowUpgradeNotice; Upgrade.CallShowUpgradeNotice;
        Upgrade.LatestResolves "1.3.0"; Upgrade.CallShowUpgradeNotice]
       Upgrade.constructed) =
  [LInfo (Upgrade.logUpdateAvailable plain "1.1.0" "1.2.0" Upgrade.PIP_COMMAND
            "MystMarkdown")].
Proof.
  apply (UpgradeProps.upgrade_notice_shown plain "1.1.0" (Some "PYTHON") 1 "1.2.0"
           [Upgrade.CallShowUpgradeNotice; Upgrade.LatestResolves "1.3.0";
            Upgrade.CallShowUpgradeNotice]); discriminate.
Defined.

End StrategyExamples.

(** ** Sessions and their clones at the samples *)

Module LineageExamples.
Import Heap Samples Fixtures.

Lemma samples_reachable (ops : list Samples.Op) :
  @Heap.reachable State (list Acquire.BuildPhaseEvent) parse_url [] no_path no_path resolve
    (Samples.run ops Samples.empty).
Proof. by exists None, ops. Qed.

(** The clone of a session whose plugins have loaded. *)
Lemma clone_loads_own_plugins_witness :
  (0, 1) ∈ reloading cloning ∧
  let w' := Samples.step cloning (ReloadDone 1 [other_rule]) in
  ∃ cloneSession,
    ready w' 1 = Some cloneSession ∧
    _pluginPromise cloneSession = None ∧ plugins cloneSession = None ∧
    _clones cloneSession = [] ∧
    events (Samples.step w' (CallLoadPlugins 1)) =
      events w' ++ [EvLoadPlugins 1 (List.length (promises w'));
                    EvPluginsReturned 1 (S (List.length (promises w')))].
Proof.
  assert ((0, 1) ∈ reloading cloning) as Hin by (vm_compute; left).
  split; [exact Hin |].
  exact (LineageProps.clone_loads_own_plugins parse_url [] no_path no_path resolve cloning 0 1
           [other_rule] (samples_reachable _) Hin).
Defined.

(** The clone reports a warning the origin has, and one more. *)
Lemma clone_extends_warnings_witness :
  let w' := Samples.step cloning (ReloadDone 1 [missing_doi_reordered; bad_doi]) in
  Lineage.visited_warnings select w' 0 "doi-link-valid" =
    Lineage.visited_warnings select cloning 0 "doi-link-valid" ++
    [select [missing_doi_reordered; bad_doi] "doi-link-valid"] ∧
  getAllWarnings select cloning 0 "doi-link-valid" `prefix_of`
    getAllWarnings select w' 0 "doi-link-valid" ∧
  (∀ b, b ≠ 0 → b ≠ 1 →
     getAllWarnings select w' b "doi-link-valid" =
     getAllWarnings select cloning b "doi-link-valid").
Proof.
  apply (LineageProps.clone_extends_warnings parse_url [] no_path no_path resolve select cloning 0 1
           [missing_doi_reordered; bad_doi] "doi-link-valid" (samples_reachable _)).
  vm_compute. left.
Defined.

(** A second clone is begun, and the reload of the first fails. *)
Lemma clone_under_way_unseen_witness :
  getAllWarnings select (Samples.step cloning (CallClone 0)) 0 "doi-link-valid" =
    getAllWarnings select cloning 0 "doi-link-valid" ∧
  getAllWarnings select (Samples.step cloning (ReloadFails 1)) 0 "doi-link-valid" =
    getAllWarnings select cloning 0 "doi-link-valid".
Proof.
  eapply (LineageProps.clone_under_way_unseen parse_url [] no_path no_path resolve select cloning
            0 0 1 _ "doi-link-valid" (samples_reachable _)).
  reflexivity.
Defined.

(** The clone of a session whose manager has resolved is disposed. *)
Lemma dispose_leaves_sharers_witness :
  let m := Acquire.manager_of (Some (Acquire.ready_settings ready1)) in
  let w' := Samples.run [CallDispose 1; Tick] shared in
  events w' = events shared ++ [EvDisposeManager m] ∧
  manager_slot w' 1 = None ∧
  manager_slot w' 0 = Some 0 ∧
  pstate w' 0 = Some (Fulfilled (VManager (Some m))) ∧
  events (Samples.step w' (CallJupyterSessionManager 0)) =
    events w' ++ [EvManagerReturned 0 0].
Proof.
  apply (LineageProps.dispose_leaves_sharers parse_url [] no_path no_path resolve shared 0 1 0);
    [discriminate | reflexivity ..].
Defined.

(** [dispose()] before the stream of the samples is ready. *)
Lemma dispose_while_pending_witness :
  let sv := list_stream [waiting; ready1] (λ _, []) in
  let w1 := Samples.step acquiring (CallDispose 0) in
  let w3 := Samples.run [SettleAcquire 0 sv binder_env 5; Tick] w1 in
  manager_slot w1 0 = None ∧ events w1 = events acquiring ∧
  events w3 = events acquiring ++ (EvLog <$> Acquire.console_lines [waiting; ready1]) ++
              [EvDisposeManager (Acquire.manager_of (Some (Acquire.ready_settings ready1)))] ∧
  pstate w3 0 =
    Some (Fulfilled (VManager (Some (Acquire.manager_of (Some (Acquire.ready_settings ready1)))))) ∧
  jobs w3 = [].
Proof.
  eapply (LineageProps.dispose_while_pending parse_url [] no_path no_path resolve acquiring 0 0 0 _
            (list_stream [waiting; ready1] (λ _, [])) binder_env 5
            (Some (Acquire.manager_of (Some (Acquire.ready_settings ready1))))
            {| Acquire.log := Acquire.console_lines [waiting; ready1]; Acquire.repo := Some [] |});
    reflexivity.
Defined.

(** The plugins have failed to load, and [loadPlugins()] is called
    again. *)
Lemma plugins_follow_promise_witness :
  let w' := Samples.run [CallLoadPlugins 0; Tick] unplugged in
  ∃ this', ready w' 0 = Some this' ∧ _pluginPromise this' = Some 0 ∧
           plugins this' = None ∧
           pstate w' 0 = Some (Rejected (JsError "Cannot find module")) ∧
           plugin_loads 0 (events w') = plugin_loads 0 (events unplugged).
Proof.
  destruct (ready unplugged 0) as [this |] eqn:Hr; [| discriminate Hr].
  destruct (LineageProps.plugins_follow_promise parse_url [] no_path no_path resolve unplugged 0 this
              (samples_reachable _) Hr) as [_ Hrej].
  apply (Hrej 0 (JsError "Cannot find module") [CallLoadPlugins 0; Tick]).
  - by injection Hr as <-.
  - reflexivity.
Defined.



(** A session and its clone, with [HTTPS_PROXY] set to an address that
    the parser normalises: both have the agent of the normalised address,
    and a request to a host that is not local goes out through it. *)
Lemma proxy_agent_of_environment_witness :
  let w := Heap.run parse_url_proxied [] no_path no_path resolve
             [New None None; CallClone 0;
              ReloadDone (St := list Acquire.BuildPhaseEvent) 1 []]
             (empty_world (Some "http://proxy.example:8080")) in
  List.length (sessions w) = 2 ∧
  ∀ a s, sessions w !! a = Some s →
    proxyAgent s = Some (Fetch.HttpsProxyAgent "http://proxy.example:8080/") ∧
    Fetch.calls (Fetch.fetch_begin parse_url_proxied (proxyAgent s)
                   (Fetch.ReqString "https://api.mystmd.org/") None) =
      [(Fetch.ReqString "https://api.mystmd.org/",
        Some (Fetch.spread_agent
                (Fetch.HttpsProxyAgent "http://proxy.example:8080/") None))].
Proof.
  intros w. split; [reflexivity |]. intros a s Hl.
  assert ("api.mystmd.org" ∉ Fetch.LOCALHOSTS) as Hh.
  { unfold Fetch.LOCALHOSTS. intros Hin.
    by repeat (apply elem_of_cons in Hin as [Hin | Hin]; [discriminate |]);
      apply elem_of_nil in Hin. }
  assert ("http://proxy.example:8080" ≠ EmptyString) as Hne by discriminate.
  pose proof (proj1 (proj2 (proj2 (proj2
                (LineageProps.proxy_agent_of_environment
                   (St := list Acquire.BuildPhaseEvent) parse_url_proxied []
                   no_path no_path resolve (Some "http://proxy.example:8080") _))))
                "http://proxy.example:8080" eq_refl Hne a s Hl) as [Hagent Hcalls].
  split; [exact Hagent |].
  exact (Hcalls (Fetch.ReqString "https://api.mystmd.org/") None
           {| Fetch.href := "https://api.mystmd.org/";
              Fetch.hostname := "api.mystmd.org" |} eq_refl Hh).
Defined.

(** With an address that does not parse, no session is ever made. *)
Example unparsable_proxy_no_session :
  let w := Heap.run parse_url_proxied [] no_path no_path resolve
             [New None None; CallClone 0;
              ReloadDone (St := list Acquire.BuildPhaseEvent) 1 []]
             (empty_world (Some "proxy.example")) in
  sessions w = [] ∧
  (construct parse_url_proxied [] None None w).1 = inl (JsError "Invalid URL").
Proof. by split. Qed.

(** A store with a site path and a project path. *)
Lemma launch_on_source_path_witness :
  let w' := Heap.step parse_url [] (λ _, Some "docs") (λ _, Some "book")
              (λ root, "/home/" +:+ root) acquiring
              (SettleAcquire 0 (local_services None) local_env 0) in
  events w' =
    events acquiring ++ [EvLog (LDebug "Launching jupyter server on /home/docs")] ∧
  pstate w' 0 = Some (Fulfilled (VManager (Some (Acquire.manager_of (Some spawned))))).
Proof.
  destruct (sessions acquiring !! 0) as [this |] eqn:Hl; [| discriminate Hl].
  apply (LineageProps.launch_on_source_path parse_url [] (λ _, Some "docs") (λ _, Some "book")
           (λ root, "/home/" +:+ root) acquiring 0 0 this [] (local_services None)
           local_env 0 "docs" spawned);
    first [reflexivity | exact Hl | by left | by repeat split].
Defined.

End LineageExamples.
